(** * Hummingbird proxy client and S3 auth middleware: a shallow embedding

    The development follows two source files of the repository:
    the proxy direct client (package [client]: quorum and first-response
    dispatchers, container RPCs, the container-info cache, the account-bound
    facade) and the S3 V2 auth preparation middleware (package [middleware],
    [s3auth.go]).

    Go values are modelled as follows.
    - [int] is [Z]; integer division is Go's truncating division [Z.quot].
    - [string] is [string] (a sequence of bytes, [ascii]).
    - [http.Header], [url.Values] and [map[string]*ContainerInfo] are
      [gmap string _].
    - a nil-able pointer or map is an [option].
    - channel receives and timers are resolved by an explicit schedule given
      as an argument: the dispatchers are deterministic functions of the
      schedule, and the theorems quantify over all schedules. *)

From Stdlib Require Import ZArith Ascii String DecimalString Sorting.Permutation.
From Stdlib Require Sorting.Sorted Structures.OrderedTypeEx.
From stdpp Require Import base option list gmap strings fin_maps.

Local Open Scope string_scope.
Local Open Scope Z_scope.

(** ** Go's [strings], [strconv] and [sort] on byte strings *)

Module GoStrings.

Definition is_upper (c : ascii) : bool :=
  let n := nat_of_ascii c in (65 <=? n)%nat && (n <=? 90)%nat.

Definition is_lower (c : ascii) : bool :=
  let n := nat_of_ascii c in (97 <=? n)%nat && (n <=? 122)%nat.

Definition is_digit (c : ascii) : bool :=
  let n := nat_of_ascii c in (48 <=? n)%nat && (n <=? 57)%nat.

Definition lower_byte (c : ascii) : ascii :=
  if is_upper c then ascii_of_nat (nat_of_ascii c + 32) else c.

Definition upper_byte (c : ascii) : ascii :=
  if is_lower c then ascii_of_nat (nat_of_ascii c - 32) else c.

(** The one-byte string holding a line feed. *)
Definition nl : string := String "010"%char EmptyString.

Definition is_empty (s : string) : bool :=
  match s with EmptyString => true | _ => false end.

(** [strings.ToLower], on ASCII bytes. *)
Fixpoint ToLower (s : string) : string :=
  match s with
  | EmptyString => EmptyString
  | String c s' => String (lower_byte c) (ToLower s')
  end.

(** [strings.HasPrefix s prefix]. *)
Fixpoint HasPrefix (s prefix : string) : bool :=
  match prefix, s with
  | EmptyString, _ => true
  | String _ _, EmptyString => false
  | String p prefix', String c s' => Ascii.eqb p c && HasPrefix s' prefix'
  end.

(** The slice expression [s[n:]]. *)
Fixpoint drop_bytes (n : nat) (s : string) : string :=
  match n, s with
  | O, _ => s
  | S _, EmptyString => EmptyString
  | S n', String _ s' => drop_bytes n' s'
  end.

(** The slice expression [s[:n]]. *)
Fixpoint take_bytes (n : nat) (s : string) : string :=
  match n, s with
  | O, _ => EmptyString
  | S _, EmptyString => EmptyString
  | S n', String c s' => String c (take_bytes n' s')
  end.

(** [strings.TrimPrefix s prefix]. *)
Definition TrimPrefix (s prefix : string) : string :=
  if HasPrefix s prefix then drop_bytes (String.length prefix) s else s.

Fixpoint last_index_from (i : Z) (s : string) (c : ascii) (found : Z) : Z :=
  match s with
  | EmptyString => found
  | String a s' => last_index_from (i + 1) s' c (if Ascii.eqb a c then i else found)
  end.

(** [strings.LastIndex s sep] for a one-byte separator: the index of the
    last occurrence, or -1. *)
Definition LastIndex (s : string) (c : ascii) : Z := last_index_from 0 s c (-1).

(** [strings.Split s sep] for a one-byte separator. *)
Fixpoint Split (s : string) (sep : ascii) : list string :=
  match s with
  | EmptyString => [EmptyString]
  | String a s' =>
      if Ascii.eqb a sep then EmptyString :: Split s' sep
      else match Split s' sep with
           | x :: r => String a x :: r
           | [] => [String a EmptyString]
           end
  end.

(** [strings.Join parts sep]. *)
Fixpoint Join (parts : list string) (sep : string) : string :=
  match parts with
  | [] => EmptyString
  | [x] => x
  | x :: r => x +:+ sep +:+ Join r sep
  end.

Fixpoint trim_left (s : string) (c : ascii) : string :=
  match s with
  | EmptyString => EmptyString
  | String a s' => if Ascii.eqb a c then trim_left s' c else s
  end.

(** [strings.TrimRight s cutset] for a one-byte cutset. *)
Fixpoint TrimRight (s : string) (c : ascii) : string :=
  match s with
  | EmptyString => EmptyString
  | String a s' =>
      match TrimRight s' c with
      | EmptyString => if Ascii.eqb a c then EmptyString else String a EmptyString
      | t => String a t
      end
  end.

(** [strings.Trim s cutset] for a one-byte cutset. *)
Definition Trim (s : string) (c : ascii) : string := TrimRight (trim_left s c) c.

Definition first_byte (s : string) : option ascii :=
  match s with
  | EmptyString => None
  | String a _ => Some a
  end.

Fixpoint last_byte (s : string) : option ascii :=
  match s with
  | EmptyString => None
  | String a EmptyString => Some a
  | String _ s' => last_byte s'
  end.

Fixpoint repeat_byte (c : ascii) (n : nat) : string :=
  match n with
  | O => EmptyString
  | S n' => String c (repeat_byte c n')
  end.

(** [strconv.Itoa]. *)
Definition Itoa (n : Z) : string := NilZero.string_of_int (Z.to_int n).

Fixpoint digits_value (s : string) (acc : Z) : option Z :=
  match s with
  | EmptyString => Some acc
  | String c s' =>
      if is_digit c then digits_value s' (10 * acc + Z.of_nat (nat_of_ascii c - 48))
      else None
  end.

(** [strconv.ParseInt s 10 64] (and [strconv.Atoi] on a 64-bit platform):
    an optional sign, at least one decimal digit, the value in the int64
    range; [None] stands for the error result. *)
Definition ParseInt (s : string) : option Z :=
  let '(neg, body) :=
    match s with
    | String "-" r => (true, r)
    | String "+" r => (false, r)
    | _ => (false, s)
    end in
  match body with
  | EmptyString => None
  | _ =>
      match digits_value body 0 with
      | None => None
      | Some v =>
          let n := if neg then - v else v in
          if ((- 2 ^ 63 <=? n) && (n <=? 2 ^ 63 - 1))%Z then Some n else None
      end
  end.

Fixpoint insert_sorted (x : string) (l : list string) : list string :=
  match l with
  | [] => [x]
  | y :: r => if String.leb x y then x :: l else y :: insert_sorted x r
  end.

(** [sort.Strings]: ascending bytewise order. *)
Definition SortStrings (l : list string) : list string :=
  foldr insert_sorted [] l.

(** Ascending in the bytewise order. *)
Definition ascending : list string → Prop :=
  Sorted.StronglySorted (λ a b, String.leb a b = true).

End GoStrings.


(** ** [net/http] values: headers, requests, responses *)

Module Http.
Import GoStrings.

(** The bytes Go accepts in a header field name (RFC 7230 token bytes). *)
Definition validHeaderFieldByte (c : ascii) : bool :=
  is_upper c || is_lower c || is_digit c ||
  existsb (Ascii.eqb c)
    ["!"; "#"; "$"; "%"; "&"; "'"; "*"; "+"; "-"; "."; "^"; "_"; "`"; "|"; "~"]%char.

Fixpoint all_bytes (p : ascii → bool) (s : string) : bool :=
  match s with
  | EmptyString => true
  | String c s' => p c && all_bytes p s'
  end.

Fixpoint canon_bytes (upper : bool) (s : string) : string :=
  match s with
  | EmptyString => EmptyString
  | String c s' =>
      let c' := if upper then upper_byte c else lower_byte c in
      String c' (canon_bytes (Ascii.eqb c' "-") s')
  end.

(** [textproto.CanonicalMIMEHeaderKey]: a name made of token bytes gets an
    upper-case first letter and an upper-case letter after each dash, the
    other letters in lower case; any other name is left as it is. *)
Definition CanonicalMIMEHeaderKey (s : string) : string :=
  if all_bytes validHeaderFieldByte s then canon_bytes true s else s.

(** [http.Header] and [url.Values]: [map[string][]string]. *)
Abbreviation Header := (gmap string (list string)).
Abbreviation Values := (gmap string (list string)).

(** [Header.Get]: the first value under the canonical form of the key. *)
Definition Header_Get (h : Header) (key : string) : string :=
  match h !! CanonicalMIMEHeaderKey key with
  | Some (v :: _) => v
  | _ => EmptyString
  end.

(** [Header.Set]: replaces the values under the canonical form of the key. *)
Definition Header_Set (h : Header) (key value : string) : Header :=
  <[CanonicalMIMEHeaderKey key := [value]]> h.

(** [Values.Get]: the first value under the key, taken as it is; a nil map
    has no keys. *)
Definition Values_Get (v : option Values) (key : string) : string :=
  match v with
  | Some m => match m !! key with
              | Some (x :: _) => x
              | _ => EmptyString
              end
  | None => EmptyString
  end.

(** [http.Response]: status, headers, the buffered body and whether the
    body has been closed. *)
Record Response := mkResponse {
  StatusCode : Z;
  RespHeader : Header;
  Body : string;
  BodyClosed : bool
}.

(** Modelled from the spec: [ResponseStub] is declared outside the two
    source files; the spec describes it as "a closed-socket-free response
    with the given status and body; safe to Close()". *)
Definition ResponseStub (status : Z) (body : string) : Response :=
  {| StatusCode := status; RespHeader := ∅; Body := body; BodyClosed := false |}.

Definition Close (r : Response) : Response :=
  {| StatusCode := StatusCode r; RespHeader := RespHeader r;
     Body := Body r; BodyClosed := true |}.

Definition StatusBadRequest : Z := 400.
Definition StatusForbidden : Z := 403.
Definition StatusNotFound : Z := 404.
Definition StatusNotModified : Z := 304.
Definition StatusPreconditionFailed : Z := 412.
Definition StatusRequestedRangeNotSatisfiable : Z := 416.
Definition StatusInternalServerError : Z := 500.
Definition StatusServiceUnavailable : Z := 503.

End Http.

(** ** The S3 V2 auth preparation middleware ([s3auth.go]) *)

Module S3Auth.
Import GoStrings Http.

(** The table [S3Subresources], a [map[string]bool]; a key that is not in
    the table reads as [false]. *)
Definition S3SubresourceNames : list string :=
  [ "acl"; "delete"; "lifecycle"; "location"; "logging"; "notification";
    "partNumber"; "policy"; "requestPayment"; "torrent"; "uploads";
    "uploadId"; "versionId"; "versioning"; "versions"; "website";
    "response-cache-control"; "response-content-disposition";
    "response-content-encoding"; "response-content-language";
    "response-content-type"; "response-expires"; "cors"; "tagging";
    "restore" ].

Definition S3Subresources (token : string) : bool :=
  existsb (String.eqb token) S3SubresourceNames.

Record S3AuthInfo := mkS3AuthInfo {
  Key : string;
  Signature : string;
  StringToSign : string;
  Account : string
}.

(** [http.Request], the fields the handler reads.  [Form] is nil until the
    form has been parsed; [ParsedForm] is what parsing the URL query and the
    body yields, which is what [FormValue] triggers on a nil [Form]. *)
Record Request := mkRequest {
  Method : string;
  ReqHeader : Header;
  Form : option Values;
  ParsedForm : Values;
  URLPath : string;
  RawQuery : string
}.

(** [Request.FormValue]. *)
Definition FormValue (r : Request) (key : string) : string :=
  match Form r with
  | Some f => Values_Get (Some f) key
  | None => Values_Get (Some (ParsedForm r)) key
  end.

(** What [FormValue] does to the request it reads: a nil [Form] is parsed
    and stored in the request ([ParseForm]); a [Form] that is there is
    kept. *)
Definition ParseForm (r : Request) : Request :=
  {| Method := Method r;
     ReqHeader := ReqHeader r;
     Form := Some (default (ParsedForm r) (Form r));
     ParsedForm := ParsedForm r;
     URLPath := URLPath r;
     RawQuery := RawQuery r |}.

(** [ProxyContext], the two fields the handler writes. *)
Record ProxyContext := mkProxyContext {
  Authorize : option (Request → bool * Z);
  S3Auth : option S3AuthInfo
}.

(** The writer handed to the next handler: the one received, or the one
    wrapped by [newS3ResponseWriterWrapper]. *)
Inductive Writer := PlainWriter | S3WrappedWriter.

(** What one call of [ServeHTTP] does: the context afterwards and the calls
    made to [next.ServeHTTP], in order.  The request it hands on is
    [requestAfter], below. *)
Record Served := mkServed {
  ctx_after : ProxyContext;
  next_calls : list Writer
}.

(** The deferred authorizer installed on a malformed credential. *)
Definition denyAll : Request → bool * Z := λ _, (false, StatusForbidden).

(** The names of the [x-amz-] headers, sorted as [sort.Strings] does on the
    keys as they are stored in the header map. *)
Definition amzKeys (h : Header) : list string :=
  SortStrings (filter (λ k, HasPrefix (ToLower k) "x-amz-" = true) (map_to_list h).*1).

Definition amzLines (h : Header) : string :=
  foldr (λ k acc,
           foldr (λ v acc', ToLower k +:+ ":" +:+ v +:+ nl +:+ acc') acc
                 (default [] (h !! k)))
        EmptyString (amzKeys h).

(** The query part of the string to sign: the [&]-separated tokens of the
    raw query that are keys of [S3Subresources], sorted and joined. *)
Definition signableQuery (rawQuery : string) : string :=
  if is_empty rawQuery then EmptyString
  else
    let queryParts := Split rawQuery "&" in
    let signableQueryParts := SortStrings (filter (λ v, S3Subresources v = true) queryParts) in
    match signableQueryParts with
    | [] => EmptyString
    | _ => "?" +:+ Join signableQueryParts "&"
    end.

(** The buffer [buf] at the point where [ServeHTTP] stores it. *)
Definition stringToSign (request : Request) : string :=
  let h := ReqHeader request in
  Method request +:+ nl +:+
  Header_Get h "Content-MD5" +:+ nl +:+
  Header_Get h "Content-Type" +:+ nl +:+
  (if is_empty (Header_Get h "x-amz-date") then Header_Get h "Date" +:+ nl else nl) +:+
  amzLines h +:+
  URLPath request +:+
  signableQuery (RawQuery request).

(** The credential parsed from [Authorization] (or the [AWSAccessKeyId]
    form entry): malformed, or the final [authStr], [key] and [signature]. *)
Inductive Parsed :=
  | Malformed
  | Credential (authStr key signature : string).

Definition parseAuth (request : Request) : Parsed :=
  let authStr := Header_Get (ReqHeader request) "Authorization" in
  let authStr := if is_empty authStr
                 then Values_Get (Form request) "AWSAccessKeyId" else authStr in
  if is_empty authStr then Credential authStr EmptyString EmptyString
  else
    let authStr := TrimPrefix authStr "AWS " in
    let i := LastIndex authStr ":" in
    if i <? 0 then Malformed
    else Credential authStr (take_bytes (Z.to_nat i) authStr)
                    (drop_bytes (Z.to_nat (i + 1)) authStr).

(** [s3AuthHandler.ServeHTTP].  The calls to the logger are left out; the
    context is the one [GetProxyContext] returns for the request. *)
Definition ServeHTTP (ctx : ProxyContext) (request : Request) : Served :=
  match parseAuth request with
  | Malformed =>
      {| ctx_after := {| Authorize := Some denyAll; S3Auth := S3Auth ctx |};
         next_calls := [PlainWriter] |}
  | Credential authStr key signature =>
      let '(key, signature) :=
        if is_empty authStr
        then (FormValue request "AWSAccessKeyId", FormValue request "Signature")
        else (key, signature) in
      if is_empty key || is_empty signature || bool_decide (is_Some (S3Auth ctx))
      then {| ctx_after := ctx; next_calls := [PlainWriter] |}
      else
        {| ctx_after :=
             {| Authorize := Authorize ctx;
                S3Auth := Some {| StringToSign := stringToSign request;
                                  Key := key;
                                  Signature := signature;
                                  Account := EmptyString |} |};
           next_calls := [S3WrappedWriter] |}
  end.

(** The request as [ServeHTTP] leaves it, which is the one the next handler
    receives.  The handler writes the request in one place only: the calls
    of [FormValue] at lines 109 and 110, reached when [authStr] is empty,
    parse a nil [Form] in place.  A later pass over the same request reads
    that [Form] at line 92. *)
Definition requestAfter (request : Request) : Request :=
  match parseAuth request with
  | Malformed => request
  | Credential authStr _ _ =>
      if is_empty authStr then ParseForm request else request
  end.

(** A request as the HTTP layer hands it over: each received header line is
    stored under its canonical name (both the server's parser and
    [Header.Set] do so). *)
Definition headerOf (lines : list (string * string)) : Header :=
  foldl (λ h kv, Header_Set h kv.1 kv.2) ∅ lines.

Definition scenarioRequest : Request :=
  {| Method := "GET";
     ReqHeader := headerOf [ ("Date", "Tue, 27 Mar 2007 19:36:42 +0000");
                             ("x-amz-acl", "public-read");
                             ("X-Amz-Meta-Foo", "bar") ];
     Form := None;
     ParsedForm := ∅;
     URLPath := "/bucket/key";
     RawQuery := "acl&partNumber=2&foo=bar" |}.

(** The scenario of the canonical string, and the requests and predicates
    used to state the handling of malformed credentials. *)

Definition expectedStringToSign : string :=
  "GET" +:+ nl +:+ nl +:+ nl +:+ "Tue, 27 Mar 2007 19:36:42 +0000" +:+ nl +:+
  "x-amz-acl:public-read" +:+ nl +:+ "x-amz-meta-foo:bar" +:+ nl +:+ "/bucket/key?acl".

(** The scenario request carrying a credential in its [Authorization]
    header. *)
Definition signedScenario (authorization : string) : Request :=
  {| Method := Method scenarioRequest;
     ReqHeader := Header_Set (ReqHeader scenarioRequest) "Authorization" authorization;
     Form := None; ParsedForm := ∅;
     URLPath := URLPath scenarioRequest;
     RawQuery := RawQuery scenarioRequest |}.

Definition emptyContext : ProxyContext := {| Authorize := None; S3Auth := None |}.

(** The handling of a malformed credential: a deferred authorizer that
    always answers (false, 403), the request forwarded once with the writer
    as received, and the stashed [S3Auth] left as it was. *)
Definition deniedDownstream (ctx : ProxyContext) (s : Served) : Prop :=
  (∃ f, Authorize (ctx_after s) = Some f ∧ ∀ r, f r = (false, 403))
  ∧ next_calls s = [PlainWriter]
  ∧ S3Auth (ctx_after s) = S3Auth ctx.

Definition noColon (s : string) : Prop := ¬ In ":"%char (list_ascii_of_string s).

Definition strippedAuthorization (request : Request) : string :=
  TrimPrefix (Header_Get (ReqHeader request) "Authorization") "AWS ".

(** A request whose [Authorization] header is present with an empty value
    and that carries no credential anywhere else. *)
Definition emptyAuthorizationRequest : Request :=
  {| Method := "GET";
     ReqHeader := {["Authorization" := [EmptyString]]};
     Form := None; ParsedForm := ∅;
     URLPath := "/bucket/key"; RawQuery := EmptyString |}.

Definition nocolonRequest : Request :=
  {| Method := "GET";
     ReqHeader := headerOf [("Authorization", "AWS nocolon")];
     Form := None; ParsedForm := ∅;
     URLPath := "/bucket/key"; RawQuery := EmptyString |}.

(** The test the header loop applies to a key, the sorted keys when the map
    is iterated in a given order, and the request with one header set. *)
Definition isAmz (k : string) : Prop := HasPrefix (ToLower k) "x-amz-" = true.

Definition amzKeysFrom (keys : list string) : list string :=
  SortStrings (filter isAmz keys).

Definition withHeader (request : Request) (key value : string) : Request :=
  {| Method := Method request;
     ReqHeader := Header_Set (ReqHeader request) key value;
     Form := Form request; ParsedForm := ParsedForm request;
     URLPath := URLPath request; RawQuery := RawQuery request |}.

(** The tokens of the raw query that are signed, in signing order. *)
Definition signableParts (rawQuery : string) : list string :=
  SortStrings (filter (λ v, S3Subresources v = true) (Split rawQuery "&")).

(** A header map with two x-amz headers and one other. *)
Definition twoAmzHeader : Header :=
  <["x-amz-a" := ["1"]]> (<["x-amz-b" := ["2"]]> (<["Date" := ["d"]]> ∅)).

(** The scenario request with an x-amz-date header and a given Date. *)
Definition datedScenario (date : string) : Request :=
  withHeader (withHeader scenarioRequest "x-amz-date" "20070327T193642Z") "Date" date.

(** Two requests carrying their credential in the query, with no
    Authorization header: one whose form has not been parsed yet, one whose
    form has been parsed by an earlier handler. *)
Definition queryCredentials : Values :=
  {[ "AWSAccessKeyId" := ["AKIDEXAMPLE"]; "Signature" := ["c2ln"] ]}.

Definition unparsedQueryRequest : Request :=
  {| Method := "GET"; ReqHeader := ∅;
     Form := None; ParsedForm := queryCredentials;
     URLPath := "/bucket/key";
     RawQuery := "AWSAccessKeyId=AKIDEXAMPLE&Signature=c2ln" |}.

Definition parsedQueryRequest : Request :=
  {| Method := "GET"; ReqHeader := ∅;
     Form := Some queryCredentials; ParsedForm := queryCredentials;
     URLPath := "/bucket/key";
     RawQuery := "AWSAccessKeyId=AKIDEXAMPLE&Signature=c2ln" |}.

End S3Auth.

(** ** The ring, as the client consumes it *)

Module Ring.

(** [ring.Device], the fields the client reads. *)
Record Device := mkDevice {
  Ip : string;
  Port : Z;
  DeviceName : string
}.

(** [ring.Ring]: the replica count, the partition of a key, the primary
    devices of a partition and the sequence its handoff iterator yields
    ([MoreNodes.Next] returns nil once the sequence is used up). *)
Record Ring := mkRing {
  ReplicaCount : nat;
  GetPartition : string → string → string → Z;
  GetNodes : Z → list Device;
  GetMoreNodes : Z → list Device
}.

End Ring.

(** ** The quorum dispatcher ([stdQuorumer]) *)

Module Quorum.
Import GoStrings Http Ring.

(** A Go call either returns or panics (an index out of range). *)
Inductive result (A : Type) :=
  | Ok (a : A)
  | Panic.
Arguments Ok {A} a.
Arguments Panic {A}.

(** The fields of [stdQuorumer] that [addResponse] and [getResponse] use;
    [workers] is kept as its length. *)
Record stdQuorumer := mkQuorumer {
  q : Z;
  responses : list Response;
  responseClassCounts : list Z;
  replicaCount : Z;
  workers : nat
}.

(** The slice read [s[i]] for an [int] index. *)
Definition index (s : list Z) (i : Z) : result Z :=
  if i <? 0 then Panic
  else match s !! Z.to_nat i with
       | Some c => Ok c
       | None => Panic
       end.

Definition statusClass (resp : Response) : Z := StatusCode resp ÷ 100.

Definition addResponse (qr : stdQuorumer) (resp : Response) : result stdQuorumer :=
  let rs := (responses qr ++ [resp])%list in
  if (500 <=? StatusCode resp) || (StatusCode resp <? 0)
  then Ok {| q := q qr; responses := rs;
             responseClassCounts := responseClassCounts qr;
             replicaCount := replicaCount qr; workers := workers qr |}
  else
    match index (responseClassCounts qr) (statusClass resp) with
    | Panic => Panic
    | Ok c =>
        Ok {| q := q qr; responses := rs;
              responseClassCounts :=
                <[Z.to_nat (statusClass resp) := c + 1]> (responseClassCounts qr);
              replicaCount := replicaCount qr; workers := workers qr |}
    end.

Definition unavailable : Response :=
  ResponseStub StatusServiceUnavailable "The service is currently unavailable.".

(** What a [select] on the response channel and a timer resolves to:
    [Some resp] when a worker's final response arrives first, [None] when
    the timer fires first.  A schedule is the list of these in order; when
    it is used up nothing more arrives and the timer fires. *)
Definition Schedule := list (option Response).

(** The scan [for _, r := range q.responses] for a response whose class has
    reached the quorum. *)
Fixpoint findQuorum (counts : list Z) (qv : Z) (rs : list Response)
  : result (option Response) :=
  match rs with
  | [] => Ok None
  | r :: rs' =>
      match index counts (statusClass r) with
      | Panic => Panic
      | Ok c => if qv <=? c then Ok (Some r) else findQuorum counts qv rs'
      end
  end.

(** The post-quorum grace loop: pending responses are added until all
    workers have answered or the 100 ms timer fires; [r] is returned. *)
Fixpoint finalize (r : Response) (sched : Schedule) (qr : stdQuorumer)
  : result (Response * stdQuorumer) :=
  if (length (responses qr) <? workers qr)%nat then
    match sched with
    | Some resp :: sched' =>
        match addResponse qr resp with
        | Panic => Panic
        | Ok qr' => finalize r sched' qr'
        end
    | _ => Ok (r, qr)
    end
  else Ok (r, qr).

Definition quorumPossible (qr : stdQuorumer) (outstandingRequests : Z) : bool :=
  existsb (λ c, q qr <=? c + outstandingRequests) (responseClassCounts qr).

(** The loop of [getResponse], with [iters] iterations left. *)
Fixpoint getResponseLoop (iters : nat) (qr : stdQuorumer) (sched : Schedule)
  : result (Response * stdQuorumer) :=
  match iters with
  | O => Ok (unavailable, qr)
  | S iters' =>
      let outstandingRequests :=
        Z.of_nat (workers qr) - Z.of_nat (length (responses qr)) in
      match findQuorum (responseClassCounts qr) (q qr) (responses qr) with
      | Panic => Panic
      | Ok (Some r) => finalize r sched qr
      | Ok None =>
          if negb (quorumPossible qr outstandingRequests) then Ok (unavailable, qr)
          else if 0 <? outstandingRequests then
            match sched with
            | Some response :: sched' =>
                match addResponse qr response with
                | Panic => Panic
                | Ok qr' => getResponseLoop iters' qr' sched'
                end
            | _ => Ok (unavailable, qr)
            end
          else getResponseLoop iters' qr sched
      end
  end.

Definition getResponse (qr : stdQuorumer) (sched : Schedule)
  : result (Response * stdQuorumer) :=
  getResponseLoop (workers qr) qr sched.

(** [int(math.Ceil(float64(n) / 2.0))]; the conversions are exact for
    replica counts below 2^53. *)
Definition ceilHalf (n : nat) : Z := (Z.of_nat n + 1) / 2.

(** [newQuorumer] followed by [start]: one worker per primary device. *)
Definition newQuorumer (r : Ring) (partition : Z) : stdQuorumer :=
  {| q := ceilHalf (ReplicaCount r);
     responses := [];
     responseClassCounts := replicate 6 0;
     replicaCount := Z.of_nat (ReplicaCount r);
     workers := length (GetNodes r partition) |}.

(** [quorumResponse]: the workers run the request factory and deliver their
    final responses, which reach the decision loop as the schedule says. *)
Definition quorumResponse (r : Ring) (partition : Z) (sched : Schedule)
  : result (Response * stdQuorumer) :=
  getResponse (newQuorumer r partition) sched.

(** The number of responses counted in class [k]: those with a status of
    at least 0 and below 500 whose status divided by 100 is [k]. *)
Definition usableInClass (k : Z) (rs : list Response) : Z :=
  Z.of_nat (length (filter (λ r, 0 ≤ StatusCode r < 500 ∧ statusClass r = k) rs)).

(** The tally agrees with the responses held: six classes, each counting
    the usable responses of its class. *)
Definition tallied (qr : stdQuorumer) : Prop :=
  ∀ k, 0 ≤ k < 6 →
    responseClassCounts qr !! Z.to_nat k = Some (usableInClass k (responses qr)).

Definition sixClasses (qr : stdQuorumer) : Prop :=
  length (responseClassCounts qr) = 6%nat.

Definition badStatus (x : Response) : Prop :=
  StatusCode x ≤ -100 ∨ 600 ≤ StatusCode x.

(** Where the responses a quorumer holds come from: those it held before,
    and those the schedule delivered. *)
Definition delivered (before : list Response) (sched : Schedule) (x : Response) : Prop :=
  x ∈ before ∨ Some x ∈ sched.

(** What a return of the decision loop satisfies. *)
Definition decided (qv : Z) (sched : Schedule) (before : list Response)
    (resp : Response) (qr : stdQuorumer) : Prop :=
  tallied qr
  ∧ (∀ y, y ∈ responses qr → delivered before sched y)
  ∧ ((resp ∈ responses qr
      ∧ 0 ≤ statusClass resp < 6
      ∧ qv ≤ usableInClass (statusClass resp) (responses qr))
     ∨ resp = unavailable).

(** ** The per-device worker ([quorumWorker.work]) *)

(** What the worker's first [select] resolves to after a call of the request
    factory: a response on [oneResponse], or the paired writer on [ready]
    (the request body is being read: a streaming PUT got its 100-continue). *)
Inductive Reply :=
  | Answer (resp : Response)
  | Ready.

(** The test that sends a worker to the next handoff device. *)
Definition retry (resp : Response) : bool :=
  (500 <=? StatusCode resp) || (StatusCode resp <? 0).

(** The worker when its device loop has ended: the devices it called, in
    order; the response held in [qw.response] and whether a writer was
    registered with the quorumer; how many factory calls were made; the
    handoff devices not drawn. *)
Record Settled := mkSettled {
  called : list Device;
  held : option Response;
  writing : bool;
  calls : nat;
  handoffsLeft : list Device
}.

(** The device loop of [work]: [reply n] is what the [n]-th factory call
    leads to; the handoff iterator yields [more]. *)
Fixpoint deviceLoop (reply : nat → Reply) (n : nat) (dev : Device) (more : list Device)
  : Settled :=
  match reply n with
  | Ready =>
      {| called := [dev]; held := None; writing := true;
         calls := S n; handoffsLeft := more |}
  | Answer resp =>
      if retry resp then
        match more with
        | [] => {| called := [dev]; held := None; writing := false;
                   calls := S n; handoffsLeft := [] |}
        | next :: more' =>
            let s := deviceLoop reply (S n) next more' in
            {| called := dev :: called s; held := held s; writing := writing s;
               calls := calls s; handoffsLeft := handoffsLeft s |}
        end
      else
        {| called := [dev]; held := Some resp; writing := false;
           calls := S n; handoffsLeft := more |}
  end.

(** What the worker sends on the quorumer's response channel, if anything.
    A worker holding a writer waits for the final response of its request,
    [final], or for the 30 s timer ([None]), on which it closes the writer;
    a worker holding a response sends it; a worker that ran out of handoff
    devices sends nothing. *)
Definition delivery (s : Settled) (final : option Response) : option Response :=
  if writing s then final else held s.

Definition work (reply : nat → Reply) (dev : Device) (more : list Device)
    (final : option Response) : option Response :=
  delivery (deviceLoop reply 0 dev more) final.

(** The [i]-th factory call was answered by a response that sends the
    worker to the next device. *)
Definition retried (reply : nat → Reply) (i : nat) : Prop :=
  ∃ resp, reply i = Answer resp ∧ retry resp = true.

(** The factory of [quorumResponse] only ever sends a response (the stub of
    a 500 when the request cannot be built or the HTTP client fails, else
    the backend's response, buffered): its replies are never [Ready]. *)
Definition plain (reply : nat → Reply) : Prop := ∀ n, reply n ≠ Ready.

(** Replies in which the first two calls get a 503 and a 507 and every
    later call a 201, and three devices to call. *)
Definition twoFailures : nat → Reply :=
  λ n, match n with
       | O => Answer {| StatusCode := 503; RespHeader := ∅;
                        Body := EmptyString; BodyClosed := false |}
       | S O => Answer {| StatusCode := 507; RespHeader := ∅;
                          Body := EmptyString; BodyClosed := false |}
       | _ => Answer {| StatusCode := 201; RespHeader := ∅;
                        Body := EmptyString; BodyClosed := false |}
       end.

Definition deviceA : Device := {| Ip := "10.0.0.1"; Port := 6000; DeviceName := "sda" |}.
Definition deviceB : Device := {| Ip := "10.0.0.2"; Port := 6000; DeviceName := "sdb" |}.
Definition deviceC : Device := {| Ip := "10.0.0.3"; Port := 6000; DeviceName := "sdc" |}.

(** A ring of one replica. *)
Definition singleRing : Ring :=
  {| ReplicaCount := 1;
     GetPartition := λ _ _ _, 7;
     GetNodes := λ _, [deviceA];
     GetMoreNodes := λ _, [deviceB; deviceC] |}.

(** A ring of three replicas without handoff devices, and a backend response
    of a given status with no headers and an empty body. *)
Definition ring3 : Ring :=
  {| ReplicaCount := 3;
     GetPartition := λ _ _ _, 7;
     GetNodes := λ _, [ {| Ip := "10.0.0.1"; Port := 6000; DeviceName := "sda" |};
                        {| Ip := "10.0.0.2"; Port := 6000; DeviceName := "sdb" |};
                        {| Ip := "10.0.0.3"; Port := 6000; DeviceName := "sdc" |} ];
     GetMoreNodes := λ _, [] |}.

Definition answered (status : Z) : Response :=
  {| StatusCode := status; RespHeader := ∅; Body := EmptyString; BodyClosed := false |}.

End Quorum.

(** ** Backend requests *)

Module Backend.
Import GoStrings Http Ring.

(** [http.Request] as [http.NewRequest] builds it: method, target and
    headers; the body is nil for every request built here. *)
Record Request := mkRequest {
  Method : string;
  URL : string;
  ReqHeader : Header
}.

(** What an indexed request factory yields: a request, an error, or nothing
    at all when it does not terminate. *)
Inductive Built :=
  | Req (r : Request)
  | BuildError
  | Hangs.

End Backend.

(** ** The first-good-response dispatcher ([firstResponse]) *)

Module FirstResponse.
Import GoStrings Http Ring Backend.

(** The in-place exchange [devs[i], devs[j] = devs[j], devs[i]]. *)
Definition swap (devs : list Device) (i j : nat) : list Device :=
  match devs !! i, devs !! j with
  | Some di, Some dj => <[i := dj]> (<[j := di]> devs)
  | _, _ => devs
  end.

(** The shuffle loop; [rand i] is the random source behind the call
    [rand.Intn(i + 1)] of iteration [i], which yields a value in [0, i]. *)
Definition Intn (rand : nat → nat) (i : nat) : nat := rand i mod (i + 1).

Definition shuffle (rand : nat → nat) (devs : list Device) : list Device :=
  foldl (λ ds i, swap ds i (Intn rand i)) devs (seq 0 (length devs)).

(** What the [select] of one attempt resolves to: a value received on the
    [success] channel (nil when the transport failed) or the one-second
    timer.  A used-up schedule means nothing arrives and the timer fires. *)
Inductive SelectEvent :=
  | Received (resp : option Response)
  | TimedOut.

(** One loop iteration as it happened: the device drawn, and either the
    failure of the request factory or the request sent with what the
    [select] then resolved to. *)
Inductive Attempt :=
  | BuildFailed (dev : Device)
  | Launched (dev : Device) (req : Request) (ev : SelectEvent).

Definition attemptDevice (a : Attempt) : Device :=
  match a with
  | BuildFailed dev => dev
  | Launched dev _ _ => dev
  end.

(** What the dispatcher hands back: a backend response it received, or a
    synthetic response of the given status and empty body. *)
Inductive Outcome :=
  | Representative (resp : Response)
  | Synthetic (status : Z).

Definition responseOf (o : Outcome) : Response :=
  match o with
  | Representative resp => resp
  | Synthetic status => ResponseStub status EmptyString
  end.

Definition dquote : ascii := "034"%char.

Definition isTerminal (resp : Response) : bool :=
  (StatusCode resp ÷ 100 =? 2)
  || (StatusCode resp =? StatusPreconditionFailed)
  || (StatusCode resp =? StatusNotModified)
  || (StatusCode resp =? StatusRequestedRangeNotSatisfiable).

(** The header updates made on a response before it is returned. *)
Definition normalize (resp : Response) : Response :=
  let h := Header_Set (RespHeader resp) "Accept-Ranges" "bytes" in
  let etag := Header_Get h "Etag" in
  let h := if is_empty etag then h else Header_Set h "Etag" (Trim etag dquote) in
  {| StatusCode := StatusCode resp; RespHeader := h;
     Body := Body resp; BodyClosed := BodyClosed resp |}.

Section Dispatch.
Variable replicas : nat.
Variable devToRequest : Device → option Request.

Definition finish (internalErrors : Z) : Outcome :=
  if Z.of_nat replicas <=? internalErrors
  then Synthetic StatusServiceUnavailable
  else Synthetic StatusNotFound.

Definition logged (a : Attempt) (r : Outcome * list Attempt)
  : Outcome * list Attempt := (r.1, a :: r.2).

(** The attempt loop with [todo] iterations left. *)
Fixpoint attempts (todo : nat) (requestCount : nat) (internalErrors : Z)
    (devs more : list Device) (sched : list SelectEvent)
  : Outcome * list Attempt :=
  match todo with
  | O => (finish internalErrors, [])
  | S todo' =>
      let drawn :=
        if (requestCount <? length devs)%nat
        then (devs !! requestCount, more)
        else match more with
             | d :: more' => (Some d, more')
             | [] => (None, [])
             end in
      match drawn with
      | (None, _) => (finish internalErrors, [])
      | (Some dev, more) =>
          match devToRequest dev with
          | None =>
              logged (BuildFailed dev)
                (attempts todo' (S requestCount) (internalErrors + 1) devs more sched)
          | Some req =>
              match sched with
              | Received (Some resp) :: sched' =>
                  if isTerminal resp
                  then (Representative (normalize resp),
                        [Launched dev req (Received (Some resp))])
                  else
                    logged (Launched dev req (Received (Some resp)))
                      (attempts todo' (S requestCount)
                         (if StatusCode resp ÷ 100 =? 5
                          then internalErrors + 1 else internalErrors)
                         devs more sched')
              | Received None :: sched' =>
                  logged (Launched dev req (Received None))
                    (attempts todo' (S requestCount) (internalErrors + 1) devs more sched')
              | TimedOut :: sched' =>
                  logged (Launched dev req TimedOut)
                    (attempts todo' (S requestCount) internalErrors devs more sched')
              | [] =>
                  logged (Launched dev req TimedOut)
                    (attempts todo' (S requestCount) internalErrors devs more [])
              end
          end
      end
  end.

End Dispatch.

(** [firstResponse]: shuffle the primaries, then run the attempt loop for
    at most [ReplicaCount + 2] iterations.  The result is the response
    handed back, with the log of the iterations made. *)
Definition firstResponse (r : Ring) (partition : Z)
    (devToRequest : Device → option Request)
    (rand : nat → nat) (sched : list SelectEvent)
  : Outcome * list Attempt :=
  attempts (ReplicaCount r) devToRequest (ReplicaCount r + 2) 0 0
    (shuffle rand (GetNodes r partition)) (GetMoreNodes r partition) sched.

(** The requests handed to the HTTP client. *)
Definition launched (log : list Attempt) : list Request :=
  omap (λ a, match a with Launched _ req _ => Some req | BuildFailed _ => None end) log.

(** The responses taken from the [success] channel. *)
Definition received (log : list Attempt) : list Response :=
  omap (λ a, match a with Launched _ _ (Received (Some resp)) => Some resp | _ => None end) log.

(** The internal-error count of a log: failed request constructions, absent
    responses and 5xx responses. *)
Definition isInternalError (a : Attempt) : bool :=
  match a with
  | BuildFailed _ => true
  | Launched _ _ (Received None) => true
  | Launched _ _ (Received (Some resp)) => StatusCode resp ÷ 100 =? 5
  | Launched _ _ TimedOut => false
  end.

Definition internalErrorCount (log : list Attempt) : Z :=
  Z.of_nat (length (filter (λ a, isInternalError a = true) log)).

(** The count of absent and 5xx responses alone. *)
Definition isResponseError (a : Attempt) : bool :=
  match a with
  | Launched _ _ (Received None) => true
  | Launched _ _ (Received (Some resp)) => StatusCode resp ÷ 100 =? 5
  | _ => false
  end.

Definition responseErrorCount (log : list Attempt) : Z :=
  Z.of_nat (length (filter (λ a, isResponseError a = true) log)).

Definition nonTerminal (resp : Response) : Prop := isTerminal resp = false.


(** What a run of the attempt loop satisfies, for [todo] iterations, an
    error count [ie] at the start and the devices [order] still to draw. *)
Definition loopSpec (replicas todo : nat) (ie : Z) (order : list Device)
    (res : Outcome * list Attempt) : Prop :=
  map attemptDevice res.2 = take (length res.2) order
  ∧ (length res.2 ≤ todo)%nat
  ∧ ((∃ resp pre dev req,
        res.1 = Representative (normalize resp)
        ∧ isTerminal resp = true
        ∧ res.2 = (pre ++ [Launched dev req (Received (Some resp))])%list
        ∧ Forall nonTerminal (received pre))
     ∨ (res.1 = finish replicas (ie + internalErrorCount res.2)
        ∧ Forall nonTerminal (received res.2)
        ∧ map attemptDevice res.2 = take todo order)).

(** An attempt agrees with the request factory: the request launched is the
    one built for the device drawn, and a failed build is a failure of the
    factory on that device. *)
Definition builtBy (devToRequest : Device → option Request) (a : Attempt) : Prop :=
  match a with
  | BuildFailed dev => devToRequest dev = None
  | Launched dev req _ => devToRequest dev = Some req
  end.

Definition timedOut (a : Attempt) : Prop :=
  ∃ dev req, a = Launched dev req TimedOut.

(** The failure status as the count of absent and 5xx responses alone would
    give it. *)
Definition failureStatusByResponses (r : Ring) (partition : Z)
    (devToRequest : Device → option Request)
    (rand : nat → nat) (sched : list SelectEvent) : Prop :=
  let res := firstResponse r partition devToRequest rand sched in
  ∀ status, res.1 = Synthetic status →
    status = if Z.of_nat (ReplicaCount r) <=? responseErrorCount res.2
             then StatusServiceUnavailable else StatusNotFound.

(** A ring of one replica with no handoff device, a request factory that
    always fails and one that always succeeds, and a 200 response whose
    Etag is the quoted string abc. *)
Definition device1 : Device :=
  {| Ip := "10.0.0.1"; Port := 6000; DeviceName := "sda" |}.

Definition ring1 : Ring :=
  {| ReplicaCount := 1;
     GetPartition := λ _ _ _, 7;
     GetNodes := λ _, [device1];
     GetMoreNodes := λ _, [] |}.

Definition noRequest : Device → option Request := λ _, None.

Definition plainGet : Device → option Request :=
  λ dev, Some {| Method := "GET"; URL := "http://" +:+ Ip dev; ReqHeader := ∅ |}.

Definition quotedEtagResponse : Response :=
  {| StatusCode := 200;
     RespHeader := {["Etag" := [String dquote ("abc" +:+ String dquote EmptyString)]]};
     Body := EmptyString;
     BodyClosed := false |}.

End FirstResponse.

(** ** The RPC layer ([ProxyDirectClient]) *)

Module Client.
Import GoStrings Http Ring Backend Quorum FirstResponse.

(** [conf.Policy], the fields the client reads, and the default flag. *)
Record Policy := mkPolicy {
  Name : string;
  Index : Z;
  Deprecated : bool;
  IsDefault : bool
}.

(** Modelled from the spec: [conf.PolicyList.Default] is declared outside
    the source files; the spec describes the list as an "ordered set of
    policies {name, index, deprecated, default}; exactly one is default"
    and speaks of "the default policy's index".  The index 0 stands for a
    list without a default. *)
Definition PolicyList_Default (policies : list Policy) : Z :=
  match filter (λ p, IsDefault p = true) policies with
  | p :: _ => Index p
  | [] => 0
  end.

Record ProxyDirectClient := mkProxyDirectClient {
  policyList : option (list Policy);
  AccountRing : Ring;
  ContainerRing : Ring
}.

(** The striping loop of [addUpdateHeaders], [fuel] iterations at most:
    [None] when the fuel runs out, which happens only for a step of 0,
    where the Go loop never ends. *)
Fixpoint stripe (fuel : nat) (devices : list Device) (i replicas : nat)
    (host device : string) : option (string * string) :=
  match devices !! i with
  | None => Some (host, device)
  | Some d =>
      match fuel with
      | O => None
      | S fuel' =>
          stripe fuel' devices (i + replicas) replicas
            (host +:+ Ip d +:+ ":" +:+ Itoa (Port d) +:+ ",")
            (device +:+ DeviceName d +:+ ",")
      end
  end.

Definition addUpdateHeaders (prefix : string) (headers : Header)
    (devices : list Device) (i replicas : nat) : option Header :=
  if (i <? length devices)%nat then
    match stripe (length devices) devices i replicas EmptyString EmptyString with
    | None => None
    | Some (host, device) =>
        Some (Header_Set
                (Header_Set headers (prefix +:+ "-Host") (TrimRight host ","))
                (prefix +:+ "-Device") (TrimRight device ","))
    end
  else Some headers.

Section RPC.
(** [common.Urlencode], [url.QueryEscape], whether [http.NewRequest]
    accepts a target, and the list [conf.LoadPolicies] returns. *)
Variable Urlencode : string → string.
Variable QueryEscape : string → string.
Variable validURL : string → bool.
Variable LoadPolicies : list Policy.

(** [mkquery]; the entries are visited in the order of [map_to_list]. *)
Definition mkquery (options : gmap string string) : string :=
  let query :=
    foldl (λ query kv, query +:+ QueryEscape kv.1 +:+ "=" +:+ QueryEscape kv.2 +:+ "&")
          EmptyString (map_to_list options) in
  if is_empty query then EmptyString else "?" +:+ TrimRight query "&".

(** [http://ip:port/device/partition/] followed by the path. *)
Definition deviceURL (dev : Device) (partition : Z) (path : string) : string :=
  "http://" +:+ Ip dev +:+ ":" +:+ Itoa (Port dev) +:+ "/" +:+ DeviceName dev
    +:+ "/" +:+ Itoa partition +:+ "/" +:+ path.

Definition accountPath (account : string) : string := Urlencode account.

Definition containerPath (account container : string) : string :=
  Urlencode account +:+ "/" +:+ Urlencode container.

(** [http.NewRequest] followed by the loop that copies the caller's
    headers: [req.Header.Set(key, headers.Get(key))] for each key.  The
    keys are visited in the order of [map_to_list]; the order matters only
    for keys with the same canonical form. *)
Definition newRequest (method url : string) (headers : Header) : option Request :=
  if validURL url
  then Some {| Method := method; URL := url;
               ReqHeader := foldl (λ h key, Header_Set h key (Header_Get headers key))
                                  ∅ (map_to_list headers).*1 |}
  else None.

Definition setHeader (req : Request) (key value : string) : Request :=
  {| Method := Method req; URL := URL req;
     ReqHeader := Header_Set (ReqHeader req) key value |}.

Definition built (r : option Request) : Built :=
  match r with
  | Some req => Req req
  | None => BuildError
  end.

(** What a write call decides before any request is sent: an immediate
    response, or a quorum dispatch over a ring partition with a request
    factory. *)
Inductive Plan :=
  | Reject (resp : Response)
  | Dispatch (r : Ring) (partition : Z) (devToRequest : nat → Device → Built).

(** A plan carried out.  The workers call the factory and deliver final
    responses; the schedule says which of them reach the decision loop,
    and in which order. *)
Definition runPlan (p : Plan) (sched : Schedule) : result Response :=
  match p with
  | Reject resp => Ok resp
  | Dispatch r partition _ =>
      match quorumResponse r partition sched with
      | Ok (resp, _) => Ok resp
      | Panic => Panic
      end
  end.

Definition effectivePolicies (c : ProxyDirectClient) : list Policy :=
  match policyList c with
  | Some l => l
  | None => LoadPolicies
  end.

Definition findPolicy (policies : list Policy) (policyName : string) : option Policy :=
  head (filter (λ v, Name v = policyName) policies).

Definition putContainerRequest (c : ProxyDirectClient) (account container : string)
    (headers : Header) (policyIndex : Z) (i : nat) (dev : Device) : Built :=
  let partition := GetPartition (ContainerRing c) account container EmptyString in
  let accountPartition := GetPartition (AccountRing c) account EmptyString EmptyString in
  let accountDevices := GetNodes (AccountRing c) accountPartition in
  let policyDefault := PolicyList_Default (effectivePolicies c) in
  let containerReplicaCount := ReplicaCount (ContainerRing c) in
  match newRequest "PUT" (deviceURL dev partition (containerPath account container)) headers with
  | None => BuildError
  | Some req =>
      let req := setHeader req "X-Backend-Storage-Policy-Index" (Itoa policyIndex) in
      let req := setHeader req "X-Backend-Storage-Policy-Default" (Itoa policyDefault) in
      let req := setHeader req "X-Account-Partition" (Itoa accountPartition) in
      match addUpdateHeaders "X-Account" (ReqHeader req) accountDevices i containerReplicaCount with
      | None => Hangs
      | Some h => Req {| Method := Method req; URL := URL req; ReqHeader := h |}
      end
  end.

(** The decision of [PutContainer].  The [%q] verb of the two messages is
    written as the name between double quotes. *)
Definition PutContainerPlan (c : ProxyDirectClient) (account container : string)
    (headers : Header) : Plan :=
  let partition := GetPartition (ContainerRing c) account container EmptyString in
  let policyName := Header_Get headers "X-Storage-Policy" in
  let factory := putContainerRequest c account container headers in
  if is_empty policyName then Dispatch (ContainerRing c) partition (factory (-1))
  else
    match findPolicy (effectivePolicies c) policyName with
    | None =>
        Reject (ResponseStub StatusBadRequest
                  ("Invalid X-Storage-Policy " +:+ String dquote policyName
                     +:+ String dquote EmptyString))
    | Some policy =>
        if Deprecated policy
        then Reject (ResponseStub StatusBadRequest
                       ("Storage Policy " +:+ String dquote policyName
                          +:+ String dquote " is deprecated"))
        else Dispatch (ContainerRing c) partition (factory (Index policy))
    end.

(** [PutContainer] also stores the loaded list in a client that had none. *)
Definition PutContainer (c : ProxyDirectClient) (account container : string)
    (headers : Header) (sched : Schedule) : result Response * ProxyDirectClient :=
  (runPlan (PutContainerPlan c account container headers) sched,
   {| policyList := Some (effectivePolicies c);
      AccountRing := AccountRing c; ContainerRing := ContainerRing c |}).

Definition PostContainerPlan (c : ProxyDirectClient) (account container : string)
    (headers : Header) : Plan :=
  let partition := GetPartition (ContainerRing c) account container EmptyString in
  Dispatch (ContainerRing c) partition
    (λ _ dev, built (newRequest "POST"
                       (deviceURL dev partition (containerPath account container)) headers)).

Definition PostContainer (c : ProxyDirectClient) (account container : string)
    (headers : Header) (sched : Schedule) : result Response :=
  runPlan (PostContainerPlan c account container headers) sched.

Definition DeleteContainerPlan (c : ProxyDirectClient) (account container : string)
    (headers : Header) : Plan :=
  let partition := GetPartition (ContainerRing c) account container EmptyString in
  let accountPartition := GetPartition (AccountRing c) account EmptyString EmptyString in
  let accountDevices := GetNodes (AccountRing c) accountPartition in
  let containerReplicaCount := ReplicaCount (ContainerRing c) in
  Dispatch (ContainerRing c) partition
    (λ i dev,
       match newRequest "DELETE"
               (deviceURL dev partition (containerPath account container)) headers with
       | None => BuildError
       | Some req =>
           let req := setHeader req "X-Account-Partition" (Itoa accountPartition) in
           match addUpdateHeaders "X-Account" (ReqHeader req) accountDevices i
                   containerReplicaCount with
           | None => Hangs
           | Some h => Req {| Method := Method req; URL := URL req; ReqHeader := h |}
           end
       end).

Definition DeleteContainer (c : ProxyDirectClient) (account container : string)
    (headers : Header) (sched : Schedule) : result Response :=
  runPlan (DeleteContainerPlan c account container headers) sched.

(** The read calls: a first-good-response dispatch; the response handed
    back is what [firstResponse] returns. *)
Definition GetAccount (c : ProxyDirectClient) (account : string)
    (options : gmap string string) (headers : Header)
    (rand : nat → nat) (sched : list SelectEvent) : Response :=
  let partition := GetPartition (AccountRing c) account EmptyString EmptyString in
  let query := mkquery options in
  responseOf (firstResponse (AccountRing c) partition
    (λ dev, newRequest "GET" (deviceURL dev partition (accountPath account) +:+ query) headers)
    rand sched).1.

Definition GetContainer (c : ProxyDirectClient) (account container : string)
    (options : gmap string string) (headers : Header)
    (rand : nat → nat) (sched : list SelectEvent) : Response :=
  let partition := GetPartition (ContainerRing c) account container EmptyString in
  let query := mkquery options in
  responseOf (firstResponse (ContainerRing c) partition
    (λ dev, newRequest "GET"
              (deviceURL dev partition (containerPath account container) +:+ query) headers)
    rand sched).1.

Definition HeadContainer (c : ProxyDirectClient) (account container : string)
    (headers : Header) (rand : nat → nat) (sched : list SelectEvent) : Response :=
  let partition := GetPartition (ContainerRing c) account container EmptyString in
  responseOf (firstResponse (ContainerRing c) partition
    (λ dev, newRequest "HEAD"
              (deviceURL dev partition (containerPath account container)) headers)
    rand sched).1.

End RPC.

(** The devices at the positions [i], [i + replicas], [i + 2 * replicas],
    and so on, below the length of the list. *)
Definition striped (devices : list Device) (i replicas : nat) : list Device :=
  omap (λ k, devices !! (i + k * replicas)%nat) (seq 0 (length devices)).

(** The two strings the striping loop builds for a list of devices: each
    entry followed by a comma. *)
Definition hostEntries (l : list Device) : string :=
  foldr (λ d acc, Ip d +:+ ":" +:+ Itoa (Port d) +:+ "," +:+ acc) EmptyString l.

Definition deviceEntries (l : list Device) : string :=
  foldr (λ d acc, DeviceName d +:+ "," +:+ acc) EmptyString l.

(** A device name that is not empty and does not end with a comma. *)
Definition cleanName (d : Device) : Prop :=
  DeviceName d ≠ EmptyString ∧ last_byte (DeviceName d) ≠ Some ","%char.

(** A list of four account devices, and caller headers with a repeated
    value. *)
Definition fourDevices : list Device :=
  [ {| Ip := "10.0.0.1"; Port := 6002; DeviceName := "sda" |};
    {| Ip := "10.0.0.2"; Port := 6002; DeviceName := "sdb" |};
    {| Ip := "10.0.0.3"; Port := 6002; DeviceName := "sdc" |};
    {| Ip := "10.0.0.4"; Port := 6002; DeviceName := "sdd" |} ].

Definition repeatedHeaders : Header :=
  {[ "X-Container-Meta-Color" := ["red"; "blue"]; "Content-Type" := ["text/plain"] ]}.

(** The reading of the spec by which a container PUT without
    X-Storage-Policy sends the default index in the policy index header. *)
Definition policyIndexIsDefault (Urlencode : string → string) (validURL : string → bool)
    (LoadPolicies : list Policy) (c : ProxyDirectClient) (account container : string)
    (headers : Header) : Prop :=
  headers !! "X-Storage-Policy" = None →
  ∀ r partition factory i dev req,
    PutContainerPlan Urlencode validURL LoadPolicies c account container headers
      = Dispatch r partition factory →
    factory i dev = Req req →
    Header_Get (ReqHeader req) "X-Backend-Storage-Policy-Index"
    = Itoa (PolicyList_Default (effectivePolicies LoadPolicies c)).

(** A client over one-replica rings whose only policy, of index 0, is the
    default one. *)
Definition goldPolicy : Policy :=
  {| Name := "gold"; Index := 0; Deprecated := false; IsDefault := true |}.

Definition goldClient : ProxyDirectClient :=
  {| policyList := Some [goldPolicy]; AccountRing := ring1; ContainerRing := ring1 |}.

(** A client with a deprecated policy beside the default one, and caller
    headers naming a policy. *)
Definition oldPolicy : Policy :=
  {| Name := "old"; Index := 3; Deprecated := true; IsDefault := false |}.

Definition silverPolicy : Policy :=
  {| Name := "silver"; Index := 2; Deprecated := false; IsDefault := false |}.

Definition threePolicyClient : ProxyDirectClient :=
  {| policyList := Some [goldPolicy; oldPolicy; silverPolicy];
     AccountRing := ring1; ContainerRing := ring1 |}.

Definition policyHeaders (name : string) : Header := {[ "X-Storage-Policy" := [name] ]}.

Definition anyURL : string → bool := λ _, true.

Definition noEscape : string → string := λ s, s.

End Client.

(** ** The container-info cache and the [proxyClient] facade *)

Module Facade.
Import GoStrings Http Ring Backend Quorum FirstResponse Client.

Record ContainerInfo := mkContainerInfo {
  ObjectCount : Z;
  ObjectBytes : Z;
  StoragePolicyIndex : Z;
  Metadata : gmap string string;
  SysMetadata : gmap string string;
  ReadACL : string;
  WriteACL : string;
  SyncKey : string
}.

(** A [*ContainerInfo]: nil, the sentinel [NilContainerInfo], or a pointer
    to a record. *)
Inductive CIPtr :=
  | Nil
  | NilContainerInfo
  | Ptr (ci : ContainerInfo).

(** The per-request local map, [map[string]*ContainerInfo]. *)
Abbreviation LocalMap := (gmap string CIPtr).

(** Modelled from the spec: [ring.MemcacheRing] is declared outside the
    source files; the spec describes it as the "external shared cache
    (structured value)" into which a fill is stored "with a 30-second TTL"
    and from which invalidation "removes the entry".  It is a finite map
    from keys to a value with the seconds it has left to live: [Set] stores
    a value with its TTL, [elapse] is the passing of time, and
    [GetStructured] fails on a key that is not there or that has no second
    left, so that a value stored with a TTL of 30 is found for fewer than
    30 seconds. *)
Record Entry := mkEntry {
  entryValue : ContainerInfo;
  entryTTL : Z
}.

Abbreviation Memcache := (gmap string Entry).

Definition mc_GetStructured (mc : Memcache) (key : string) : option ContainerInfo :=
  match mc !! key with
  | Some e => if 0 <? entryTTL e then Some (entryValue e) else None
  | None => None
  end.

Definition mc_Set (mc : Memcache) (key : string) (ci : ContainerInfo) (ttl : Z) : Memcache :=
  <[key := {| entryValue := ci; entryTTL := ttl |}]> mc.

Definition mc_Delete (mc : Memcache) (key : string) : Memcache := delete key mc.

(** The shared cache a number of seconds later. *)
Definition elapse (seconds : Z) (mc : Memcache) : Memcache :=
  (λ e, {| entryValue := entryValue e; entryTTL := entryTTL e - seconds |}) <$> mc.

(** [fmt.Sprintf("container/%s/%s", account, container)]. *)
Definition cacheKey (account container : string) : string :=
  "container/" +:+ account +:+ "/" +:+ container.

(** The errors [GetContainerInfo] returns: the HEAD status, a count or
    index header that does not parse, the sentinel found. *)
Inductive InfoError :=
  | HeadFailed (status : Z)
  | BadHeader (name : string)
  | NoInfoForTesting.

Definition collect (h : Header) (ci : ContainerInfo) (k : string) : ContainerInfo :=
  let v := Header_Get h k in
  if HasPrefix k "X-Container-Meta-" then
    {| ObjectCount := ObjectCount ci; ObjectBytes := ObjectBytes ci;
       StoragePolicyIndex := StoragePolicyIndex ci;
       Metadata := <[drop_bytes 17 k := v]> (Metadata ci);
       SysMetadata := SysMetadata ci;
       ReadACL := ReadACL ci; WriteACL := WriteACL ci; SyncKey := SyncKey ci |}
  else if HasPrefix k "X-Container-Sysmeta-" then
    {| ObjectCount := ObjectCount ci; ObjectBytes := ObjectBytes ci;
       StoragePolicyIndex := StoragePolicyIndex ci;
       Metadata := Metadata ci;
       SysMetadata := <[drop_bytes 20 k := v]> (SysMetadata ci);
       ReadACL := ReadACL ci; WriteACL := WriteACL ci; SyncKey := SyncKey ci |}
  else if String.eqb k "X-Container-Read" then
    {| ObjectCount := ObjectCount ci; ObjectBytes := ObjectBytes ci;
       StoragePolicyIndex := StoragePolicyIndex ci;
       Metadata := Metadata ci; SysMetadata := SysMetadata ci;
       ReadACL := v; WriteACL := WriteACL ci; SyncKey := SyncKey ci |}
  else if String.eqb k "X-Container-Write" then
    {| ObjectCount := ObjectCount ci; ObjectBytes := ObjectBytes ci;
       StoragePolicyIndex := StoragePolicyIndex ci;
       Metadata := Metadata ci; SysMetadata := SysMetadata ci;
       ReadACL := ReadACL ci; WriteACL := v; SyncKey := SyncKey ci |}
  else if String.eqb k "X-Container-Sync-Key" then
    {| ObjectCount := ObjectCount ci; ObjectBytes := ObjectBytes ci;
       StoragePolicyIndex := StoragePolicyIndex ci;
       Metadata := Metadata ci; SysMetadata := SysMetadata ci;
       ReadACL := ReadACL ci; WriteACL := WriteACL ci; SyncKey := v |}
  else ci.

(** The record built from the headers of a 2xx HEAD response. *)
Definition fillInfo (h : Header) : ContainerInfo + InfoError :=
  match ParseInt (Header_Get h "X-Container-Object-Count") with
  | None => inr (BadHeader "X-Container-Object-Count")
  | Some objectCount =>
      match ParseInt (Header_Get h "X-Container-Bytes-Used") with
      | None => inr (BadHeader "X-Container-Bytes-Used")
      | Some objectBytes =>
          match ParseInt (Header_Get h "X-Backend-Storage-Policy-Index") with
          | None => inr (BadHeader "X-Backend-Storage-Policy-Index")
          | Some policyIndex =>
              inl (foldl (collect h)
                     {| ObjectCount := objectCount; ObjectBytes := objectBytes;
                        StoragePolicyIndex := policyIndex;
                        Metadata := ∅; SysMetadata := ∅;
                        ReadACL := EmptyString; WriteACL := EmptyString;
                        SyncKey := EmptyString |}
                     (map_to_list h).*1)
          end
      end
  end.

(** The two cache tiers a [proxyClient] holds, each nil-able. *)
Record Caches := mkCaches {
  mc : option Memcache;
  lc : option LocalMap
}.

Section Info.
Variable Urlencode : string → string.
Variable validURL : string → bool.

(** The first two lookups: the local map, then the shared cache. *)
Definition lookupTiers (key : string) (cs : Caches) : CIPtr :=
  let ci := match lc cs with
            | Some m => default Nil (m !! key)
            | None => Nil
            end in
  match ci, mc cs with
  | Nil, Some m => match mc_GetStructured m key with
                   | Some v => Ptr v
                   | None => Nil
                   end
  | _, _ => ci
  end.

(** [ProxyDirectClient.GetContainerInfo]: the result and the two tiers
    afterwards. *)
Definition GetContainerInfo (c : ProxyDirectClient) (account container : string)
    (cs : Caches) (rand : nat → nat) (sched : list SelectEvent)
  : (ContainerInfo + InfoError) * Caches :=
  let key := cacheKey account container in
  match lookupTiers key cs with
  | NilContainerInfo => (inr NoInfoForTesting, cs)
  | Ptr ci => (inl ci, cs)
  | Nil =>
      let resp := Close (HeadContainer Urlencode validURL c account container ∅ rand sched) in
      if negb (StatusCode resp ÷ 100 =? 2) then (inr (HeadFailed (StatusCode resp)), cs)
      else
        match fillInfo (RespHeader resp) with
        | inr e => (inr e, cs)
        | inl ci =>
            (inl ci,
             {| mc := (λ m, mc_Set m key ci 30) <$> mc cs; lc := lc cs |})
        end
  end.

End Info.

Record proxyClient := mkProxyClient {
  pdc : ProxyDirectClient;
  caches : Caches
}.

Definition invalidateContainerInfo (c : proxyClient) (account container : string)
  : proxyClient :=
  let key := cacheKey account container in
  {| pdc := pdc c;
     caches := {| mc := (λ m, mc_Delete m key) <$> mc (caches c);
                  lc := delete key <$> lc (caches c) |} |}.

(** What the environment decides during one facade call: the random source
    of the shuffle, the schedule of a read dispatch, the schedule of a
    write dispatch. *)
Record World := mkWorld {
  rand : nat → nat;
  reads : list SelectEvent;
  writes : Schedule
}.

Section Calls.
Variable Urlencode : string → string.
Variable QueryEscape : string → string.
Variable validURL : string → bool.
Variable LoadPolicies : list Policy.

(** The three container writes: the deferred invalidation runs when the
    call of the RPC layer has returned or panicked. *)
Definition PutContainer (c : proxyClient) (account container : string)
    (headers : Header) (w : World) : result Response * proxyClient :=
  let '(resp, pdc') :=
    Client.PutContainer Urlencode validURL LoadPolicies (pdc c) account container
      headers (writes w) in
  (resp, invalidateContainerInfo {| pdc := pdc'; caches := caches c |} account container).

Definition PostContainer (c : proxyClient) (account container : string)
    (headers : Header) (w : World) : result Response * proxyClient :=
  (Client.PostContainer Urlencode validURL (pdc c) account container headers (writes w),
   invalidateContainerInfo c account container).

Definition DeleteContainer (c : proxyClient) (account container : string)
    (headers : Header) (w : World) : result Response * proxyClient :=
  (Client.DeleteContainer Urlencode validURL (pdc c) account container headers (writes w),
   invalidateContainerInfo c account container).

Definition GetContainerInfoCall (c : proxyClient) (account container : string)
    (w : World) : (ContainerInfo + InfoError) * proxyClient :=
  let '(res, cs) :=
    GetContainerInfo Urlencode validURL (pdc c) account container (caches c)
      (rand w) (reads w) in
  (res, {| pdc := pdc c; caches := cs |}).

Definition GetAccount (c : proxyClient) (account : string)
    (options : gmap string string) (headers : Header) (w : World) : Response :=
  Client.GetAccount Urlencode QueryEscape validURL (pdc c) account options headers
    (rand w) (reads w).

Definition GetContainer (c : proxyClient) (account container : string)
    (options : gmap string string) (headers : Header) (w : World) : Response :=
  Client.GetContainer Urlencode QueryEscape validURL (pdc c) account container
    options headers (rand w) (reads w).

(** The calls of the facade, with the arguments that matter to the
    caches.  An object call builds its object client first, which looks
    the container up with [GetContainerInfo]; the object client itself
    holds neither tier.  The other account and container calls go to the
    RPC layer, which is not given the tiers. *)
Inductive Call :=
  | CallPutContainer (account container : string) (headers : Header)
  | CallPostContainer (account container : string) (headers : Header)
  | CallDeleteContainer (account container : string) (headers : Header)
  | CallGetContainerInfo (account container : string)
  | CallObject (account container : string)
  | CallOther.

(** The facade after a call. *)
Definition after (call : Call) (c : proxyClient) (w : World) : proxyClient :=
  match call with
  | CallPutContainer account container headers =>
      (PutContainer c account container headers w).2
  | CallPostContainer account container headers =>
      (PostContainer c account container headers w).2
  | CallDeleteContainer account container headers =>
      (DeleteContainer c account container headers w).2
  | CallGetContainerInfo account container
  | CallObject account container =>
      (GetContainerInfoCall c account container w).2
  | CallOther => c
  end.

End Calls.

(** The container-info entry of a container is in neither tier that is
    present. *)
Definition evicted (account container : string) (c : proxyClient) : Prop :=
  (∀ m, lc (caches c) = Some m → m !! cacheKey account container = None)
  ∧ (∀ m, mc (caches c) = Some m → m !! cacheKey account container = None).

(** The calls that end with the invalidation of a container. *)
Definition invalidates (call : Call) (account container : string) : Prop :=
  (∃ headers, call = CallPutContainer account container headers)
  ∨ (∃ headers, call = CallPostContainer account container headers)
  ∨ (∃ headers, call = CallDeleteContainer account container headers).

(** The facade with no cache tier at all. *)
Definition uncached (c : proxyClient) : proxyClient :=
  {| pdc := pdc c; caches := {| mc := None; lc := None |} |}.

(** The HEAD response of the miss-fill scenario, a facade with both tiers
    present and empty, and a world in which that response arrives first. *)
Definition headScenario : Response :=
  {| StatusCode := 204;
     RespHeader := {[ "X-Container-Object-Count" := ["5"];
                      "X-Container-Bytes-Used" := ["1024"];
                      "X-Backend-Storage-Policy-Index" := ["1"];
                      "X-Container-Meta-Color" := ["red"] ]};
     Body := EmptyString;
     BodyClosed := false |}.

Definition headScenarioInfo : ContainerInfo :=
  {| ObjectCount := 5; ObjectBytes := 1024; StoragePolicyIndex := 1;
     Metadata := {["Color" := "red"]}; SysMetadata := ∅;
     ReadACL := EmptyString; WriteACL := EmptyString; SyncKey := EmptyString |}.

Definition emptyTiers : Caches := {| mc := Some ∅; lc := Some ∅ |}.

(** No tier at all, and the tiers a number of seconds later: the entries of
    the shared cache age, the local map of the request does not. *)
Definition noTiers : Caches := {| mc := None; lc := None |}.

Definition later (seconds : Z) (cs : Caches) : Caches :=
  {| mc := elapse seconds <$> mc cs; lc := lc cs |}.

Definition goldFacade : proxyClient := {| pdc := goldClient; caches := emptyTiers |}.

Definition headWorld : World :=
  {| rand := λ _, 0%nat; reads := [Received (Some headScenario)]; writes := [] |}.

End Facade.

(** ** The object client ([newObjectClient] and its calls) *)

Module Objects.
Import GoStrings Http Ring Backend Quorum FirstResponse Client Facade.

(** [proxyObjectClient]: the client that answers 500 to every call, or the
    client bound to a container, its policy index and an object ring. *)
Inductive proxyObjectClient :=
  | erroringObjectClient (body : string)
  | standardObjectClient (proxyDirectClient : ProxyDirectClient)
      (account container : string) (policy : Z) (objectRing : Ring).

(** The object calls modelled, with their arguments. *)
Inductive ObjectCall :=
  | getObject (obj : string) (headers : Header)
  | headObject (obj : string) (headers : Header)
  | grepObject (obj search : string)
  | postObject (obj : string) (headers : Header)
  | deleteObject (obj : string) (headers : Header).

Section ObjectCalls.
(** [common.Urlencode], whether [http.NewRequest] accepts a target, the
    result of [conf.GetHashPrefixAndSuffix] and [ring.GetRing] (nil for an
    error). *)
Variable Urlencode : string → string.
Variable validURL : string → bool.
Variable GetHashPrefixAndSuffix : option (string * string).
Variable GetRing : string → string → string → Z → option Ring.

Definition newObjectClient (c : ProxyDirectClient) (account container : string)
    (cs : Caches) (rand : nat → nat) (sched : list SelectEvent)
  : proxyObjectClient * Caches :=
  let '(info, cs') := GetContainerInfo Urlencode validURL c account container cs rand sched in
  match info with
  | inr _ => (erroringObjectClient "Could not retrieve container information.", cs')
  | inl ci =>
      match GetHashPrefixAndSuffix with
      | None =>
          (erroringObjectClient "Could not retrieve hash path prefix and suffix.", cs')
      | Some (hashPathPrefix, hashPathSuffix) =>
          match GetRing "object" hashPathPrefix hashPathSuffix (StoragePolicyIndex ci) with
          | None =>
              (erroringObjectClient
                 ("Could not load object ring for policy "
                    +:+ Itoa (StoragePolicyIndex ci) +:+ "."), cs')
          | Some objectRing =>
              (standardObjectClient c account container (StoragePolicyIndex ci) objectRing,
               cs')
          end
      end
  end.

Definition objectPath (account container obj : string) : string :=
  Urlencode account +:+ "/" +:+ Urlencode container +:+ "/" +:+ Urlencode obj.

(** The request factory of a read call ([getObject], [headObject],
    [grepObject]) of the standard client. *)
Definition readRequest (account container : string) (policy : Z) (objectRing : Ring)
    (call : ObjectCall) (dev : Device) : option Request :=
  match call with
  | getObject obj headers =>
      let partition := GetPartition objectRing account container obj in
      (λ req, setHeader req "X-Backend-Storage-Policy-Index" (Itoa policy))
        <$> newRequest validURL "GET"
              (deviceURL dev partition (objectPath account container obj)) headers
  | headObject obj headers =>
      let partition := GetPartition objectRing account container obj in
      (λ req, setHeader req "X-Backend-Storage-Policy-Index" (Itoa policy))
        <$> newRequest validURL "HEAD"
              (deviceURL dev partition (objectPath account container obj)) headers
  | grepObject obj search =>
      let partition := GetPartition objectRing account container obj in
      (λ req, setHeader req "X-Backend-Storage-Policy-Index" (Itoa policy))
        <$> newRequest validURL "GREP"
              (deviceURL dev partition (objectPath account container obj)
                 +:+ "?e=" +:+ Urlencode search) ∅
  | _ => None
  end.

(** The request factory of a write call ([postObject], [deleteObject]). *)
Definition writeRequest (c : ProxyDirectClient) (account container : string)
    (policy : Z) (objectRing : Ring) (call : ObjectCall) (i : nat) (dev : Device) : Built :=
  let containerPartition := GetPartition (ContainerRing c) account container EmptyString in
  let containerDevices := GetNodes (ContainerRing c) containerPartition in
  let objectReplicaCount := ReplicaCount objectRing in
  let finish (req : Request) : Built :=
    let req := setHeader req "X-Backend-Storage-Policy-Index" (Itoa policy) in
    let req := setHeader req "X-Container-Partition" (Itoa containerPartition) in
    match addUpdateHeaders "X-Container" (ReqHeader req) containerDevices i
            objectReplicaCount with
    | None => Hangs
    | Some h => Req {| Method := Method req; URL := URL req; ReqHeader := h |}
    end in
  match call with
  | postObject obj headers =>
      let partition := GetPartition objectRing account container obj in
      match newRequest validURL "POST"
              (deviceURL dev partition (objectPath account container obj)) headers with
      | None => BuildError
      | Some req => finish req
      end
  | deleteObject obj headers =>
      let partition := GetPartition objectRing account container obj in
      match newRequest validURL "DELETE"
              (deviceURL dev partition (objectPath account container obj)) headers with
      | None => BuildError
      | Some req =>
          finish (if is_empty (Header_Get (ReqHeader req) "Content-Type")
                  then setHeader req "Content-Type" "application/octet-stream"
                  else req)
      end
  | _ => BuildError
  end.

Definition objectOf (call : ObjectCall) : string :=
  match call with
  | getObject obj _ | headObject obj _ | grepObject obj _
  | postObject obj _ | deleteObject obj _ => obj
  end.

Definition isRead (call : ObjectCall) : bool :=
  match call with
  | getObject _ _ | headObject _ _ | grepObject _ _ => true
  | _ => false
  end.

(** A call on an object client: the erroring client answers the stub of a
    500 with its body; the standard client dispatches over the object ring,
    reads by first good response, writes by quorum. *)
Definition callObject (oc : proxyObjectClient) (call : ObjectCall) (w : World)
  : result Response :=
  match oc with
  | erroringObjectClient body => Ok (ResponseStub StatusInternalServerError body)
  | standardObjectClient c account container policy objectRing =>
      let partition := GetPartition objectRing account container (objectOf call) in
      if isRead call then
        Ok (responseOf (firstResponse objectRing partition
                          (readRequest account container policy objectRing call)
                          (rand w) (reads w)).1)
      else
        runPlan (Dispatch objectRing partition
                   (writeRequest c account container policy objectRing call))
          (writes w)
  end.

(** An object call of the facade: the object client is built first, with
    the world [wInfo] for the container HEAD it may need, then called. *)
Definition facadeObjectCall (c : proxyClient) (account container : string)
    (call : ObjectCall) (wInfo w : World) : result Response * proxyClient :=
  let '(oc, cs) :=
    newObjectClient (pdc c) account container (caches c) (rand wInfo) (reads wInfo) in
  (callObject oc call w, {| pdc := pdc c; caches := cs |}).

End ObjectCalls.

(** A facade whose local map holds the sentinel for a container. *)
Definition sentinelFacade : proxyClient :=
  {| pdc := goldClient;
     caches := {| mc := None;
                  lc := Some {[ "container/AUTH_test/photos" := NilContainerInfo ]} |} |}.

(** Caller headers stored under names in lower case, and a device. *)
Definition lowerCaseHeaders : Header :=
  {[ "content-type" := ["image/jpeg"]; "Content-Type" := ["image/png"; "image/gif"] ]}.

Definition objectDevice : Device :=
  {| Ip := "10.0.0.9"; Port := 6000; DeviceName := "sdz" |}.

Definition quietWorld : World := {| rand := λ _, 0%nat; reads := []; writes := [] |}.

End Objects.

(** ** The account-bound client ([directClient]) *)

Module Direct.
Import GoStrings Http Ring Backend Quorum FirstResponse Client Facade.

Record directClient := mkDirectClient {
  pc : proxyClient;
  account : string
}.

(** What a listing call hands back: the decoded records (nil or a list),
    the response, and the response received from the facade as the call
    leaves it. *)
Record Listing (A : Type) := mkListing {
  records : option (list A);
  response : Response;
  backend : Response
}.
Arguments mkListing {A} _ _ _.
Arguments records {A} _.
Arguments response {A} _.
Arguments backend {A} _.

(** The option map the listing calls build. *)
Definition listingOptions (marker endMarker : string) (limit : Z)
    (prefix delimiter : string) (reverse : bool) : gmap string string :=
  let options : gmap string string :=
    <["delimiter" := delimiter]> (<["prefix" := prefix]> (<["end_marker" := endMarker]>
      (<["marker" := marker]> (<["format" := "json"]> ∅)))) in
  let options := if limit =? 0 then options else <["limit" := Itoa limit]> options in
  if reverse then <["reverse" := "true"]> options else options.

Section Listings.
Variable Urlencode : string → string.
Variable QueryEscape : string → string.
Variable validURL : string → bool.
(** [common.Map2Headers]. *)
Variable Map2Headers : gmap string string → Header.
(** The record types and [json.NewDecoder(body).Decode] at each of them:
    an error text, or the decoded slice (nil for the JSON value null). *)
Variable ContainerRecord ObjectRecord : Type.
Variable decodeContainerRecords : string → string + option (list ContainerRecord).
Variable decodeObjectRecords : string → string + option (list ObjectRecord).

(** The part the two listing calls share, from the response on. *)
Definition decodeListing {A : Type} (decode : string → string + option (list A))
    (resp : Response) : Listing A :=
  if negb (StatusCode resp ÷ 100 =? 2)
  then {| records := None; response := resp; backend := resp |}
  else
    match decode (Body resp) with
    | inl err =>
        {| records := None;
           response := ResponseStub StatusInternalServerError err;
           backend := Close resp |}
    | inr listing =>
        {| records := listing; response := Close resp; backend := Close resp |}
    end.

Definition GetAccount (c : directClient) (marker endMarker : string) (limit : Z)
    (prefix delimiter : string) (reverse : bool) (headers : gmap string string)
    (w : World) : Listing ContainerRecord :=
  let options := listingOptions marker endMarker limit prefix delimiter reverse in
  decodeListing decodeContainerRecords
    (Facade.GetAccount Urlencode QueryEscape validURL (pc c) (account c) options
       (Map2Headers headers) w).

Definition GetContainer (c : directClient) (container : string)
    (marker endMarker : string) (limit : Z)
    (prefix delimiter : string) (reverse : bool) (headers : gmap string string)
    (w : World) : Listing ObjectRecord :=
  let options := listingOptions marker endMarker limit prefix delimiter reverse in
  decodeListing decodeObjectRecords
    (Facade.GetContainer Urlencode QueryEscape validURL (pc c) (account c) container
       options (Map2Headers headers) w).

End Listings.

(** A 200 response whose body is not a JSON list, a world in which it
    arrives first, and a decoder that rejects it. *)
Definition brokenListing : Response :=
  {| StatusCode := 200; RespHeader := ∅; Body := "<html>"; BodyClosed := false |}.

Definition brokenWorld : World :=
  {| rand := λ _, 0%nat; reads := [Received (Some brokenListing)]; writes := [] |}.

Definition rejectHtml (A : Type) : string → string + option (list A) :=
  λ body, if String.eqb body "<html>"
          then inl "invalid character '<' looking for beginning of value"
          else inr None.

Definition goldDirect : directClient := {| pc := goldFacade; account := "AUTH_test" |}.

End Direct.

(** * Properties *)

Import GoStrings Http Ring Backend.

Local Open Scope list_scope.

(** ** The S3 middleware *)

Section S3AuthFacts.
Import S3Auth.

Lemma last_index_from_absent (c : ascii) (s : string) :
  ∀ i found, ¬ In c (list_ascii_of_string s) → last_index_from i s c found = found.
Proof.
  induction s as [|a s IH]; intros i found Hnot; simpl in *; [done|].
  destruct (Ascii.eqb_spec a c) as [->|Hne].
  - exfalso. apply Hnot. by left.
  - apply IH. intros Hin. apply Hnot. by right.
Qed.

Lemma LastIndex_absent (c : ascii) (s : string) :
  ¬ In c (list_ascii_of_string s) → LastIndex s c = -1.
Proof. apply last_index_from_absent. Qed.

Lemma is_empty_false (s : string) : s ≠ EmptyString → is_empty s = false.
Proof. by destruct s. Qed.

Lemma is_empty_true (s : string) : is_empty s = true → s = EmptyString.
Proof. by destruct s. Qed.

(** C3. For the GET request on /bucket/key with the headers Date,
    x-amz-acl and X-Amz-Meta-Foo of the scenario and the raw query
    acl&partNumber=2&foo=bar, the string to sign is exactly the expected
    one, whatever credential the Authorization header carries; the x-amz
    names are sorted as stored and written in lower case; the token
    partNumber=2 is not a key of the allowlist although partNumber is; and a
    call of the handler with a well-formed credential stashes that string. *)
Theorem s3_scenario_string_to_sign :
  ∀ authorization : string,
    stringToSign (signedScenario authorization) = expectedStringToSign
    ∧ stringToSign scenarioRequest = expectedStringToSign
    ∧ amzKeys (ReqHeader (signedScenario authorization)) = ["X-Amz-Acl"; "X-Amz-Meta-Foo"]
    ∧ map ToLower (amzKeys (ReqHeader (signedScenario authorization)))
      = ["x-amz-acl"; "x-amz-meta-foo"]
    ∧ signableQuery (RawQuery scenarioRequest) = "?acl"
    ∧ S3Subresources "partNumber" = true
    ∧ S3Subresources "partNumber=2" = false
    ∧ ServeHTTP emptyContext (signedScenario "AWS key:sig")
      = {| ctx_after :=
             {| Authorize := None;
                S3Auth := Some {| Key := "key"; Signature := "sig";
                                  StringToSign := expectedStringToSign;
                                  Account := EmptyString |} |};
           next_calls := [S3WrappedWriter] |}.
Proof.
  intros authorization. repeat split; vm_compute; reflexivity.
Qed.

(** The sort is on the names as the header map stores them: a map holding
    the two names in the spelling x-amz-acl and X-Amz-Meta-Foo would have
    them signed in the other order. *)
Remark amzKeys_sorts_stored_names :
  amzKeys (<["x-amz-acl" := ["public-read"]]> (<["X-Amz-Meta-Foo" := ["bar"]]> ∅))
  = ["X-Amz-Meta-Foo"; "x-amz-acl"].
Proof. vm_compute. reflexivity. Qed.

(** C8, as stated, fails: a request whose Authorization header is empty has
    no colon after stripping, and the handler passes it on without
    installing any authorizer. *)
Lemma empty_authorization_not_denied :
  noColon (strippedAuthorization emptyAuthorizationRequest)
  ∧ ¬ deniedDownstream emptyContext (ServeHTTP emptyContext emptyAuthorizationRequest).
Proof.
  split.
  - vm_compute. tauto.
  - intros [[f [Hf _]] _]. vm_compute in Hf. discriminate.
Qed.

(** C8, amended. For every request whose Authorization header is not empty
    and, after stripping the prefix "AWS ", contains no colon, the handler
    installs a deferred authorizer that always returns (false, 403),
    forwards the request downstream once with the writer it received, and
    leaves the stashed S3AuthInfo as it was. *)
Theorem malformed_authorization_denied (ctx : ProxyContext) (request : Request) :
  Header_Get (ReqHeader request) "Authorization" ≠ EmptyString →
  noColon (strippedAuthorization request) →
  deniedDownstream ctx (ServeHTTP ctx request).
Proof.
  intros Hne Hno. unfold ServeHTTP, parseAuth.
  rewrite (is_empty_false _ Hne). cbn zeta.
  rewrite (is_empty_false _ Hne).
  fold (strippedAuthorization request).
  rewrite (LastIndex_absent _ _ Hno). cbn.
  repeat split; eauto.
Qed.

Lemma malformed_authorization_denied_witness :
  (Header_Get (ReqHeader nocolonRequest) "Authorization" ≠ EmptyString
   ∧ noColon (strippedAuthorization nocolonRequest))
  ∧ deniedDownstream emptyContext (ServeHTTP emptyContext nocolonRequest).
Proof.
  assert (H1 : Header_Get (ReqHeader nocolonRequest) "Authorization" ≠ EmptyString)
    by (vm_compute; discriminate).
  assert (H2 : noColon (strippedAuthorization nocolonRequest)).
  { vm_compute. intros H. repeat (destruct H as [H|H]; [discriminate H|]). exact H. }
  exact (conj (conj H1 H2) (malformed_authorization_denied emptyContext nocolonRequest H1 H2)).
Defined.

End S3AuthFacts.

(** ** The quorum dispatcher *)

Section QuorumFacts.
Import Quorum.

Lemma quot100_usable (s : Z) : 0 ≤ s < 500 → 0 ≤ s ÷ 100 < 5.
Proof. intros Hs. Z.to_euclidean_division_equations. lia. Qed.

Lemma quot100_bad (s : Z) : ¬ (0 ≤ s ÷ 100 < 6) → s ≤ -100 ∨ 600 ≤ s.
Proof. intros Hk. Z.to_euclidean_division_equations. lia. Qed.

Lemma usableInClass_snoc (k : Z) (rs : list Response) (x : Response) :
  usableInClass k (rs ++ [x])
  = usableInClass k rs
    + (if decide (0 ≤ StatusCode x < 500 ∧ statusClass x = k) then 1 else 0).
Proof.
  unfold usableInClass. rewrite filter_app, length_app, filter_cons, filter_nil.
  case_decide; simpl; lia.
Qed.

Lemma usableInClass_mono (k : Z) (rs more : list Response) :
  usableInClass k rs ≤ usableInClass k (rs ++ more).
Proof. unfold usableInClass. rewrite filter_app, length_app. lia. Qed.

Lemma index_tallied (qr : stdQuorumer) (k : Z) :
  tallied qr → 0 ≤ k < 6 →
  index (responseClassCounts qr) k = Ok (usableInClass k (responses qr)).
Proof.
  intros Ht Hk. unfold index.
  destruct (Z.ltb_spec k 0); [lia|]. by rewrite (Ht k Hk).
Qed.

Lemma index_panic (qr : stdQuorumer) (x : Response) :
  tallied qr → index (responseClassCounts qr) (statusClass x) = Panic → badStatus x.
Proof.
  intros Ht Hp. apply quot100_bad. intros Hk.
  fold (statusClass x) in Hk. by rewrite (index_tallied qr _ Ht Hk) in Hp.
Qed.

Lemma index_ok (qr : stdQuorumer) (k c : Z) :
  tallied qr → sixClasses qr → index (responseClassCounts qr) k = Ok c →
  0 ≤ k < 6 ∧ c = usableInClass k (responses qr).
Proof.
  intros Ht H6 Hi.
  assert (Hk : 0 ≤ k < 6).
  { unfold index in Hi. destruct (Z.ltb_spec k 0); [done|].
    destruct (responseClassCounts qr !! Z.to_nat k) eqn:Hl; [|done].
    apply lookup_lt_Some in Hl. rewrite H6 in Hl. lia. }
  rewrite (index_tallied qr k Ht Hk) in Hi. split; [done|congruence].
Qed.

(** [addResponse] returns on a tallied quorumer, and keeps it tallied. *)
Lemma addResponse_tallied (qr : stdQuorumer) (x : Response) :
  tallied qr → sixClasses qr →
  ∃ qr', addResponse qr x = Ok qr'
         ∧ tallied qr' ∧ sixClasses qr'
         ∧ responses qr' = responses qr ++ [x]
         ∧ q qr' = q qr ∧ workers qr' = workers qr.
Proof.
  intros Ht H6. unfold addResponse.
  destruct ((500 <=? StatusCode x) || (StatusCode x <? 0)) eqn:Hskip.
  - eexists. split; [done|]. repeat split; try done.
    intros k Hk. cbn. rewrite usableInClass_snoc, (Ht k Hk).
    case_decide; [|f_equal; lia].
    apply orb_true_iff in Hskip as [?%Z.leb_le|?%Z.ltb_lt]; lia.
  - apply orb_false_iff in Hskip as [H5%Z.leb_gt H0%Z.ltb_ge].
    assert (Hc : 0 ≤ statusClass x < 5) by (apply quot100_usable; lia).
    rewrite (index_tallied qr _ Ht) by lia.
    eexists. split; [done|]. repeat split; try done.
    + intros k Hk. cbn. rewrite usableInClass_snoc.
      destruct (decide (statusClass x = k)) as [<-|Hne].
      * rewrite list_lookup_insert_eq by (rewrite H6; lia).
        rewrite decide_True by (split; [lia|done]). done.
      * rewrite list_lookup_insert_ne by lia.
        rewrite decide_False by tauto. rewrite (Ht k Hk). f_equal. lia.
    + unfold sixClasses. cbn. by rewrite length_insert.
Qed.

Lemma findQuorum_found (counts : list Z) (qv : Z) (rs : list Response) (x : Response) :
  findQuorum counts qv rs = Ok (Some x) →
  x ∈ rs ∧ ∃ c, index counts (statusClass x) = Ok c ∧ qv ≤ c.
Proof.
  induction rs as [|y rs IH]; simpl; [done|].
  destruct (index counts (statusClass y)) as [c|] eqn:Hi; [|done].
  destruct (Z.leb_spec qv c) as [Hle|Hgt].
  - intros [= <-]. split; [left|eauto].
  - intros Hf. destruct (IH Hf) as [Hin Hc]. split; [by right|done].
Qed.

Lemma findQuorum_panic (counts : list Z) (qv : Z) (rs : list Response) :
  findQuorum counts qv rs = Panic →
  ∃ x, x ∈ rs ∧ index counts (statusClass x) = Panic.
Proof.
  induction rs as [|y rs IH]; simpl; [done|].
  destruct (index counts (statusClass y)) as [c|] eqn:Hi.
  - destruct (qv <=? c); [done|].
    intros Hf. destruct (IH Hf) as (x & Hin & Hx). exists x. split; [by right|done].
  - intros _. exists y. split; [left|done].
Qed.

(** The grace loop returns the response it was given, on a quorumer that
    only grew. *)
Lemma finalize_returns (x : Response) (sched : Schedule) :
  ∀ qr, tallied qr → sixClasses qr →
    ∃ qr' more, finalize x sched qr = Ok (x, qr')
      ∧ tallied qr' ∧ sixClasses qr' ∧ q qr' = q qr
      ∧ responses qr' = responses qr ++ more
      ∧ ∀ y, y ∈ more → Some y ∈ sched.
Proof.
  induction sched as [|ev sched IH]; intros qr Ht H6.
  - exists qr, []. simpl. rewrite app_nil_r.
    destruct (_ <? _)%nat; repeat split; try done; intros y Hy; by apply elem_of_nil in Hy.
  - simpl. destruct (_ <? _)%nat.
    + destruct ev as [resp|].
      * destruct (addResponse_tallied qr resp Ht H6) as (qr1 & -> & Ht1 & H61 & Hr1 & Hq1 & _).
        destruct (IH qr1 Ht1 H61) as (qr' & more & -> & Ht' & H6' & Hq' & Hr' & Hm).
        exists qr', (resp :: more). repeat split; try done.
        -- congruence.
        -- rewrite Hr', Hr1, <- app_assoc. done.
        -- intros y [->|Hy]%elem_of_cons; [left|right; auto].
      * exists qr, []. rewrite app_nil_r.
        repeat split; try done; intros y Hy; by apply elem_of_nil in Hy.
    + exists qr, []. rewrite app_nil_r.
      repeat split; try done; intros y Hy; by apply elem_of_nil in Hy.
Qed.

Lemma getResponseLoop_decided (iters : nat) :
  ∀ qr sched, tallied qr → sixClasses qr →
    match getResponseLoop iters qr sched with
    | Ok (resp, qr') => decided (q qr) sched (responses qr) resp qr'
    | Panic => ∃ x, delivered (responses qr) sched x ∧ badStatus x
    end.
Proof.
  induction iters as [|iters IH]; intros qr sched Ht H6.
  { simpl. repeat split; [done| |by right]. intros y Hy. by left. }
  simpl.
  destruct (findQuorum _ _ _) as [[x|]|] eqn:Hf.
  - apply findQuorum_found in Hf as (Hin & c & Hi & Hle).
    apply (index_ok qr _ _ Ht H6) in Hi as [Hk ->].
    destruct (finalize_returns x sched qr Ht H6)
      as (qr' & more & -> & Ht' & H6' & Hq' & Hr' & Hm).
    repeat split; [done| |].
    + intros y Hy. rewrite Hr' in Hy.
      apply elem_of_app in Hy as [Hy|Hy]; [by left|right; auto].
    + left. rewrite Hr'. repeat split; try lia.
      * apply elem_of_app. by left.
      * pose proof (usableInClass_mono (statusClass x) (responses qr) more). lia.
  - destruct (negb _).
    { repeat split; [done| |by right]. intros y Hy. by left. }
    destruct (0 <? _).
    + destruct sched as [|[response|] sched].
      * repeat split; [done| |by right]. intros y Hy. by left.
      * destruct (addResponse_tallied qr response Ht H6)
          as (qr1 & -> & Ht1 & H61 & Hr1 & Hq1 & _).
        specialize (IH qr1 sched Ht1 H61).
        destruct (getResponseLoop iters qr1 sched) as [[resp qr']|].
        -- destruct IH as (Ht' & Hd & Hres). rewrite Hq1 in Hres.
           repeat split; [done| |done].
           intros y Hy. destruct (Hd y Hy) as [Hb|Hs].
           ++ rewrite Hr1 in Hb. apply elem_of_app in Hb as [Hb|Hb]; [by left|].
              apply list_elem_of_singleton in Hb as ->. right. left.
           ++ right. by right.
        -- destruct IH as (x & [Hx|Hx] & Hbad); exists x; (split; [|done]).
           ++ rewrite Hr1 in Hx. apply elem_of_app in Hx as [Hx|Hx]; [by left|].
              apply list_elem_of_singleton in Hx as ->. right. left.
           ++ right. by right.
      * repeat split; [done| |by right]. intros y Hy. by left.
    + apply IH; done.
  - apply findQuorum_panic in Hf as (x & Hin & Hp).
    exists x. split; [by left|]. by apply (index_panic qr).
Qed.

(** Three replicas, two 201 answers and then the grace timer: the first 201
    is returned with two responses tallied in class 2. *)
Example quorum_write_scenario :
  quorumResponse ring3 7 [Some (answered 201); Some (answered 201); None]
  = Ok (answered 201,
        {| q := 2; responses := [answered 201; answered 201];
           responseClassCounts := [0; 0; 2; 0; 0; 0];
           replicaCount := 3; workers := 3 |}).
Proof. vm_compute. reflexivity. Qed.

(** Two 404 answers out of three give the first 404. *)
Example quorum_not_found_scenario :
  match quorumResponse ring3 7 [Some (answered 404); Some (answered 404); Some (answered 500)] with
  | Ok (resp, qr) => resp = answered 404 ∧ responseClassCounts qr = [0; 0; 0; 0; 2; 0]
  | Panic => False
  end.
Proof. vm_compute. done. Qed.

(** The loop makes one receive per worker and looks for a quorum before
    each receive only: a class completed by the last response is tallied
    but the answer is the synthetic 503. *)
Example quorum_completed_by_last_response :
  quorumResponse ring3 7 [Some (answered 201); Some (answered 404); Some (answered 201)]
  = Ok (unavailable,
        {| q := 2; responses := [answered 201; answered 404; answered 201];
           responseClassCounts := [0; 0; 2; 0; 1; 0];
           replicaCount := 3; workers := 3 |}).
Proof. vm_compute. reflexivity. Qed.

(** A delivered status of 600 makes the scan index the tally out of range. *)
Example quorum_status_600_panics :
  quorumResponse ring3 7 [Some (answered 600); Some (answered 201)] = Panic.
Proof. vm_compute. reflexivity. Qed.

Lemma newQuorumer_tallied (r : Ring) (partition : Z) :
  tallied (newQuorumer r partition) ∧ sixClasses (newQuorumer r partition).
Proof.
  split; [|done]. intros k Hk.
  change (replicate 6 0 !! Z.to_nat k = Some 0).
  apply lookup_replicate_2. lia.
Qed.

Lemma ceilHalf_is_ceiling (n : nat) :
  Z.of_nat n ≤ 2 * ceilHalf n < Z.of_nat n + 2.
Proof. unfold ceilHalf. Z.to_euclidean_division_equations. lia. Qed.


End QuorumFacts.

(** ** Trimming *)

Section TrimFacts.

Lemma append_cons (a : ascii) (s t : string) : String a s +:+ t = String a (s +:+ t).
Proof. reflexivity. Qed.

Lemma append_empty (t : string) : EmptyString +:+ t = t.
Proof. reflexivity. Qed.

Lemma trim_left_spec (s : string) (c : ascii) :
  ∃ n, s = repeat_byte c n +:+ trim_left s c ∧ first_byte (trim_left s c) ≠ Some c.
Proof.
  induction s as [|a s (n & Hs & Hf)].
  - by exists 0%nat.
  - cbn [trim_left]. destruct (Ascii.eqb_spec a c) as [->|Hne].
    + exists (S n). split; [|done].
      cbn [repeat_byte]. rewrite append_cons. by f_equal.
    + exists 0%nat. split; [done|]. cbn [first_byte]. congruence.
Qed.

Lemma TrimRight_spec (s : string) (c : ascii) :
  ∃ m, s = TrimRight s c +:+ repeat_byte c m
       ∧ last_byte (TrimRight s c) ≠ Some c
       ∧ (first_byte s ≠ Some c → first_byte (TrimRight s c) ≠ Some c).
Proof.
  induction s as [|a s (m & Hs & Hl & Hf)].
  - by exists 0%nat.
  - cbn [TrimRight]. destruct (TrimRight s c) as [|b t] eqn:Ht.
    + rewrite append_empty in Hs.
      destruct (Ascii.eqb_spec a c) as [->|Hne].
      * exists (S m). split; [|done]. rewrite append_empty. cbn [repeat_byte]. by f_equal.
      * exists m. rewrite append_cons, append_empty. cbn [first_byte last_byte].
        split; [by f_equal|]. split; congruence.
    + exists m. rewrite append_cons. cbn [first_byte].
      split; [by f_equal|]. split; [|done].
      change (last_byte (String a (String b t))) with (last_byte (String b t)). done.
Qed.

(** [Trim s c] is [s] without its leading and trailing bytes [c]. *)
Lemma Trim_spec (s : string) (c : ascii) :
  ∃ n m, s = repeat_byte c n +:+ Trim s c +:+ repeat_byte c m
         ∧ first_byte (Trim s c) ≠ Some c
         ∧ last_byte (Trim s c) ≠ Some c.
Proof.
  destruct (trim_left_spec s c) as (n & Hs & Hf).
  destruct (TrimRight_spec (trim_left s c) c) as (m & Ht & Hl & Hfr).
  exists n, m. unfold Trim. split; [|split; auto].
  by rewrite <- Ht.
Qed.

End TrimFacts.

(** ** The first-good-response dispatcher *)

Section FirstResponseFacts.
Import FirstResponse.

Lemma shuffle_Permutation (rand : nat → nat) (devs : list Device) :
  shuffle rand devs ≡ₚ devs.
Proof.
  unfold shuffle. generalize (seq 0 (length devs)) as idx.
  intros idx. revert devs. induction idx as [|i idx IH]; intros devs; [done|].
  simpl. rewrite IH. unfold swap.
  destruct (devs !! i) as [di|] eqn:Hi; [|done].
  destruct (devs !! Intn rand i) as [dj|] eqn:Hj; [|done].
  by apply Permutation_insert_swap.
Qed.

Lemma isTerminal_spec (resp : Response) :
  isTerminal resp = true
  ↔ (200 ≤ StatusCode resp < 300 ∨ StatusCode resp = 304
     ∨ StatusCode resp = 412 ∨ StatusCode resp = 416).
Proof.
  unfold isTerminal, StatusPreconditionFailed, StatusNotModified,
    StatusRequestedRangeNotSatisfiable.
  rewrite !orb_true_iff, !Z.eqb_eq.
  split; intros H; Z.to_euclidean_division_equations; lia.
Qed.

Lemma normalize_status (resp : Response) :
  StatusCode (normalize resp) = StatusCode resp.
Proof. done. Qed.

Lemma isTerminal_normalize_eq (resp resp' : Response) :
  normalize resp = normalize resp' → isTerminal resp = isTerminal resp'.
Proof.
  intros H. unfold isTerminal.
  by rewrite <- (normalize_status resp), <- (normalize_status resp'), H.
Qed.

Lemma internalErrorCount_cons (a : Attempt) (log : list Attempt) :
  internalErrorCount (a :: log) = internalErrorCount [a] + internalErrorCount log.
Proof.
  unfold internalErrorCount. rewrite !filter_cons, filter_nil.
  case_decide; simpl; lia.
Qed.

Lemma received_cons (a : Attempt) (log : list Attempt) :
  received (a :: log) = received [a] ++ received log.
Proof. unfold received. apply (omap_app _ [a] log). Qed.

Lemma loopSpec_logged (replicas todo : nat) (ie ie' : Z) (order : list Device)
    (a : Attempt) (res : Outcome * list Attempt) :
  Forall nonTerminal (received [a]) →
  ie' = ie + internalErrorCount [a] →
  loopSpec replicas todo ie' order res →
  loopSpec replicas (S todo) ie (attemptDevice a :: order) (logged a res).
Proof.
  intros Ha -> (Hdev & Hlen & Hout). unfold logged, loopSpec. cbn [fst snd].
  split; [|split].
  - cbn [map length take]. by rewrite Hdev.
  - cbn [length]. lia.
  - destruct Hout as [(resp & pre & dev & req & Ho & Ht & Hl & Hpre)
                     |(Ho & Hrec & Hall)].
    + left. exists resp, (a :: pre), dev, req. split; [done|]. split; [done|]. split.
      * by rewrite Hl.
      * rewrite received_cons. by apply Forall_app.
    + right. split; [|split].
      * rewrite Ho, (internalErrorCount_cons a res.2). f_equal. lia.
      * rewrite received_cons. by apply Forall_app.
      * cbn [map take]. by rewrite Hall.
Qed.

Lemma loopSpec_stop (replicas todo : nat) (ie : Z) (order : list Device) :
  take todo order = [] →
  loopSpec replicas todo ie order (finish replicas ie, []).
Proof.
  intros Htake. unfold loopSpec. cbn [fst snd length map take].
  split; [done|]. split; [lia|]. right.
  split; [|split; [constructor|by rewrite Htake]].
  f_equal. unfold internalErrorCount. cbn. lia.
Qed.

Lemma loopSpec_return (replicas todo : nat) (ie : Z) (order : list Device)
    (dev : Device) (req : Request) (resp : Response) :
  isTerminal resp = true →
  loopSpec replicas (S todo) ie (dev :: order)
    (Representative (normalize resp), [Launched dev req (Received (Some resp))]).
Proof.
  intros Ht. unfold loopSpec. cbn [fst snd length map take attemptDevice].
  split; [done|]. split; [lia|]. left. exists resp, [], dev, req.
  split; [done|]. split; [done|]. split; [done|constructor].
Qed.

Lemma attempts_loopSpec (replicas : nat) (f : Device → option Request)
    (devs : list Device) (todo : nat) :
  ∀ rc ie more sched,
    loopSpec replicas todo ie (drop rc devs ++ more)
      (attempts replicas f todo rc ie devs more sched).
Proof.
  induction todo as [|todo IH]; intros rc ie more sched.
  { by apply loopSpec_stop. }
  simpl.
  destruct (Nat.ltb_spec rc (length devs)) as [Hlt|Hge].
  - destruct (lookup_lt_is_Some_2 devs rc Hlt) as [dev Hdev].
    rewrite Hdev, (drop_S _ _ _ Hdev). simpl.
    destruct (f dev) as [req|].
    + destruct sched as [|[[resp|]|] sched].
      * apply (loopSpec_logged _ _ _ ie _ (Launched dev req TimedOut));
          [constructor|unfold internalErrorCount; simpl; lia|apply IH].
      * destruct (isTerminal resp) eqn:Ht.
        -- by apply loopSpec_return.
        -- apply (loopSpec_logged _ _ _ (if StatusCode resp ÷ 100 =? 5 then ie + 1 else ie)
                    _ (Launched dev req (Received (Some resp))));
             [by repeat constructor| |apply IH].
           unfold internalErrorCount. rewrite filter_cons, filter_nil.
           cbn [isInternalError].
           destruct (StatusCode resp ÷ 100 =? 5); case_decide; try done; cbn; lia.
      * apply (loopSpec_logged _ _ _ (ie + 1) _ (Launched dev req (Received None)));
          [constructor|unfold internalErrorCount; simpl; lia|apply IH].
      * apply (loopSpec_logged _ _ _ ie _ (Launched dev req TimedOut));
          [constructor|unfold internalErrorCount; simpl; lia|apply IH].
    + apply (loopSpec_logged _ _ _ (ie + 1) _ (BuildFailed dev));
        [constructor|unfold internalErrorCount; simpl; lia|apply IH].
  - rewrite (drop_ge devs rc) by lia. simpl.
    destruct more as [|dev more]; [by apply loopSpec_stop|].
    assert (Hnext : ∀ m, drop (S rc) devs ++ m = m)
      by (intros m; by rewrite (drop_ge devs (S rc)) by lia).
    destruct (f dev) as [req|].
    + destruct sched as [|[[resp|]|] sched].
      * apply (loopSpec_logged _ _ _ ie _ (Launched dev req TimedOut));
          [constructor|unfold internalErrorCount; simpl; lia|].
        specialize (IH (S rc)). setoid_rewrite Hnext in IH. apply IH.
      * destruct (isTerminal resp) eqn:Ht.
        -- by apply loopSpec_return.
        -- apply (loopSpec_logged _ _ _ (if StatusCode resp ÷ 100 =? 5 then ie + 1 else ie)
                    _ (Launched dev req (Received (Some resp))));
             [by repeat constructor|
              |specialize (IH (S rc)); setoid_rewrite Hnext in IH; apply IH].
           unfold internalErrorCount. rewrite filter_cons, filter_nil.
           cbn [isInternalError].
           destruct (StatusCode resp ÷ 100 =? 5); case_decide; try done; cbn; lia.
      * apply (loopSpec_logged _ _ _ (ie + 1) _ (Launched dev req (Received None)));
          [constructor|unfold internalErrorCount; simpl; lia|].
        specialize (IH (S rc)). setoid_rewrite Hnext in IH. apply IH.
      * apply (loopSpec_logged _ _ _ ie _ (Launched dev req TimedOut));
          [constructor|unfold internalErrorCount; simpl; lia|].
        specialize (IH (S rc)). setoid_rewrite Hnext in IH. apply IH.
    + apply (loopSpec_logged _ _ _ (ie + 1) _ (BuildFailed dev));
        [constructor|unfold internalErrorCount; simpl; lia|].
      specialize (IH (S rc)). setoid_rewrite Hnext in IH. apply IH.
Qed.

Lemma firstResponse_loopSpec (r : Ring) (partition : Z)
    (f : Device → option Request) (rand : nat → nat) (sched : list SelectEvent) :
  loopSpec (ReplicaCount r) (ReplicaCount r + 2) 0
    (shuffle rand (GetNodes r partition) ++ GetMoreNodes r partition)
    (firstResponse r partition f rand sched).
Proof.
  unfold firstResponse.
  pose proof (attempts_loopSpec (ReplicaCount r) f (shuffle rand (GetNodes r partition))
                (ReplicaCount r + 2) 0 0 (GetMoreNodes r partition) sched) as H.
  by rewrite drop_0 in H.
Qed.

Lemma normalize_headers (resp : Response) :
  Header_Get (RespHeader (normalize resp)) "Accept-Ranges" = "bytes"
  ∧ (Header_Get (RespHeader resp) "Etag" ≠ EmptyString →
     Header_Get (RespHeader (normalize resp)) "Etag"
     = Trim (Header_Get (RespHeader resp) "Etag") dquote)
  ∧ (Header_Get (RespHeader resp) "Etag" = EmptyString →
     Header_Get (RespHeader (normalize resp)) "Etag" = EmptyString).
Proof.
  unfold normalize. cbn [RespHeader].
  assert (Hne : CanonicalMIMEHeaderKey "Accept-Ranges" ≠ CanonicalMIMEHeaderKey "Etag")
    by (vm_compute; discriminate).
  assert (Hetag : Header_Get (Header_Set (RespHeader resp) "Accept-Ranges" "bytes") "Etag"
                  = Header_Get (RespHeader resp) "Etag").
  { unfold Header_Get, Header_Set. by rewrite lookup_insert_ne. }
  rewrite Hetag.
  destruct (is_empty (Header_Get (RespHeader resp) "Etag")) eqn:He.
  - apply is_empty_true in He. rewrite Hetag. repeat split; try done.
    unfold Header_Get, Header_Set. by rewrite lookup_insert_eq.
  - repeat split.
    + unfold Header_Get, Header_Set.
      rewrite lookup_insert_ne by done. by rewrite lookup_insert_eq.
    + intros _. unfold Header_Get at 1. unfold Header_Set at 1.
      by rewrite lookup_insert_eq.
    + intros E. rewrite E in He. done.
Qed.



(** The Etag of the scenario response comes back as abc. *)
Example quoted_etag_is_unquoted :
  (firstResponse ring1 7 plainGet (λ _, 0%nat) [Received (Some quotedEtagResponse)]).1
  = Representative
      {| StatusCode := 200;
         RespHeader := <["Etag" := ["abc"]]> (<["Accept-Ranges" := ["bytes"]]> ∅);
         Body := EmptyString; BodyClosed := false |}.
Proof. vm_compute. reflexivity. Qed.



Lemma launched_length (log : list Attempt) : (length (launched log) ≤ length log)%nat.
Proof.
  induction log as [|a log IH]; [done|].
  unfold launched in *. rewrite (omap_app _ [a] log), length_app.
  destruct a; cbn in *; lia.
Qed.

(** C6. For every ring, partition and request factory, one first-good-
    response dispatch makes at most replica count + 2 attempts and issues
    at most as many backend requests; the devices it draws are, in order,
    those of the shuffled primaries (a permutation of the primaries)
    followed by those of the handoff iterator; and a dispatch that ends
    without a representative response has drawn the first replica count + 2
    of them, or all of them when the handoff iterator yields fewer. *)
Theorem first_response_request_budget (r : Ring) (partition : Z)
    (f : Device → option Request) (rand : nat → nat) (sched : list SelectEvent) :
  let res := firstResponse r partition f rand sched in
  let order := shuffle rand (GetNodes r partition) ++ GetMoreNodes r partition in
  (length (launched res.2) ≤ ReplicaCount r + 2)%nat
  ∧ (length res.2 ≤ ReplicaCount r + 2)%nat
  ∧ shuffle rand (GetNodes r partition) ≡ₚ GetNodes r partition
  ∧ map attemptDevice res.2 = take (length res.2) order
  ∧ ∀ status, res.1 = Synthetic status →
      map attemptDevice res.2 = take (ReplicaCount r + 2) order.
Proof.
  intros res order. subst res order.
  destruct (firstResponse_loopSpec r partition f rand sched) as (Hdev & Hlen & Hout).
  repeat split; try done.
  - pose proof (launched_length (firstResponse r partition f rand sched).2). lia.
  - apply shuffle_Permutation.
  - intros status Hs.
    destruct Hout as [(resp & pre & dev & req & Ho & _)|(_ & _ & Hall)]; [congruence|done].
Qed.

End FirstResponseFacts.

(** ** The RPC layer: container PUT *)

Section ClientFacts.
Import Quorum FirstResponse Client.

Lemma Header_Get_Set_ne (h : Header) (k k' v : string) :
  CanonicalMIMEHeaderKey k ≠ CanonicalMIMEHeaderKey k' →
  Header_Get (Header_Set h k v) k' = Header_Get h k'.
Proof. intros Hne. unfold Header_Get, Header_Set. by rewrite lookup_insert_ne. Qed.

Lemma Header_Get_Set_eq (h : Header) (k v : string) :
  Header_Get (Header_Set h k v) k = v.
Proof. unfold Header_Get, Header_Set. by rewrite lookup_insert_eq. Qed.

(** The striping loop ends when its step is positive. *)
Lemma stripe_terminates (devices : list Device) (replicas : nat) :
  (0 < replicas)%nat →
  ∀ fuel i host device,
    (length devices ≤ i + fuel)%nat →
    is_Some (stripe fuel devices i replicas host device).
Proof.
  intros Hpos. induction fuel as [|fuel IH]; intros i host device Hlen.
  - simpl. rewrite lookup_ge_None_2 by lia. done.
  - simpl. destruct (devices !! i); [|done]. apply IH. lia.
Qed.

(** [addUpdateHeaders] leaves every header but the two it sets. *)
Lemma addUpdateHeaders_other (h h' : Header) (devices : list Device)
    (i replicas : nat) (k : string) :
  addUpdateHeaders "X-Account" h devices i replicas = Some h' →
  CanonicalMIMEHeaderKey k ≠ "X-Account-Host" →
  CanonicalMIMEHeaderKey k ≠ "X-Account-Device" →
  Header_Get h' k = Header_Get h k.
Proof.
  unfold addUpdateHeaders. intros Hh Hhost Hdev.
  destruct (_ <? _)%nat; [|congruence].
  destruct (stripe _ _ _ _ _ _) as [[host device]|]; [|done].
  injection Hh as <-.
  rewrite !Header_Get_Set_ne; [done|by vm_compute..].
Qed.

Lemma addUpdateHeaders_terminates (h : Header) (devices : list Device)
    (i replicas : nat) :
  (0 < replicas)%nat → is_Some (addUpdateHeaders "X-Account" h devices i replicas).
Proof.
  intros Hpos. unfold addUpdateHeaders.
  destruct (_ <? _)%nat; [|done].
  destruct (stripe_terminates devices replicas Hpos (length devices) i
              EmptyString EmptyString ltac:(lia)) as [[host device] ->].
  done.
Qed.

(** What the request factory of a container PUT puts in the two policy
    headers. *)
Lemma putContainerRequest_policy_headers (Urlencode : string → string)
    (validURL : string → bool) (LoadPolicies : list Policy)
    (c : ProxyDirectClient) (account container : string) (headers : Header)
    (policyIndex : Z) (i : nat) (dev : Device) (req : Request) :
  putContainerRequest Urlencode validURL LoadPolicies c account container headers
    policyIndex i dev = Req req →
  Header_Get (ReqHeader req) "X-Backend-Storage-Policy-Index" = Itoa policyIndex
  ∧ Header_Get (ReqHeader req) "X-Backend-Storage-Policy-Default"
    = Itoa (PolicyList_Default (effectivePolicies LoadPolicies c)).
Proof.
  unfold putContainerRequest. intros Hreq.
  destruct (newRequest _ _ _ _) as [req0|]; [|done].
  destruct (addUpdateHeaders _ _ _ _ _) as [h|] eqn:Hadd; [|done].
  injection Hreq as <-. cbn [ReqHeader].
  split.
  - rewrite (addUpdateHeaders_other _ _ _ _ _ _ Hadd) by (by vm_compute).
    unfold setHeader. cbn [ReqHeader].
    rewrite !Header_Get_Set_ne by (by vm_compute).
    apply Header_Get_Set_eq.
  - rewrite (addUpdateHeaders_other _ _ _ _ _ _ Hadd) by (by vm_compute).
    unfold setHeader. cbn [ReqHeader].
    rewrite Header_Get_Set_ne by (by vm_compute).
    apply Header_Get_Set_eq.
Qed.

(** C2, as stated, fails: for the client whose default policy has index 0,
    a container PUT without X-Storage-Policy builds requests whose
    X-Backend-Storage-Policy-Index is -1. *)
Lemma put_container_index_is_not_default :
  ¬ policyIndexIsDefault noEscape anyURL [] goldClient "AUTH_test" "photos" ∅.
Proof.
  intros H.
  specialize (H eq_refl ring1 7
                (putContainerRequest noEscape anyURL [] goldClient "AUTH_test" "photos" ∅ (-1))
                0%nat device1).
  destruct (putContainerRequest noEscape anyURL [] goldClient "AUTH_test" "photos" ∅ (-1)
              0%nat device1) as [req| |] eqn:Hreq; [|by vm_compute in Hreq..].
  specialize (H req eq_refl eq_refl).
  destruct (putContainerRequest_policy_headers _ _ _ _ _ _ _ _ _ _ _ Hreq) as [Hidx _].
  rewrite Hidx in H. vm_compute in H. discriminate.
Qed.

(** C2, amended. For every PutContainer call whose headers give no
    X-Storage-Policy value, the call dispatches over the container ring,
    and every backend request its request factory builds carries
    X-Backend-Storage-Policy-Index equal to -1 and
    X-Backend-Storage-Policy-Default equal to the default policy's index;
    the factory does build a request whenever the replica count is positive
    and the target is accepted. *)
Theorem put_container_default_policy_headers (Urlencode : string → string)
    (validURL : string → bool) (LoadPolicies : list Policy)
    (c : ProxyDirectClient) (account container : string) (headers : Header) :
  Header_Get headers "X-Storage-Policy" = EmptyString →
  ∃ factory,
    PutContainerPlan Urlencode validURL LoadPolicies c account container headers
      = Dispatch (ContainerRing c)
          (GetPartition (ContainerRing c) account container EmptyString) factory
    ∧ (∀ i dev req, factory i dev = Req req →
         Header_Get (ReqHeader req) "X-Backend-Storage-Policy-Index" = "-1"
         ∧ Header_Get (ReqHeader req) "X-Backend-Storage-Policy-Default"
           = Itoa (PolicyList_Default (effectivePolicies LoadPolicies c)))
    ∧ (∀ i dev,
         (0 < ReplicaCount (ContainerRing c))%nat →
         validURL (deviceURL dev
                     (GetPartition (ContainerRing c) account container EmptyString)
                     (containerPath Urlencode account container)) = true →
         ∃ req, factory i dev = Req req).
Proof.
  intros Hnone. unfold PutContainerPlan. rewrite Hnone. cbn [is_empty].
  eexists. split; [reflexivity|]. split.
  - intros i dev req Hreq.
    apply putContainerRequest_policy_headers in Hreq. exact Hreq.
  - intros i dev Hpos Hurl. unfold putContainerRequest, newRequest.
    rewrite Hurl.
    match goal with
    | |- context [addUpdateHeaders ?p ?h ?d ?j ?n] =>
        destruct (addUpdateHeaders_terminates h d j n Hpos) as [h' ->]
    end.
    eauto.
Qed.

Lemma put_container_default_policy_headers_witness :
  Header_Get (∅ : Header) "X-Storage-Policy" = EmptyString
  ∧ ∃ factory,
      PutContainerPlan noEscape anyURL [] goldClient "AUTH_test" "photos" ∅
        = Dispatch ring1 7 factory
      ∧ (∀ i dev req, factory i dev = Req req →
           Header_Get (ReqHeader req) "X-Backend-Storage-Policy-Index" = "-1"
           ∧ Header_Get (ReqHeader req) "X-Backend-Storage-Policy-Default"
             = Itoa (PolicyList_Default (effectivePolicies [] goldClient)))
      ∧ (∀ i dev,
           (0 < ReplicaCount ring1)%nat →
           anyURL (deviceURL dev 7 (containerPath noEscape "AUTH_test" "photos")) = true →
           ∃ req, factory i dev = Req req).
Proof.
  split; [reflexivity|].
  exact (put_container_default_policy_headers noEscape anyURL [] goldClient
           "AUTH_test" "photos" ∅ eq_refl).
Defined.

(** The request built for the device of the one-replica ring. *)
Example put_container_request_built :
  putContainerRequest noEscape anyURL [] goldClient "AUTH_test" "photos" ∅ (-1) 0 device1
  = Req {| Method := "PUT";
           URL := "http://10.0.0.1:6000/sda/7/AUTH_test/photos";
           ReqHeader := {[ "X-Backend-Storage-Policy-Index" := ["-1"];
                           "X-Backend-Storage-Policy-Default" := ["0"];
                           "X-Account-Partition" := ["7"];
                           "X-Account-Host" := ["10.0.0.1:6000"];
                           "X-Account-Device" := ["sda"] ]} |}.
Proof. vm_compute. reflexivity. Qed.

End ClientFacts.

(** ** The container-info cache and the facade *)

Section FacadeFacts.
Import Quorum FirstResponse Client Facade.

Lemma invalidate_evicted (c : proxyClient) (account container : string) :
  evicted account container (invalidateContainerInfo c account container).
Proof.
  unfold evicted, invalidateContainerInfo. cbn [caches lc mc]. split; intros m Hm.
  - destruct (lc (caches c)) as [m0|]; [|done].
    injection Hm as <-. apply lookup_delete_eq.
  - destruct (mc (caches c)) as [m0|]; [|done].
    injection Hm as <-. apply lookup_delete_eq.
Qed.

Lemma invalidate_tiers (c : proxyClient) (account container : string) :
  lc (caches (invalidateContainerInfo c account container))
  = delete (cacheKey account container) <$> lc (caches c)
  ∧ mc (caches (invalidateContainerInfo c account container))
    = delete (cacheKey account container) <$> mc (caches c).
Proof. done. Qed.

(** C7. After PutContainer, PostContainer or DeleteContainer on (account,
    container) through the facade, whatever the write dispatch answered or
    whether it panicked, the entry keyed container/account/container is in
    neither the local map nor the shared cache, for each tier that is
    present; a tier is present afterwards exactly when it was before, and
    the other keys of both tiers are as they were. *)
Theorem container_writes_invalidate (Urlencode : string → string)
    (validURL : string → bool) (LoadPolicies : list Policy)
    (c : proxyClient) (account container : string) (headers : Header) (w : World) :
  let afterPut := (PutContainer Urlencode validURL LoadPolicies c account container headers w).2 in
  let afterPost := (PostContainer Urlencode validURL c account container headers w).2 in
  let afterDelete := (DeleteContainer Urlencode validURL c account container headers w).2 in
  cacheKey account container = "container/" +:+ account +:+ "/" +:+ container
  ∧ Forall (λ c',
        evicted account container c'
        ∧ lc (caches c') = delete (cacheKey account container) <$> lc (caches c)
        ∧ mc (caches c') = delete (cacheKey account container) <$> mc (caches c))
      [afterPut; afterPost; afterDelete].
Proof.
  intros afterPut afterPost afterDelete. split; [done|].
  subst afterPut afterPost afterDelete.
  unfold PutContainer, PostContainer, DeleteContainer, Client.PutContainer.
  cbn [fst snd].
  repeat constructor; try apply invalidate_evicted.
Qed.

Lemma GetContainerInfo_tiers (Urlencode : string → string) (validURL : string → bool)
    (c : ProxyDirectClient) (account container : string) (cs : Caches)
    (rand : nat → nat) (sched : list SelectEvent) :
  let res := GetContainerInfo Urlencode validURL c account container cs rand sched in
  lc res.2 = lc cs
  ∧ match lookupTiers (cacheKey account container) cs, res.1 with
    | Nil, inl ci => mc res.2 = (λ m, mc_Set m (cacheKey account container) ci 30) <$> mc cs
    | _, _ => mc res.2 = mc cs
    end.
Proof.
  intros res. subst res. unfold GetContainerInfo.
  destruct (lookupTiers _ _); cbn [fst snd]; [|done..].
  destruct (negb _); [done|].
  by destruct (fillInfo _).
Qed.

Lemma GetContainerInfo_fill (Urlencode : string → string) (validURL : string → bool)
    (c : ProxyDirectClient) (account container : string) (cs : Caches)
    (rand : nat → nat) (sched : list SelectEvent) :
  let head := HeadContainer Urlencode validURL c account container ∅ rand sched in
  let key := cacheKey account container in
  let res := GetContainerInfo Urlencode validURL c account container cs rand sched in
  (∀ ci, lookupTiers key cs = Nil → StatusCode head ÷ 100 = 2 →
         fillInfo (RespHeader head) = inl ci →
         res = (inl ci, {| mc := (λ m, mc_Set m key ci 30) <$> mc cs; lc := lc cs |}))
  ∧ (lookupTiers key cs ≠ Nil ∨ StatusCode head ÷ 100 ≠ 2
     ∨ (∃ e, fillInfo (RespHeader head) = inr e) →
     res.2 = cs).
Proof.
  cbv zeta. unfold GetContainerInfo. cbn [StatusCode RespHeader Close]. split.
  - intros ci -> Hs Hf. rewrite Hs, Hf. done.
  - intros Hcase. destruct (lookupTiers _ _) eqn:Hl; [|done..].
    destruct (Z.eqb_spec (StatusCode (HeadContainer Urlencode validURL c account
                                        container ∅ rand sched) ÷ 100) 2) as [Hs|Hs];
      [|done]. cbn [negb].
    destruct (fillInfo _) as [ci|e] eqn:Hf; [|done].
    destruct Hcase as [?|[?|[e ?]]]; done.
Qed.

(** C10. A call of GetContainerInfo leaves the local map as it was.  When
    both tiers miss and the HEAD answers 2xx with headers that fill a
    ContainerInfo, the call returns that ContainerInfo and stores it in the
    shared cache under the container key with a TTL of 30, provided the
    shared cache is present; in every other case (a tier hit, a HEAD that is
    not 2xx, headers that do not fill) the shared cache is as it was.
    Every call of the facade leaves the local map unchanged, except the
    three container writes, which delete the container key from it. *)
Theorem fill_stores_in_shared_cache_only (Urlencode : string → string)
    (validURL : string → bool) (LoadPolicies : list Policy)
    (c : proxyClient) (account container : string) (w : World) :
  let res := GetContainerInfoCall Urlencode validURL c account container w in
  let key := cacheKey account container in
  let head := HeadContainer Urlencode validURL (pdc c) account container ∅
                (rand w) (reads w) in
  lc (caches res.2) = lc (caches c)
  ∧ (∀ ci, lookupTiers key (caches c) = Nil →
           StatusCode head ÷ 100 = 2 →
           fillInfo (RespHeader head) = inl ci →
           res.1 = inl ci
           ∧ mc (caches res.2)
             = (λ m, <[key := {| entryValue := ci; entryTTL := 30 |}]> m) <$> mc (caches c))
  ∧ (lookupTiers key (caches c) ≠ Nil
     ∨ StatusCode head ÷ 100 ≠ 2
     ∨ (∃ e, fillInfo (RespHeader head) = inr e) →
     mc (caches res.2) = mc (caches c))
  ∧ ∀ call,
      lc (caches (after Urlencode validURL LoadPolicies call c w)) = lc (caches c)
      ∨ ∃ a b, invalidates call a b
               ∧ lc (caches (after Urlencode validURL LoadPolicies call c w))
                 = delete (cacheKey a b) <$> lc (caches c).
Proof.
  intros res key head. subst res key head.
  pose proof (GetContainerInfo_tiers Urlencode validURL (pdc c) account container
                (caches c) (rand w) (reads w)) as [Hlc _].
  pose proof (GetContainerInfo_fill Urlencode validURL (pdc c) account container
                (caches c) (rand w) (reads w)) as [Hfill Hkeep].
  unfold GetContainerInfoCall.
  destruct (GetContainerInfo _ _ _ _ _ _ _ _) as [res cs]. cbn [fst snd caches] in *.
  split; [done|]. split; [|split].
  - intros ci Hl Hs Hf. specialize (Hfill ci Hl Hs Hf). injection Hfill as -> ->. done.
  - intros Hcase. by rewrite (Hkeep Hcase).
  - intros [a b h|a b h|a b h|a b|a b|]; cbn [after].
    + right. exists a, b. split; [left; eauto|].
      unfold PutContainer, Client.PutContainer. done.
    + right. exists a, b. split; [right; left; eauto|]. done.
    + right. exists a, b. split; [right; right; eauto|]. done.
    + left. unfold GetContainerInfoCall.
      pose proof (GetContainerInfo_tiers Urlencode validURL (pdc c) a b
                    (caches c) (rand w) (reads w)) as [H _].
      by destruct (GetContainerInfo _ _ _ _ _ _ _ _).
    + left. unfold GetContainerInfoCall.
      pose proof (GetContainerInfo_tiers Urlencode validURL (pdc c) a b
                    (caches c) (rand w) (reads w)) as [H _].
      by destruct (GetContainerInfo _ _ _ _ _ _ _ _).
    + by left.
Qed.

Lemma fill_stores_in_shared_cache_only_witness :
  (lookupTiers (cacheKey "AUTH_test" "photos") (caches goldFacade) = Nil
   ∧ StatusCode (HeadContainer noEscape anyURL (pdc goldFacade) "AUTH_test" "photos" ∅
                   (rand headWorld) (reads headWorld)) ÷ 100 = 2
   ∧ fillInfo (RespHeader (HeadContainer noEscape anyURL (pdc goldFacade) "AUTH_test"
                             "photos" ∅ (rand headWorld) (reads headWorld)))
     = inl headScenarioInfo)
  ∧ (GetContainerInfoCall noEscape anyURL goldFacade "AUTH_test" "photos" headWorld).1
    = inl headScenarioInfo
  ∧ mc (caches (GetContainerInfoCall noEscape anyURL goldFacade "AUTH_test" "photos"
                  headWorld).2)
    = (λ m, <[cacheKey "AUTH_test" "photos"
              := {| entryValue := headScenarioInfo; entryTTL := 30 |}]> m)
        <$> mc (caches goldFacade).
Proof.
  assert (H1 : lookupTiers (cacheKey "AUTH_test" "photos") (caches goldFacade) = Nil)
    by (vm_compute; reflexivity).
  assert (H2 : StatusCode (HeadContainer noEscape anyURL (pdc goldFacade) "AUTH_test"
                             "photos" ∅ (rand headWorld) (reads headWorld)) ÷ 100 = 2)
    by (vm_compute; reflexivity).
  assert (H3 : fillInfo (RespHeader (HeadContainer noEscape anyURL (pdc goldFacade)
                                       "AUTH_test" "photos" ∅ (rand headWorld)
                                       (reads headWorld)))
               = inl headScenarioInfo)
    by (vm_compute; reflexivity).
  exact (conj (conj H1 (conj H2 H3))
              (proj1 (proj2 (fill_stores_in_shared_cache_only noEscape anyURL []
                               goldFacade "AUTH_test" "photos" headWorld))
                 headScenarioInfo H1 H2 H3)).
Defined.

(** The miss-fill scenario: both tiers miss, the HEAD answers with the
    counts 5 and 1024, the policy index 1 and the metadata Color: red; the
    filled record goes to the shared cache alone. *)
Example miss_fill_scenario :
  GetContainerInfoCall noEscape anyURL goldFacade "AUTH_test" "photos" headWorld
  = (inl headScenarioInfo,
     {| pdc := goldClient;
        caches := {| mc := Some {[ "container/AUTH_test/photos"
                                   := {| entryValue := headScenarioInfo; entryTTL := 30 |} ]};
                     lc := Some ∅ |} |}).
Proof. vm_compute. reflexivity. Qed.

End FacadeFacts.

(** ** The account-bound client: listings *)

Section DirectFacts.
Import Quorum FirstResponse Client Facade Direct.

Lemma decodeListing_error {A : Type} (decode : string → string + option (list A))
    (resp : Response) (err : string) :
  StatusCode resp ÷ 100 = 2 →
  decode (Body resp) = inl err →
  decodeListing decode resp
  = {| records := None;
       response := ResponseStub 500 err;
       backend := Close resp |}.
Proof.
  intros H2 Herr. unfold decodeListing. rewrite H2, Herr. done.
Qed.

(** C9. For a GetAccount or GetContainer listing call of the direct client
    for which the facade hands back a 2xx response whose body does not
    decode as a record list, the caller receives a nil record list and a
    synthetic 500 response carrying the decoder's error text, not the 2xx
    response; and the body of the 2xx response has been closed. *)
Theorem listing_decode_failure_gives_500 (Urlencode QueryEscape : string → string)
    (validURL : string → bool) (Map2Headers : gmap string string → Header)
    (ContainerRecord ObjectRecord : Type)
    (decodeContainerRecords : string → string + option (list ContainerRecord))
    (decodeObjectRecords : string → string + option (list ObjectRecord))
    (c : directClient) (container marker endMarker : string) (limit : Z)
    (prefix delimiter : string) (reverse : bool) (headers : gmap string string)
    (w : World) :
  let options := listingOptions marker endMarker limit prefix delimiter reverse in
  let accountResp :=
    Facade.GetAccount Urlencode QueryEscape validURL (pc c) (account c) options
      (Map2Headers headers) w in
  let containerResp :=
    Facade.GetContainer Urlencode QueryEscape validURL (pc c) (account c) container
      options (Map2Headers headers) w in
  (∀ err, StatusCode accountResp ÷ 100 = 2 →
          decodeContainerRecords (Body accountResp) = inl err →
          let l := GetAccount Urlencode QueryEscape validURL Map2Headers ContainerRecord
                     decodeContainerRecords c marker endMarker limit prefix delimiter
                     reverse headers w in
          records l = None
          ∧ response l = ResponseStub 500 err
          ∧ response l ≠ accountResp
          ∧ backend l = Close accountResp
          ∧ BodyClosed (backend l) = true)
  ∧ (∀ err, StatusCode containerResp ÷ 100 = 2 →
            decodeObjectRecords (Body containerResp) = inl err →
            let l := GetContainer Urlencode QueryEscape validURL Map2Headers ObjectRecord
                       decodeObjectRecords c container marker endMarker limit prefix
                       delimiter reverse headers w in
            records l = None
            ∧ response l = ResponseStub 500 err
            ∧ response l ≠ containerResp
            ∧ backend l = Close containerResp
            ∧ BodyClosed (backend l) = true).
Proof.
  intros options accountResp containerResp. split; intros err H2 Herr l; subst l.
  - unfold GetAccount. fold options. fold accountResp.
    rewrite (decodeListing_error _ _ _ H2 Herr). cbn [records response backend].
    repeat split; try done.
    intros Heq. rewrite <- Heq in H2. by vm_compute in H2.
  - unfold GetContainer. fold options. fold containerResp.
    rewrite (decodeListing_error _ _ _ H2 Herr). cbn [records response backend].
    repeat split; try done.
    intros Heq. rewrite <- Heq in H2. by vm_compute in H2.
Qed.

(** The listing of an account whose backend answers 200 with a body that is
    not JSON. *)
Lemma listing_decode_failure_gives_500_witness :
  let l := GetAccount noEscape noEscape anyURL (λ _, ∅) unit (rejectHtml unit)
             goldDirect EmptyString EmptyString 0 EmptyString EmptyString false ∅
             brokenWorld in
  records l = None
  ∧ response l = ResponseStub 500 "invalid character '<' looking for beginning of value"
  ∧ backend l = Close (normalize brokenListing)
  ∧ BodyClosed (backend l) = true.
Proof.
  pose proof (listing_decode_failure_gives_500 noEscape noEscape anyURL (λ _, ∅)
                unit unit (rejectHtml unit) (rejectHtml unit) goldDirect "photos"
                EmptyString EmptyString 0 EmptyString EmptyString false ∅ brokenWorld) as H.
  cbv zeta in H. destruct H as [H _].
  specialize (H "invalid character '<' looking for beginning of value").
  assert (Hresp : Facade.GetAccount noEscape noEscape anyURL (pc goldDirect)
                    (account goldDirect)
                    (listingOptions EmptyString EmptyString 0 EmptyString EmptyString false)
                    ∅ brokenWorld = normalize brokenListing)
    by (vm_compute; reflexivity).
  rewrite Hresp in H.
  specialize (H eq_refl eq_refl).
  destruct H as (H1 & H2 & _ & H4 & H5). cbv zeta. auto.
Defined.

End DirectFacts.


(** * Further properties *)

(** ** Sorting *)

Section SortFacts.

Lemma leb_iff (a b : string) :
  String.leb a b = true ↔ a = b ∨ OrderedTypeEx.String_as_OT.lt a b.
Proof.
  unfold String.leb.
  destruct (String.compare a b) eqn:Hc.
  - apply String.compare_eq_iff in Hc. tauto.
  - apply OrderedTypeEx.String_as_OT.cmp_lt in Hc. tauto.
  - split; [done|]. intros [->|Hlt].
    + assert (String.compare b b = Eq) by (by apply OrderedTypeEx.String_as_OT.cmp_eq).
      congruence.
    + apply OrderedTypeEx.String_as_OT.cmp_lt in Hlt.
      unfold OrderedTypeEx.String_as_OT.cmp in Hlt. congruence.
Qed.

Lemma leb_trans (a b c : string) :
  String.leb a b = true → String.leb b c = true → String.leb a c = true.
Proof.
  rewrite !leb_iff. intros [->|Hab] [->|Hbc]; auto.
  right. eapply OrderedTypeEx.String_as_OT.lt_trans; eauto.
Qed.

Lemma insert_sorted_Permutation (x : string) (l : list string) :
  insert_sorted x l ≡ₚ x :: l.
Proof.
  induction l as [|y l IH]; [done|]. simpl.
  destruct (String.leb x y); [done|]. rewrite IH. apply perm_swap.
Qed.

Lemma insert_sorted_ascending (x : string) (l : list string) :
  ascending l → ascending (insert_sorted x l).
Proof.
  unfold ascending. induction l as [|y l IH]; intros Hs; simpl.
  - repeat constructor.
  - inversion Hs as [|? ? Hl Hy]; subst.
    destruct (String.leb x y) eqn:Hxy.
    + constructor; [done|]. constructor; [done|].
      eapply Forall_impl; [exact Hy|]. intros z Hz. by eapply leb_trans.
    + constructor; [by apply IH|].
      rewrite (insert_sorted_Permutation x l). constructor; [|done].
      destruct (String.leb_total x y) as [H|H]; congruence.
Qed.

Lemma SortStrings_Permutation (l : list string) : SortStrings l ≡ₚ l.
Proof.
  induction l as [|x l IH]; [done|].
  unfold SortStrings in *. simpl. by rewrite insert_sorted_Permutation, IH.
Qed.

Lemma SortStrings_ascending (l : list string) : ascending (SortStrings l).
Proof.
  induction l as [|x l IH]; [constructor|].
  unfold SortStrings in *. simpl. by apply insert_sorted_ascending.
Qed.

Lemma ascending_unique (l1 l2 : list string) :
  ascending l1 → ascending l2 → l1 ≡ₚ l2 → l1 = l2.
Proof.
  unfold ascending. revert l2.
  induction l1 as [|a l1 IH]; intros l2 H1 H2 Hp.
  - by apply Permutation_nil_l in Hp.
  - destruct l2 as [|b l2]; [by apply Permutation_nil_r in Hp|].
    inversion H1 as [|? ? Hs1 Ha]; inversion H2 as [|? ? Hs2 Hb]; subst.
    assert (a = b) as ->.
    { assert (Hina : a ∈ b :: l2) by (rewrite <- Hp; left).
      assert (Hinb : b ∈ a :: l1) by (rewrite Hp; left).
      apply elem_of_cons in Hina as [->|Hina]; [done|].
      apply elem_of_cons in Hinb as [->|Hinb]; [done|].
      rewrite Forall_forall in Ha, Hb.
      apply String.leb_antisym; auto. }
    f_equal. apply IH; [done..|]. by apply Permutation_cons_inv in Hp.
Qed.

(** [sort.Strings] gives the same list for any two orders of the input. *)
Lemma SortStrings_order (l1 l2 : list string) :
  l1 ≡ₚ l2 → SortStrings l1 = SortStrings l2.
Proof.
  intros Hp. apply ascending_unique; try apply SortStrings_ascending.
  by rewrite !SortStrings_Permutation.
Qed.

End SortFacts.

(** ** The S3 middleware: forwarding, parsing, signing *)

Section S3MoreFacts.
Import S3Auth.

Lemma is_empty_iff (s : string) : is_empty s = true ↔ s = EmptyString.
Proof. destruct s; split; done. Qed.

(** X1. Every call of the handler forwards the request downstream exactly
    once.  The writer is the wrapped one exactly when the context had no
    S3AuthInfo and the call stashed one, with a key and a signature that
    are not empty and the string to sign of the request; an S3AuthInfo the
    context already holds is never replaced. *)
Theorem serve_http_forwards_once (ctx : ProxyContext) (request : Request) :
  let s := ServeHTTP ctx request in
  (next_calls s = [PlainWriter] ∨ next_calls s = [S3WrappedWriter])
  ∧ (next_calls s = [S3WrappedWriter] ↔
     S3Auth ctx = None
     ∧ ∃ key signature,
         key ≠ EmptyString ∧ signature ≠ EmptyString
         ∧ ctx_after s
           = {| Authorize := Authorize ctx;
                S3Auth := Some {| Key := key; Signature := signature;
                                  StringToSign := stringToSign request;
                                  Account := EmptyString |} |})
  ∧ (is_Some (S3Auth ctx) → S3Auth (ctx_after s) = S3Auth ctx).
Proof.
  intros s. subst s. unfold ServeHTTP.
  destruct (parseAuth request) as [|authStr key signature].
  { cbn. split; [by left|]. split; [|done]. split; [done|].
    intros (Hn & k & sg & _ & _ & Heq).
    apply (f_equal S3Auth) in Heq. cbn in Heq. congruence. }
  destruct (if is_empty authStr then _ else _) as [k sg].
  destruct (is_empty k) eqn:Hk; cbn [orb].
  { cbn. split; [by left|]. split; [|done]. split; [done|].
    intros (Hn & k' & sg' & Hk' & _ & Heq).
    apply (f_equal S3Auth) in Heq. cbn in Heq. congruence. }
  destruct (is_empty sg) eqn:Hsg; cbn [orb].
  { cbn. split; [by left|]. split; [|done]. split; [done|].
    intros (Hn & k' & sg' & Hk' & _ & Heq).
    apply (f_equal S3Auth) in Heq. cbn in Heq. congruence. }
  destruct (S3Auth ctx) as [info|] eqn:Hs.
  - rewrite bool_decide_eq_true_2 by eauto. cbn.
    split; [by left|]. split; [|done]. split; [done|]. by intros [? _].
  - rewrite bool_decide_eq_false_2 by (intros [? ?]; done). cbn.
    split; [by right|]. split; [|by intros [? ?]].
    split; [|done]. intros _. split; [done|]. exists k, sg.
    split; [by intros ->|]. split; [by intros ->|done].
Qed.

Lemma ParseForm_parsed (request : Request) :
  is_Some (Form request) → ParseForm request = request.
Proof. intros [f Hf]. destruct request. cbn in *. by subst. Qed.

Lemma FormValue_ParseForm (request : Request) (key : string) :
  Values_Get (Form (ParseForm request)) key = FormValue request key
  ∧ FormValue (ParseForm request) key = FormValue request key.
Proof. unfold FormValue, ParseForm. cbn [Form]. by destruct (Form request). Qed.

Lemma parseAuth_authStr (request : Request) (authStr key signature : string) :
  parseAuth request = Credential authStr key signature →
  is_empty authStr = true →
  Header_Get (ReqHeader request) "Authorization" = EmptyString
  ∧ Values_Get (Form request) "AWSAccessKeyId" = EmptyString
  ∧ key = EmptyString ∧ signature = EmptyString.
Proof.
  unfold parseAuth. intros Hp He.
  destruct (is_empty (Header_Get (ReqHeader request) "Authorization")) eqn:Hh.
  - apply is_empty_true in Hh.
    destruct (is_empty (Values_Get (Form request) "AWSAccessKeyId")) eqn:Hf.
    + apply is_empty_true in Hf. by injection Hp as <- <- <-.
    + destruct (LastIndex _ _ <? 0) eqn:Hi; [done|]. injection Hp as <- <- <-.
      apply is_empty_true in He. rewrite He in Hi. vm_compute in Hi. discriminate Hi.
  - rewrite Hh in Hp.
    destruct (LastIndex _ _ <? 0) eqn:Hi; [done|]. injection Hp as <- <- <-.
    apply is_empty_true in He. rewrite He in Hi. vm_compute in Hi. discriminate Hi.
Qed.

(** A pass over a request that the pass before did not write: the context
    stays as that pass left it, and the writer is handed on as received. *)
Lemma ServeHTTP_unwritten (ctx : ProxyContext) (request : Request) :
  let first := ServeHTTP ctx request in
  let again := ServeHTTP (ctx_after first) request in
  ctx_after again = ctx_after first ∧ next_calls again = [PlainWriter].
Proof.
  cbv zeta. unfold ServeHTTP.
  destruct (parseAuth request) as [|authStr key signature]; [done|].
  destruct (if is_empty authStr then _ else _) as [k sg].
  destruct (is_empty k || is_empty sg || bool_decide (is_Some (S3Auth ctx))) eqn:Hc.
  - cbn [ctx_after]. rewrite Hc. cbn [ctx_after next_calls].
    split; [done|]. done.
  - cbn [ctx_after S3Auth].
    assert (Hd : bool_decide (is_Some (Some {| Key := k; Signature := sg;
                                               StringToSign := stringToSign request;
                                               Account := EmptyString |})) = true)
      by (apply bool_decide_eq_true_2; eauto).
    rewrite Hd. by rewrite !orb_true_r.
Qed.

(** X2. The second pass of the handler, over the request as the first pass
    left it and with the context of the first pass.  The first pass writes
    the request only by parsing a form that was nil, and a request written
    once is not written again.  When the form was already parsed, or the
    Authorization header is not empty, or the form has no AWSAccessKeyId,
    the second pass changes nothing and hands the writer on as received.
    When the first pass took an access key without a colon from a form it
    had to parse, the second pass reads that key as an Authorization value
    and installs the deny-all authorizer, whatever the first pass stashed. *)
Theorem serve_http_second_pass (ctx : ProxyContext) (request : Request) :
  let first := ServeHTTP ctx request in
  let again := ServeHTTP (ctx_after first) (requestAfter request) in
  requestAfter (requestAfter request) = requestAfter request
  ∧ (requestAfter request = request ∨ requestAfter request = ParseForm request)
  ∧ (is_Some (Form request)
     ∨ Header_Get (ReqHeader request) "Authorization" ≠ EmptyString
     ∨ FormValue request "AWSAccessKeyId" = EmptyString →
     ctx_after again = ctx_after first ∧ next_calls again = [PlainWriter])
  ∧ (Form request = None →
     Header_Get (ReqHeader request) "Authorization" = EmptyString →
     FormValue request "AWSAccessKeyId" ≠ EmptyString →
     noColon (TrimPrefix (FormValue request "AWSAccessKeyId") "AWS ") →
     requestAfter request = ParseForm request
     ∧ deniedDownstream (ctx_after first) again).
Proof.
  cbv zeta.
  assert (Hwritten : ∀ r, requestAfter r = r ∨ requestAfter r = ParseForm r).
  { intros r. unfold requestAfter. destruct (parseAuth r) as [|a k sg]; [by left|].
    destruct (is_empty a); [by right|by left]. }
  split; [|split; [|split]].
  - destruct (Hwritten request) as [E|E]; [by rewrite !E|]. rewrite E.
    destruct (Hwritten (ParseForm request)) as [E'|E']; by rewrite E'.
  - apply Hwritten.
  - intros Hcase.
    assert (Hsame : requestAfter request = request
                    ∨ (Form request = None
                       ∧ Header_Get (ReqHeader request) "Authorization" = EmptyString
                       ∧ FormValue request "AWSAccessKeyId" = EmptyString)).
    { unfold requestAfter.
      destruct (parseAuth request) as [|a k sg] eqn:Hp; [by left|].
      destruct (is_empty a) eqn:He; [|by left].
      destruct (parseAuth_authStr _ _ _ _ Hp He) as (Hh & Hf & _ & _).
      destruct (Form request) as [f|] eqn:Hform.
      - left. apply ParseForm_parsed. rewrite Hform. eauto.
      - right. destruct Hcase as [[f Hf']|[Hne|Hk]]; [done|done|done]. }
    destruct Hsame as [->|(Hform & Hh & Hk)]; [apply ServeHTTP_unwritten|].
    assert (Hp : parseAuth request = Credential EmptyString EmptyString EmptyString).
    { unfold parseAuth. by rewrite Hh, Hform. }
    assert (Hp' : parseAuth (ParseForm request)
                  = Credential EmptyString EmptyString EmptyString).
    { unfold parseAuth. cbn [ReqHeader ParseForm]. rewrite Hh. cbn [is_empty].
      rewrite (proj1 (FormValue_ParseForm request "AWSAccessKeyId")), Hk. done. }
    unfold requestAfter. rewrite Hp. cbn [is_empty].
    unfold ServeHTTP. rewrite Hp, Hp'. cbn [is_empty].
    rewrite (proj2 (FormValue_ParseForm request "AWSAccessKeyId")), Hk.
    cbn [is_empty orb ctx_after next_calls]. done.
  - intros Hform Hh Hk Hno.
    assert (Hp : parseAuth request = Credential EmptyString EmptyString EmptyString).
    { unfold parseAuth. by rewrite Hh, Hform. }
    unfold requestAfter. rewrite Hp. cbn [is_empty]. split; [done|].
    generalize (ctx_after (ServeHTTP ctx request)). intros ctx'.
    unfold ServeHTTP, parseAuth.
    change (ReqHeader (ParseForm request)) with (ReqHeader request).
    rewrite Hh. cbn [is_empty]. cbv zeta.
    rewrite (proj1 (FormValue_ParseForm request "AWSAccessKeyId")).
    rewrite (is_empty_false _ Hk).
    rewrite (LastIndex_absent _ _ Hno). cbn.
    repeat split; eauto.
Qed.

Lemma serve_http_second_pass_witness :
  (Form unparsedQueryRequest = None
   ∧ Header_Get (ReqHeader unparsedQueryRequest) "Authorization" = EmptyString
   ∧ FormValue unparsedQueryRequest "AWSAccessKeyId" ≠ EmptyString
   ∧ noColon (TrimPrefix (FormValue unparsedQueryRequest "AWSAccessKeyId") "AWS "))
  ∧ requestAfter unparsedQueryRequest = ParseForm unparsedQueryRequest
  ∧ deniedDownstream (ctx_after (ServeHTTP emptyContext unparsedQueryRequest))
      (ServeHTTP (ctx_after (ServeHTTP emptyContext unparsedQueryRequest))
         (requestAfter unparsedQueryRequest)).
Proof.
  assert (H3 : FormValue unparsedQueryRequest "AWSAccessKeyId" ≠ EmptyString)
    by (vm_compute; discriminate).
  assert (H4 : noColon (TrimPrefix (FormValue unparsedQueryRequest "AWSAccessKeyId") "AWS ")).
  { vm_compute. intros H. repeat (destruct H as [H|H]; [discriminate H|]). exact H. }
  exact (conj (conj eq_refl (conj eq_refl (conj H3 H4)))
              (proj2 (proj2 (proj2 (serve_http_second_pass emptyContext unparsedQueryRequest)))
                 eq_refl eq_refl H3 H4)).
Defined.

(** The two passes on the query-credential request: the first stashes the
    credentials of the form, the second denies. *)
Example second_pass_denies_query_credentials :
  S3Auth (ctx_after (ServeHTTP emptyContext unparsedQueryRequest))
  = Some {| Key := "AKIDEXAMPLE"; Signature := "c2ln";
            StringToSign := stringToSign unparsedQueryRequest;
            Account := EmptyString |}
  ∧ Authorize (ctx_after (ServeHTTP emptyContext unparsedQueryRequest)) = None
  ∧ is_Some (Authorize (ctx_after
       (ServeHTTP (ctx_after (ServeHTTP emptyContext unparsedQueryRequest))
          (requestAfter unparsedQueryRequest)))).
Proof. vm_compute. repeat split. eauto. Qed.

Lemma append_assoc3 (a b c : string) : (a +:+ b) +:+ c = a +:+ (b +:+ c).
Proof.
  induction a as [|x a IH]; [by rewrite !append_empty|].
  rewrite !append_cons. by f_equal.
Qed.

Lemma HasPrefix_append (p s : string) : HasPrefix (p +:+ s) p = true.
Proof.
  induction p as [|x p IH]; [rewrite append_empty; by destruct s|].
  rewrite append_cons. cbn [HasPrefix]. by rewrite Ascii.eqb_refl.
Qed.

Lemma drop_bytes_append (p s : string) : drop_bytes (String.length p) (p +:+ s) = s.
Proof.
  induction p as [|x p IH]; [by rewrite append_empty|]. rewrite append_cons. exact IH.
Qed.

Lemma take_bytes_append (p s : string) : take_bytes (String.length p) (p +:+ s) = p.
Proof.
  induction p as [|x p IH]; [by destruct s|].
  rewrite append_cons. cbn [String.length take_bytes]. by f_equal.
Qed.

Lemma TrimPrefix_append (p s : string) : TrimPrefix (p +:+ s) p = s.
Proof. unfold TrimPrefix. by rewrite HasPrefix_append, drop_bytes_append. Qed.

Lemma last_index_from_last (c : ascii) (s t : string) :
  ¬ In c (list_ascii_of_string t) →
  ∀ i found, last_index_from i (s +:+ String c t) c found = i + Z.of_nat (String.length s).
Proof.
  intros Hno. induction s as [|a s IH]; intros i found.
  - rewrite append_empty. cbn [last_index_from]. rewrite Ascii.eqb_refl.
    rewrite (last_index_from_absent c t _ _ Hno). cbn. lia.
  - rewrite append_cons. cbn [last_index_from String.length]. rewrite IH. lia.
Qed.

(** X3. A credential written as AWS key:signature comes out as it went in:
    for a key and a signature that are not empty, the signature holding no
    colon, and a context without S3AuthInfo, the handler stashes exactly
    that key, that signature and the string to sign of the request, and
    forwards the request with the wrapped writer.  The key may hold
    colons: the split is at the last one. *)
Theorem authorization_round_trip (ctx : ProxyContext) (request : Request)
    (key signature : string) :
  Header_Get (ReqHeader request) "Authorization"
    = "AWS " +:+ key +:+ ":" +:+ signature →
  key ≠ EmptyString → signature ≠ EmptyString → noColon signature →
  S3Auth ctx = None →
  ServeHTTP ctx request
  = {| ctx_after :=
         {| Authorize := Authorize ctx;
            S3Auth := Some {| Key := key; Signature := signature;
                              StringToSign := stringToSign request;
                              Account := EmptyString |} |};
       next_calls := [S3WrappedWriter] |}.
Proof.
  intros Hauth Hk Hs Hno Hctx.
  assert (Hparse : parseAuth request
                   = Credential (key +:+ ":" +:+ signature) key signature).
  { unfold parseAuth. rewrite Hauth. cbv zeta.
    assert (Hne0 : is_empty ("AWS " +:+ key +:+ ":" +:+ signature) = false)
      by (by rewrite append_cons).
    rewrite Hne0.
    rewrite (TrimPrefix_append "AWS " (key +:+ ":" +:+ signature)).
    assert (Hne : is_empty (key +:+ ":" +:+ signature) = false)
      by (destruct key; [done|by rewrite append_cons]).
    change (":" +:+ signature) with (String ":" signature).
    unfold LastIndex. rewrite (last_index_from_last ":" key signature Hno).
    rewrite Z.add_0_l.
    destruct (Z.ltb_spec (Z.of_nat (String.length key)) 0) as [?|_]; [lia|].
    rewrite Nat2Z.id.
    replace (Z.to_nat (Z.of_nat (String.length key) + 1)) with (S (String.length key)) by lia.
    rewrite take_bytes_append. f_equal.
    clear. induction key as [|a key IH]; [done|]. rewrite append_cons. exact IH. }
  unfold ServeHTTP. rewrite Hparse.
  assert (Hne : is_empty (key +:+ ":" +:+ signature) = false)
    by (destruct key; [done|by rewrite append_cons]).
  rewrite Hne, (is_empty_false key Hk), (is_empty_false signature Hs), Hctx.
  rewrite bool_decide_eq_false_2 by (intros [? ?]; done). done.
Qed.

Lemma authorization_round_trip_witness :
  (Header_Get (ReqHeader (signedScenario "AWS tenant:user:c2ln")) "Authorization"
     = "AWS " +:+ "tenant:user" +:+ ":" +:+ "c2ln"
   ∧ "tenant:user" ≠ EmptyString ∧ "c2ln" ≠ EmptyString ∧ noColon "c2ln"
   ∧ S3Auth emptyContext = None)
  ∧ ServeHTTP emptyContext (signedScenario "AWS tenant:user:c2ln")
    = {| ctx_after :=
           {| Authorize := None;
              S3Auth := Some {| Key := "tenant:user"; Signature := "c2ln";
                                StringToSign := stringToSign
                                                  (signedScenario "AWS tenant:user:c2ln");
                                Account := EmptyString |} |};
         next_calls := [S3WrappedWriter] |}.
Proof.
  assert (H1 : Header_Get (ReqHeader (signedScenario "AWS tenant:user:c2ln")) "Authorization"
               = "AWS " +:+ "tenant:user" +:+ ":" +:+ "c2ln") by (vm_compute; reflexivity).
  assert (H2 : "tenant:user" ≠ EmptyString) by discriminate.
  assert (H3 : "c2ln" ≠ EmptyString) by discriminate.
  assert (H4 : noColon "c2ln").
  { vm_compute. intros H. repeat (destruct H as [H|H]; [discriminate H|]). exact H. }
  exact (conj (conj H1 (conj H2 (conj H3 (conj H4 eq_refl))))
              (authorization_round_trip emptyContext _ _ _ H1 H2 H3 H4 eq_refl)).
Defined.

(** X4. Credentials given as form values are taken when the form has not
    been parsed before the handler runs: with no Authorization value, a
    nil Form, and AWSAccessKeyId and Signature values that are not empty,
    the handler stashes them, on a context without S3AuthInfo. *)
Theorem unparsed_form_credentials_stashed (ctx : ProxyContext) (request : Request) :
  Header_Get (ReqHeader request) "Authorization" = EmptyString →
  Form request = None →
  FormValue request "AWSAccessKeyId" ≠ EmptyString →
  FormValue request "Signature" ≠ EmptyString →
  S3Auth ctx = None →
  ServeHTTP ctx request
  = {| ctx_after :=
         {| Authorize := Authorize ctx;
            S3Auth := Some {| Key := FormValue request "AWSAccessKeyId";
                              Signature := FormValue request "Signature";
                              StringToSign := stringToSign request;
                              Account := EmptyString |} |};
       next_calls := [S3WrappedWriter] |}.
Proof.
  intros Hauth Hform Hk Hs Hctx. unfold ServeHTTP, parseAuth.
  rewrite Hauth, Hform. cbn [is_empty Values_Get].
  rewrite (is_empty_false _ Hk), (is_empty_false _ Hs), Hctx.
  rewrite bool_decide_eq_false_2 by (intros [? ?]; done). done.
Qed.

Lemma unparsed_form_credentials_stashed_witness :
  (Header_Get (ReqHeader unparsedQueryRequest) "Authorization" = EmptyString
   ∧ Form unparsedQueryRequest = None
   ∧ FormValue unparsedQueryRequest "AWSAccessKeyId" ≠ EmptyString
   ∧ FormValue unparsedQueryRequest "Signature" ≠ EmptyString
   ∧ S3Auth emptyContext = None)
  ∧ ServeHTTP emptyContext unparsedQueryRequest
    = {| ctx_after :=
           {| Authorize := None;
              S3Auth := Some {| Key := FormValue unparsedQueryRequest "AWSAccessKeyId";
                                Signature := FormValue unparsedQueryRequest "Signature";
                                StringToSign := stringToSign unparsedQueryRequest;
                                Account := EmptyString |} |};
         next_calls := [S3WrappedWriter] |}.
Proof.
  assert (H3 : FormValue unparsedQueryRequest "AWSAccessKeyId" ≠ EmptyString)
    by (vm_compute; discriminate).
  assert (H4 : FormValue unparsedQueryRequest "Signature" ≠ EmptyString)
    by (vm_compute; discriminate).
  exact (conj (conj eq_refl (conj eq_refl (conj H3 (conj H4 eq_refl))))
              (unparsed_form_credentials_stashed emptyContext unparsedQueryRequest
                 eq_refl eq_refl H3 H4 eq_refl)).
Defined.

(** X5. The same credentials are refused when the form has already been
    parsed: with no Authorization value, the handler then reads the
    AWSAccessKeyId entry of the form as if it were the Authorization value,
    and an access key without a colon gets the deny-all authorizer. *)
Theorem parsed_form_access_key_denied (ctx : ProxyContext) (request : Request)
    (form : Values) :
  Header_Get (ReqHeader request) "Authorization" = EmptyString →
  Form request = Some form →
  Values_Get (Some form) "AWSAccessKeyId" ≠ EmptyString →
  noColon (TrimPrefix (Values_Get (Some form) "AWSAccessKeyId") "AWS ") →
  deniedDownstream ctx (ServeHTTP ctx request).
Proof.
  intros Hauth Hform Hk Hno. unfold ServeHTTP, parseAuth.
  rewrite Hauth, Hform. cbn [is_empty]. cbv zeta.
  rewrite (is_empty_false _ Hk).
  rewrite (LastIndex_absent _ _ Hno). cbn.
  repeat split; eauto.
Qed.

Lemma parsed_form_access_key_denied_witness :
  (Header_Get (ReqHeader parsedQueryRequest) "Authorization" = EmptyString
   ∧ Form parsedQueryRequest = Some queryCredentials
   ∧ Values_Get (Some queryCredentials) "AWSAccessKeyId" ≠ EmptyString
   ∧ noColon (TrimPrefix (Values_Get (Some queryCredentials) "AWSAccessKeyId") "AWS "))
  ∧ deniedDownstream emptyContext (ServeHTTP emptyContext parsedQueryRequest).
Proof.
  assert (H3 : Values_Get (Some queryCredentials) "AWSAccessKeyId" ≠ EmptyString)
    by (vm_compute; discriminate).
  assert (H4 : noColon (TrimPrefix (Values_Get (Some queryCredentials) "AWSAccessKeyId") "AWS ")).
  { vm_compute. intros H. repeat (destruct H as [H|H]; [discriminate H|]). exact H. }
  exact (conj (conj eq_refl (conj eq_refl (conj H3 H4)))
              (parsed_form_access_key_denied emptyContext parsedQueryRequest
                 queryCredentials eq_refl eq_refl H3 H4)).
Defined.

Lemma signableQuery_parts (rawQuery : string) :
  signableQuery rawQuery
  = if is_empty rawQuery then EmptyString
    else match signableParts rawQuery with
         | [] => EmptyString
         | parts => "?" +:+ Join parts "&"
         end.
Proof.
  unfold signableQuery, signableParts. destruct (is_empty rawQuery); [done|].
  cbv zeta. by destruct (SortStrings _).
Qed.

Lemma S3Subresources_names (token : string) :
  S3Subresources token = true ↔ token ∈ S3SubresourceNames.
Proof.
  unfold S3Subresources. rewrite existsb_exists. split.
  - intros (x & Hin & ->%String.eqb_eq). by apply list_elem_of_In.
  - intros Hin. exists token. split; [by apply list_elem_of_In|apply String.eqb_refl].
Qed.

Lemma names_have_no_value :
  Forall (λ name, ¬ In "="%char (list_ascii_of_string name)) S3SubresourceNames.
Proof.
  repeat constructor;
    (vm_compute; intros H; repeat (destruct H as [H|H]; [discriminate H|]); exact H).
Qed.

(** X6. Only tokens that are, whole, a name of the allowlist are signed:
    every signed token of a raw query is one of its tokens, is a key of
    S3Subresources and holds no equals sign, so a sub-resource given with a
    value is never signed; the signed tokens are in ascending order, and
    a query none of whose tokens is a bare allowlist name adds nothing to
    the string to sign. *)
Theorem valued_tokens_never_signed (rawQuery : string) :
  (∀ token, token ∈ signableParts rawQuery →
     token ∈ Split rawQuery "&"
     ∧ token ∈ S3SubresourceNames
     ∧ ¬ In "="%char (list_ascii_of_string token))
  ∧ ascending (signableParts rawQuery)
  ∧ ((∀ token, token ∈ Split rawQuery "&" → S3Subresources token = false) →
     signableQuery rawQuery = EmptyString).
Proof.
  split; [|split].
  - intros token Hin. unfold signableParts in Hin.
    rewrite SortStrings_Permutation in Hin.
    apply list_elem_of_filter in Hin as [Hs Hin].
    apply S3Subresources_names in Hs. repeat split; try done.
    pose proof names_have_no_value as Hall. rewrite Forall_forall in Hall. by apply Hall.
  - apply SortStrings_ascending.
  - intros Hnone. rewrite signableQuery_parts.
    destruct (is_empty rawQuery); [done|].
    assert (Hnil : filter (λ v, S3Subresources v = true) (Split rawQuery "&") = []).
    { induction (Split rawQuery "&") as [|x l IH]; [done|].
      rewrite filter_cons. rewrite decide_False.
      - apply IH. intros tk Htk. apply Hnone. by right.
      - rewrite (Hnone x) by left. done. }
    unfold signableParts. by rewrite Hnil.
Qed.

Lemma amzKeys_from (h : Header) : amzKeys h = amzKeysFrom (map_to_list h).*1.
Proof. reflexivity. Qed.

(** X7. The signed header names do not depend on the order in which the
    header map is iterated: whatever order the keys come in, sorting the
    x-amz ones gives the same ascending list, which holds exactly the keys
    of the map whose lower-case form starts with x-amz-. *)
Theorem amz_keys_order_independent (h : Header) (keys : list string) :
  keys ≡ₚ (map_to_list h).*1 →
  amzKeysFrom keys = amzKeys h
  ∧ ascending (amzKeys h)
  ∧ ∀ k, k ∈ amzKeys h ↔ (isAmz k ∧ is_Some (h !! k)).
Proof.
  intros Hp. split; [|split].
  - rewrite amzKeys_from. unfold amzKeysFrom. apply SortStrings_order. by rewrite Hp.
  - apply SortStrings_ascending.
  - intros k. unfold amzKeys. rewrite SortStrings_Permutation.
    change (k ∈ filter isAmz (map_to_list h).*1 ↔ isAmz k ∧ is_Some (h !! k)).
    rewrite list_elem_of_filter, list_elem_of_fmap. split.
    + intros [Ha ([k' v] & -> & Hin)]. split; [done|].
      apply elem_of_map_to_list in Hin. eauto.
    + intros [Ha [v Hv]]. split; [done|]. exists (k, v). split; [done|].
      by apply elem_of_map_to_list.
Qed.

Lemma amz_keys_order_independent_witness :
  reverse (map_to_list twoAmzHeader).*1 ≡ₚ (map_to_list twoAmzHeader).*1
  ∧ amzKeysFrom (reverse (map_to_list twoAmzHeader).*1) = amzKeys twoAmzHeader
  ∧ amzKeys twoAmzHeader = ["x-amz-a"; "x-amz-b"].
Proof.
  split; [apply reverse_Permutation|]. split; [|vm_compute; reflexivity].
  apply (amz_keys_order_independent twoAmzHeader _
           (reverse_Permutation (map_to_list twoAmzHeader).*1)).
Defined.

Lemma amzKeys_ext (h1 h2 : Header) :
  (∀ k, isAmz k → h1 !! k = h2 !! k) → amzKeys h1 = amzKeys h2.
Proof.
  intros Hext. unfold amzKeys. apply SortStrings_order.
  apply NoDup_Permutation; try (apply NoDup_filter, NoDup_fst_map_to_list).
  intros k.
  change (k ∈ filter isAmz (map_to_list h1).*1 ↔ k ∈ filter isAmz (map_to_list h2).*1).
  rewrite !list_elem_of_filter, !list_elem_of_fmap.
  split; intros [Ha ([k' v] & -> & Hin)]; (split; [done|]);
    apply elem_of_map_to_list in Hin; cbn in *.
  - rewrite (Hext _ Ha) in Hin. exists (k', v). split; [done|]. by apply elem_of_map_to_list.
  - rewrite <- (Hext _ Ha) in Hin. exists (k', v). split; [done|]. by apply elem_of_map_to_list.
Qed.

Lemma amzLines_ext (h1 h2 : Header) :
  (∀ k, isAmz k → h1 !! k = h2 !! k) → amzLines h1 = amzLines h2.
Proof.
  intros Hext. unfold amzLines. rewrite (amzKeys_ext h1 h2 Hext).
  assert (Hall : Forall isAmz (amzKeys h2)).
  { apply Forall_forall. intros k Hk. unfold amzKeys in Hk.
    rewrite SortStrings_Permutation in Hk.
    by apply (list_elem_of_filter isAmz) in Hk as [? _]. }
  induction Hall as [|k l Hk Hl IH]; [done|].
  cbn [foldr]. by rewrite IH, (Hext k Hk).
Qed.

(** X8. The string to sign depends on nothing but the method, the
    Content-MD5 and Content-Type values, the Date value unless an
    x-amz-date value is present, the headers whose lower-case name starts
    with x-amz-, the path and the signed part of the query: two requests
    that agree on these have the same string to sign. *)
Theorem string_to_sign_depends_only (r1 r2 : Request) :
  Method r1 = Method r2 →
  Header_Get (ReqHeader r1) "Content-MD5" = Header_Get (ReqHeader r2) "Content-MD5" →
  Header_Get (ReqHeader r1) "Content-Type" = Header_Get (ReqHeader r2) "Content-Type" →
  (Header_Get (ReqHeader r1) "x-amz-date" = EmptyString →
   Header_Get (ReqHeader r1) "Date" = Header_Get (ReqHeader r2) "Date") →
  (∀ k, isAmz k → ReqHeader r1 !! k = ReqHeader r2 !! k) →
  URLPath r1 = URLPath r2 →
  signableQuery (RawQuery r1) = signableQuery (RawQuery r2) →
  stringToSign r1 = stringToSign r2.
Proof.
  intros Hm Hmd5 Hct Hdate Hamz Hpath Hq. unfold stringToSign. cbv zeta.
  assert (Hx : Header_Get (ReqHeader r1) "x-amz-date" = Header_Get (ReqHeader r2) "x-amz-date").
  { unfold Header_Get. rewrite Hamz; [done|]. by vm_compute. }
  rewrite Hm, Hmd5, Hct, <- Hx, (amzLines_ext _ _ Hamz), Hpath, Hq.
  destruct (is_empty (Header_Get (ReqHeader r1) "x-amz-date")) eqn:He; [|done].
  by rewrite (Hdate (is_empty_true _ He)).
Qed.

(** With an x-amz-date header, the Date header is of no account. *)
Lemma string_to_sign_depends_only_witness :
  stringToSign (datedScenario "Tue, 27 Mar 2007 19:36:42 +0000")
  = stringToSign (datedScenario "Wed, 28 Mar 2007 01:29:59 +0000").
Proof.
  apply string_to_sign_depends_only; try reflexivity.
  - intros H. vm_compute in H. discriminate H.
  - intros k Hk. unfold datedScenario, withHeader, Header_Set. cbn [ReqHeader].
    destruct (decide (CanonicalMIMEHeaderKey "Date" = k)) as [<-|Hne].
    + vm_compute in Hk. discriminate Hk.
    + rewrite !(lookup_insert_ne _ _ _ _ Hne). reflexivity.
Defined.

End S3MoreFacts.

(** ** The quorum dispatcher: workers and the decision loop *)

Section QuorumMoreFacts.
Import Quorum.

Lemma deviceLoop_spec (reply : nat → Reply) (more : list Device) :
  ∀ n dev,
    let s := deviceLoop reply n dev more in
    dev :: more = called s ++ handoffsLeft s
    ∧ calls s = (n + length (called s))%nat
    ∧ (∀ i, (n ≤ i)%nat → (S i < calls s)%nat → retried reply i)
    ∧ (writing s = true → held s = None ∧ reply (pred (calls s)) = Ready)
    ∧ (writing s = false →
       match held s with
       | Some resp => reply (pred (calls s)) = Answer resp ∧ retry resp = false
       | None => handoffsLeft s = [] ∧ retried reply (pred (calls s))
       end).
Proof.
  assert (Hstop : ∀ n dev rest held' writing',
            (writing' = true → held' = None ∧ reply n = Ready) →
            (writing' = false →
             match held' with
             | Some resp => reply n = Answer resp ∧ retry resp = false
             | None => rest = [] ∧ retried reply n
             end) →
            let s := {| called := [dev]; held := held'; writing := writing';
                        calls := S n; handoffsLeft := rest |} in
            dev :: rest = called s ++ handoffsLeft s
            ∧ calls s = (n + length (called s))%nat
            ∧ (∀ i, (n ≤ i)%nat → (S i < calls s)%nat → retried reply i)
            ∧ (writing s = true → held s = None ∧ reply (pred (calls s)) = Ready)
            ∧ (writing s = false →
               match held s with
               | Some resp => reply (pred (calls s)) = Answer resp ∧ retry resp = false
               | None => handoffsLeft s = [] ∧ retried reply (pred (calls s))
               end)).
  { intros n dev rest held' writing' Hw Hh s. subst s. cbn.
    split; [done|]. split; [lia|]. split; [intros i ? ?; lia|]. by split. }
  induction more as [|next more IH]; intros n dev; cbn [deviceLoop].
  - destruct (reply n) as [resp|] eqn:Hr.
    + destruct (retry resp) eqn:Hb; apply Hstop; try done.
      intros _. split; [done|]. by exists resp.
    + by apply Hstop.
  - destruct (reply n) as [resp|] eqn:Hr.
    + destruct (retry resp) eqn:Hb; [|by apply Hstop].
      specialize (IH (S n) next). cbv zeta in IH.
      destruct IH as (Hd & Hc & Hi & Hw & Hh). cbv zeta.
      cbn [called held writing calls handoffsLeft].
      split; [cbn; by rewrite <- Hd|]. split; [cbn [length]; lia|].
      split; [|by split].
      intros i Hge Hlt. destruct (decide (i = n)) as [->|Hne].
      * by exists resp.
      * apply Hi; lia.
    + by apply Hstop.
Qed.

Lemma plain_not_writing (reply : nat → Reply) (more : list Device) :
  plain reply → ∀ n dev, writing (deviceLoop reply n dev more) = false.
Proof.
  intros Hp n dev.
  destruct (deviceLoop_spec reply more n dev) as (_ & _ & _ & Hw & _).
  destruct (writing _); [|done]. destruct (Hw eq_refl) as [_ Hr]. by apply Hp in Hr.
Qed.

Lemma retry_false_bounds (resp : Response) :
  retry resp = false ↔ 0 ≤ StatusCode resp < 500.
Proof. unfold retry. rewrite orb_false_iff, Z.leb_gt, Z.ltb_ge. lia. Qed.

Lemma work_spec (reply : nat → Reply) (dev : Device)
    (more : list Device) (final : option Response) :
  plain reply →
  let s := deviceLoop reply 0 dev more in
  dev :: more = called s ++ handoffsLeft s
  ∧ calls s = length (called s)
  ∧ (∀ i, (S i < calls s)%nat → retried reply i)
  ∧ match work reply dev more final with
    | Some resp =>
        reply (pred (calls s)) = Answer resp ∧ 0 ≤ StatusCode resp < 500
    | None =>
        called s = dev :: more ∧ ∀ i, (i < S (length more))%nat → retried reply i
    end.
Proof.
  intros Hp s. subst s.
  destruct (deviceLoop_spec reply more 0 dev) as (Hd & Hc & Hi & Hw & Hh).
  pose proof (plain_not_writing reply more Hp 0 dev) as Hnw.
  split; [done|]. split; [done|]. split; [intros i Hlt; apply Hi; lia|].
  unfold work, delivery. rewrite Hnw. specialize (Hh Hnw).
  destruct (held _) as [resp|].
  - destruct Hh as [Hr Hb]. split; [done|]. by apply retry_false_bounds.
  - destruct Hh as [Hnil Hlast]. rewrite Hnil, app_nil_r in Hd.
    split; [done|]. intros i Hlt.
    assert (Hlen : calls (deviceLoop reply 0 dev more) = S (length more))
      by (rewrite Hc, <- Hd; done).
    destruct (decide (S i = calls (deviceLoop reply 0 dev more))) as [Heq|Hne].
    + rewrite <- Heq in Hlast. exact Hlast.
    + apply Hi; lia.
Qed.

(** X9. A worker of a non-streaming write calls its primary device and
    then the handoff devices in the order the iterator yields them, moving
    on after each answer with a status of 500 or more (or below 0), and
    stops at the first other answer.  What it delivers to the quorumer is
    that answer, whose status is at least 0 and below 500; it delivers
    nothing exactly when every device it could call, the primary and all
    handoff devices, answered with a status to retry on. *)
Theorem worker_delivers_first_usable (reply : nat → Reply) (dev : Device)
    (more : list Device) (final : option Response) :
  plain reply →
  let s := deviceLoop reply 0 dev more in
  dev :: more = called s ++ handoffsLeft s
  ∧ calls s = length (called s)
  ∧ (∀ i, (S i < calls s)%nat → retried reply i)
  ∧ match work reply dev more final with
    | Some resp =>
        reply (pred (calls s)) = Answer resp ∧ 0 ≤ StatusCode resp < 500
    | None =>
        called s = dev :: more ∧ ∀ i, (i < S (length more))%nat → retried reply i
    end.
Proof. apply work_spec. Qed.

Lemma worker_delivers_first_usable_witness :
  plain twoFailures
  ∧ let s := deviceLoop twoFailures 0 deviceA [deviceB; deviceC] in
    deviceA :: [deviceB; deviceC] = called s ++ handoffsLeft s
    ∧ calls s = length (called s)
    ∧ (∀ i, (S i < calls s)%nat → retried twoFailures i)
    ∧ match work twoFailures deviceA [deviceB; deviceC] None with
      | Some resp =>
          twoFailures (pred (calls s)) = Answer resp ∧ 0 ≤ StatusCode resp < 500
      | None =>
          called s = deviceA :: [deviceB; deviceC]
          ∧ ∀ i, (i < S (length [deviceB; deviceC]))%nat → retried twoFailures i
      end.
Proof.
  assert (Hp : plain twoFailures) by (intros [|[|n]]; discriminate).
  exact (conj Hp (worker_delivers_first_usable twoFailures deviceA [deviceB; deviceC] None Hp)).
Defined.

(** The worker of the scenario calls all three devices and delivers the 201
    of the third. *)
Example worker_third_device_answers :
  called (deviceLoop twoFailures 0 deviceA [deviceB; deviceC]) = [deviceA; deviceB; deviceC]
  ∧ work twoFailures deviceA [deviceB; deviceC] None
    = Some {| StatusCode := 201; RespHeader := ∅; Body := EmptyString; BodyClosed := false |}.
Proof. split; vm_compute; reflexivity. Qed.

(** X10. A non-streaming quorum dispatch fed by its workers never panics:
    when every response on the schedule is one a worker of such a dispatch
    delivers, the dispatcher returns a response. *)
Theorem quorum_response_of_workers_returns (r : Ring) (partition : Z) (sched : Schedule) :
  (∀ x, Some x ∈ sched →
     ∃ reply dev more final, plain reply ∧ work reply dev more final = Some x) →
  ∃ resp qr, quorumResponse r partition sched = Ok (resp, qr).
Proof.
  intros Hw.
  destruct (newQuorumer_tallied r partition) as [Ht H6].
  pose proof (getResponseLoop_decided (workers (newQuorumer r partition))
                (newQuorumer r partition) sched Ht H6) as H.
  unfold quorumResponse, getResponse.
  destruct (getResponseLoop _ _ _) as [[resp qr]|]; [eauto|].
  destruct H as (x & [Hb|Hs] & Hbad); [cbn in Hb; by apply elem_of_nil in Hb|].
  destruct (Hw x Hs) as (reply & dev & more & final & Hp & Hx).
  pose proof (work_spec reply dev more final Hp) as Hspec.
  cbv zeta in Hspec. destruct Hspec as (_ & _ & _ & Hres).
  rewrite Hx in Hres. destruct Hres as [_ Hrange].
  unfold badStatus in Hbad. lia.
Qed.

Lemma quorum_response_of_workers_returns_witness :
  ∃ resp qr,
    quorumResponse singleRing 7
      [work twoFailures deviceA [deviceB; deviceC] None] = Ok (resp, qr).
Proof.
  apply quorum_response_of_workers_returns.
  intros x Hx. apply list_elem_of_singleton in Hx.
  exists twoFailures, deviceA, [deviceB; deviceC], None.
  split; [intros [|[|n]]; discriminate|]. by symmetry.
Defined.

Lemma getResponseLoop_early (iters : nat) :
  ∀ qr sched, tallied qr → sixClasses qr →
    (length (responses qr) + iters ≤ workers qr)%nat →
    match getResponseLoop iters qr sched with
    | Ok (resp, qr') =>
        resp = unavailable
        ∨ ∃ pre more, responses qr' = pre ++ more
                      ∧ (length pre < workers qr)%nat
                      ∧ resp ∈ pre
                      ∧ q qr ≤ usableInClass (statusClass resp) pre
    | Panic => True
    end.
Proof.
  induction iters as [|iters IH]; intros qr sched Ht H6 Hlen.
  { by left. }
  cbn [getResponseLoop].
  destruct (findQuorum _ _ _) as [[x|]|] eqn:Hf; [| |done].
  - apply findQuorum_found in Hf as (Hin & c & Hi & Hle).
    apply (index_ok qr _ _ Ht H6) in Hi as [Hk ->].
    destruct (finalize_returns x sched qr Ht H6)
      as (qr' & more & -> & Ht' & H6' & Hq' & Hr' & Hm).
    right. exists (responses qr), more. repeat split; try done. lia.
  - destruct (negb _); [by left|].
    destruct (0 <? _).
    + destruct sched as [|[response|] sched]; [by left| |by left].
      destruct (addResponse_tallied qr response Ht H6)
        as (qr1 & -> & Ht1 & H61 & Hr1 & Hq1 & Hw1).
      specialize (IH qr1 sched Ht1 H61).
      rewrite Hr1, length_app, Hq1, Hw1 in IH. cbn [length] in IH.
      apply IH. lia.
    + apply IH; [done..|lia].
Qed.

(** X11. The decision loop receives at most one response per worker and
    looks for a quorum only before a receive: a response other than the
    synthetic 503 is returned only if its class had reached the threshold
    among the responses received while at least one worker had not
    answered yet. *)
Theorem quorum_decided_before_last_answer (r : Ring) (partition : Z) (sched : Schedule) :
  match quorumResponse r partition sched with
  | Ok (resp, qr) =>
      resp = ResponseStub 503 "The service is currently unavailable."
      ∨ ∃ pre more,
          responses qr = pre ++ more
          ∧ (length pre < length (GetNodes r partition))%nat
          ∧ resp ∈ pre
          ∧ ceilHalf (ReplicaCount r) ≤ usableInClass (statusClass resp) pre
  | Panic => True
  end.
Proof.
  destruct (newQuorumer_tallied r partition) as [Ht H6].
  apply (getResponseLoop_early (workers (newQuorumer r partition))
           (newQuorumer r partition) sched Ht H6).
  cbn. lia.
Qed.

(** X12. Over a partition with a single primary device, a quorum dispatch
    answers the synthetic 503 whatever its worker delivers: the one receive
    the loop makes is not followed by a look at the tally. *)
Theorem single_primary_quorum_is_unavailable (r : Ring) (partition : Z) (sched : Schedule) :
  (length (GetNodes r partition) ≤ 1)%nat →
  ∃ qr, quorumResponse r partition sched
        = Ok (ResponseStub 503 "The service is currently unavailable.", qr).
Proof.
  intros Hone.
  destruct (newQuorumer_tallied r partition) as [Ht H6].
  unfold quorumResponse, getResponse.
  remember (newQuorumer r partition) as qr eqn:Hqr.
  assert (Hw : workers qr = length (GetNodes r partition)) by (by subst qr).
  assert (Hr : responses qr = []) by (by subst qr).
  destruct (length (GetNodes r partition)) as [|[|n]] eqn:Hn; [| |lia]; rewrite Hw.
  - cbn. eauto.
  - cbn [getResponseLoop]. rewrite Hr. cbn [findQuorum].
    destruct (negb _); [eauto|].
    destruct (0 <? _); [|eauto].
    destruct sched as [|[response|] sched]; [eauto| |eauto].
    destruct (addResponse_tallied qr response Ht H6) as (qr1 & -> & _). eauto.
Qed.

Lemma single_primary_quorum_is_unavailable_witness :
  (length (GetNodes singleRing 7) ≤ 1)%nat
  ∧ ∃ qr, quorumResponse singleRing 7 [Some (answered 201)]
          = Ok (ResponseStub 503 "The service is currently unavailable.", qr).
Proof.
  assert (H : (length (GetNodes singleRing 7) ≤ 1)%nat) by (cbn; lia).
  exact (conj H (single_primary_quorum_is_unavailable singleRing 7 [Some (answered 201)] H)).
Defined.

End QuorumMoreFacts.


(** ** The first-good-response dispatcher: the log *)

Section FirstResponseMoreFacts.
Import FirstResponse.

Lemma attempts_builtBy (replicas : nat) (f : Device → option Request)
    (devs : list Device) (todo : nat) :
  ∀ rc ie more sched,
    Forall (builtBy f) (attempts replicas f todo rc ie devs more sched).2.
Proof.
  induction todo as [|todo IH]; intros rc ie more sched; [constructor|].
  cbn [attempts].
  destruct (if (rc <? length devs)%nat then _ else _) as [[dev|] more'] eqn:Hd;
    [|constructor].
  destruct (f dev) as [req|] eqn:Hf.
  - destruct sched as [|[[resp|]|] sched].
    + constructor; [done|apply IH].
    + destruct (isTerminal resp); [by repeat constructor|].
      constructor; [done|apply IH].
    + constructor; [done|apply IH].
    + constructor; [done|apply IH].
  - constructor; [done|apply IH].
Qed.

(** X13. Every request a first-good-response dispatch hands to the HTTP
    client is the one its request factory built for the device drawn at
    that attempt, and an attempt without a request is one where the factory
    failed on the device drawn. *)
Theorem first_response_requests_built_by_factory (r : Ring) (partition : Z)
    (f : Device → option Request) (rand : nat → nat) (sched : list SelectEvent) :
  let log := (firstResponse r partition f rand sched).2 in
  Forall (builtBy f) log
  ∧ ∀ req, req ∈ launched log → ∃ dev, dev ∈ map attemptDevice log ∧ f dev = Some req.
Proof.
  intros log. subst log.
  pose proof (attempts_builtBy (ReplicaCount r) f (shuffle rand (GetNodes r partition))
                (ReplicaCount r + 2) 0 0 (GetMoreNodes r partition) sched) as Hall.
  fold (firstResponse r partition f rand sched) in Hall.
  split; [done|]. intros req Hin. unfold launched in Hin.
  apply list_elem_of_omap in Hin as (a & Ha & Hreq).
  rewrite Forall_forall in Hall. specialize (Hall a Ha).
  destruct a as [dev|dev req' ev]; [done|]. injection Hreq as ->.
  exists dev. split; [|done]. apply list_elem_of_In, in_map_iff.
  exists (Launched dev req ev). split; [done|]. by apply list_elem_of_In.
Qed.

Lemma attempts_all_timeouts (replicas : nat) (f : Device → option Request)
    (devs : list Device) (todo : nat) :
  (∀ dev, is_Some (f dev)) →
  ∀ rc ie more sched,
    Forall (λ ev, ev = TimedOut) sched →
    (attempts replicas f todo rc ie devs more sched).1 = finish replicas ie
    ∧ Forall timedOut (attempts replicas f todo rc ie devs more sched).2.
Proof.
  intros Hf. induction todo as [|todo IH]; intros rc ie more sched Hs.
  { split; [done|constructor]. }
  cbn [attempts].
  destruct (if (rc <? length devs)%nat then _ else _) as [[dev|] more'] eqn:Hd;
    [|split; [done|constructor]].
  destruct (Hf dev) as [req ->].
  destruct sched as [|ev sched].
  - destruct (IH (S rc) ie more' [] Hs) as [Ho Hl].
    split; [done|]. constructor; [by exists dev, req|done].
  - inversion Hs as [|? ? -> Hs']; subst.
    destruct (IH (S rc) ie more' sched Hs') as [Ho Hl].
    split; [done|]. constructor; [by exists dev, req|done].
Qed.

(** X14. Silence is not an error: when every request can be built and
    every attempt ends on the one-second timer with nothing received, the
    dispatch launches a request to each of the first replica count + 2
    devices of its order and answers a synthetic 404, not a 503, for any
    replica count of at least 1. *)
Theorem first_response_silence_is_404 (r : Ring) (partition : Z)
    (f : Device → option Request) (rand : nat → nat) (sched : list SelectEvent) :
  (∀ dev, is_Some (f dev)) →
  Forall (λ ev, ev = TimedOut) sched →
  (0 < ReplicaCount r)%nat →
  let res := firstResponse r partition f rand sched in
  res.1 = Synthetic 404
  ∧ Forall timedOut res.2
  ∧ map attemptDevice res.2
    = take (ReplicaCount r + 2)
        (shuffle rand (GetNodes r partition) ++ GetMoreNodes r partition).
Proof.
  intros Hf Hs Hpos res. subst res.
  destruct (attempts_all_timeouts (ReplicaCount r) f (shuffle rand (GetNodes r partition))
              (ReplicaCount r + 2) Hf 0 0 (GetMoreNodes r partition) sched Hs) as [Ho Hl].
  fold (firstResponse r partition f rand sched) in Ho, Hl.
  assert (Hout : (firstResponse r partition f rand sched).1 = Synthetic 404).
  { rewrite Ho. unfold finish. destruct (Z.leb_spec (Z.of_nat (ReplicaCount r)) 0); [lia|done]. }
  split; [done|]. split; [done|].
  destruct (firstResponse_loopSpec r partition f rand sched)
    as (_ & _ & [(resp & pre & dev & req & Hrep & _)|(_ & _ & Hall)]); [congruence|done].
Qed.

Lemma first_response_silence_is_404_witness :
  ((∀ dev, is_Some (plainGet dev))
   ∧ Forall (λ ev, ev = TimedOut) [TimedOut; TimedOut]
   ∧ (0 < ReplicaCount ring1)%nat)
  ∧ (firstResponse ring1 7 plainGet (λ _, 0%nat) [TimedOut; TimedOut]).1 = Synthetic 404.
Proof.
  assert (H1 : ∀ dev, is_Some (plainGet dev)) by (intros dev; by eexists).
  assert (H2 : Forall (λ ev, ev = TimedOut) [TimedOut; TimedOut]) by (by repeat constructor).
  assert (H3 : (0 < ReplicaCount ring1)%nat) by (cbn; lia).
  split; [done|].
  apply (first_response_silence_is_404 ring1 7 plainGet (λ _, 0%nat) _ H1 H2 H3).
Defined.

End FirstResponseMoreFacts.

(** ** The RPC layer: listing-update headers, header copy, policies *)

Section ClientMoreFacts.
Import Quorum FirstResponse Client.

Lemma append_empty_r (s : string) : s +:+ EmptyString = s.
Proof. induction s as [|a s IH]; [done|]. rewrite append_cons. by f_equal. Qed.

Lemma striped_shift (devices : list Device) (i replicas : nat) (l : list nat) :
  omap (λ k, devices !! (i + k * replicas)%nat) (S <$> l)
  = omap (λ k, devices !! (i + replicas + k * replicas)%nat) l.
Proof.
  induction l as [|k l IH]; [done|]. csimpl.
  replace (i + (replicas + k * replicas))%nat with (i + replicas + k * replicas)%nat by lia.
  by rewrite IH.
Qed.

Lemma striped_step (devices : list Device) (i replicas n : nat) :
  omap (λ k, devices !! (i + k * replicas)%nat) (seq 0 (S n))
  = match devices !! i with
    | Some d => d :: omap (λ k, devices !! (i + replicas + k * replicas)%nat) (seq 0 n)
    | None => omap (λ k, devices !! (i + replicas + k * replicas)%nat) (seq 0 n)
    end.
Proof.
  rewrite <- cons_seq, <- fmap_S_seq. csimpl. rewrite striped_shift.
  replace (i + 0)%nat with i by lia. by destruct (devices !! i).
Qed.

Lemma striped_beyond (devices : list Device) (i replicas n : nat) :
  (length devices ≤ i)%nat →
  omap (λ k, devices !! (i + k * replicas)%nat) (seq 0 n) = [].
Proof.
  intros Hge. induction (seq 0 n) as [|k l IH]; [done|]. csimpl.
  rewrite lookup_ge_None_2 by lia. exact IH.
Qed.

Lemma hostEntries_cons (d : Device) (l : list Device) (acc : string) :
  (acc +:+ Ip d +:+ ":" +:+ Itoa (Port d) +:+ ",") +:+ hostEntries l
  = acc +:+ hostEntries (d :: l).
Proof. cbn [hostEntries foldr]. by rewrite !append_assoc3. Qed.

Lemma deviceEntries_cons (d : Device) (l : list Device) (acc : string) :
  (acc +:+ DeviceName d +:+ ",") +:+ deviceEntries l = acc +:+ deviceEntries (d :: l).
Proof. cbn [deviceEntries foldr]. by rewrite !append_assoc3. Qed.

Lemma stripe_spec (devices : list Device) (replicas : nat) :
  (0 < replicas)%nat →
  ∀ fuel i host device,
    (length devices ≤ i + fuel)%nat →
    stripe fuel devices i replicas host device
    = Some (host +:+ hostEntries (omap (λ k, devices !! (i + k * replicas)%nat) (seq 0 fuel)),
            device +:+ deviceEntries (omap (λ k, devices !! (i + k * replicas)%nat) (seq 0 fuel))).
Proof.
  intros Hpos. induction fuel as [|fuel IH]; intros i host device Hlen.
  - cbn. rewrite lookup_ge_None_2 by lia. by rewrite !append_empty_r.
  - rewrite striped_step. cbn [stripe].
    destruct (devices !! i) as [d|] eqn:Hd.
    + rewrite IH by lia. by rewrite hostEntries_cons, deviceEntries_cons.
    + apply lookup_ge_None_1 in Hd.
      rewrite striped_beyond by lia. cbn. by rewrite !append_empty_r.
Qed.

Lemma TrimRight_append (s t : string) (c : ascii) :
  TrimRight t c ≠ EmptyString → TrimRight (s +:+ t) c = s +:+ TrimRight t c.
Proof.
  intros Hne. induction s as [|a s IH]; [by rewrite !append_empty|].
  rewrite !append_cons. cbn [TrimRight]. rewrite IH.
  destruct (s +:+ TrimRight t c) eqn:Hs; [|done].
  destruct s; [by rewrite append_empty in Hs|by rewrite append_cons in Hs].
Qed.

Lemma TrimRight_clean (n : string) (c : ascii) :
  n ≠ EmptyString → last_byte n ≠ Some c → TrimRight (n +:+ String c EmptyString) c = n.
Proof.
  induction n as [|a n IH]; [done|]. intros _ Hlast.
  rewrite append_cons. cbn [TrimRight].
  destruct n as [|b n].
  - rewrite append_empty. cbn [TrimRight]. rewrite Ascii.eqb_refl.
    destruct (Ascii.eqb_spec a c) as [->|Hne]; [by cbn in Hlast|done].
  - rewrite IH; [done|done|]. exact Hlast.
Qed.

Lemma Join_cons (x y : string) (l : list string) (sep : string) :
  Join (x :: y :: l) sep = x +:+ sep +:+ Join (y :: l) sep.
Proof. reflexivity. Qed.

Lemma Join_nonempty (l : list string) (sep : string) :
  l ≠ [] → Forall (λ x, x ≠ EmptyString) l → Join l sep ≠ EmptyString.
Proof.
  destruct l as [|x [|y l]]; [done| |]; intros _ Hall; inversion Hall as [|? ? Hx _]; subst.
  - done.
  - rewrite Join_cons. destruct x; [done|]. by rewrite append_cons.
Qed.

Lemma TrimRight_deviceEntries (l : list Device) :
  l ≠ [] → Forall cleanName l →
  TrimRight (deviceEntries l) "," = Join (map DeviceName l) ",".
Proof.
  induction l as [|d l IH]; [done|]. intros _ Hall.
  inversion Hall as [|? ? [Hne Hlast] Hl]; subst.
  cbn [deviceEntries foldr]. fold (deviceEntries l).
  destruct l as [|d' l].
  - cbn [deviceEntries foldr map Join]. rewrite append_cons, append_empty.
    by apply TrimRight_clean.
  - assert (Hrest : TrimRight (deviceEntries (d' :: l)) "," = Join (map DeviceName (d' :: l)) ",")
      by (by apply IH).
    assert (Hnz : TrimRight (deviceEntries (d' :: l)) "," ≠ EmptyString).
    { rewrite Hrest. apply Join_nonempty; [done|].
      apply Forall_forall. intros x Hx. apply list_elem_of_In, in_map_iff in Hx as (y & <- & Hy).
      rewrite Forall_forall in Hl. apply list_elem_of_In in Hy. by apply Hl. }
    rewrite <- (append_assoc3 (DeviceName d) "," (deviceEntries (d' :: l))).
    rewrite (TrimRight_append _ _ _ Hnz), Hrest.
    change (map DeviceName (d :: d' :: l)) with (DeviceName d :: map DeviceName (d' :: l)).
    cbn [map]. rewrite Join_cons. by rewrite append_assoc3.
Qed.

Lemma striped_elem (devices : list Device) (i replicas : nat) (d : Device) :
  d ∈ striped devices i replicas → d ∈ devices.
Proof.
  unfold striped. intros (k & _ & Hk)%list_elem_of_omap.
  by apply list_elem_of_lookup_2 in Hk.
Qed.

Lemma striped_head (devices : list Device) (i replicas : nat) (d : Device) :
  devices !! i = Some d → ∃ rest, striped devices i replicas = d :: rest.
Proof.
  intros Hd. unfold striped.
  destruct (length devices) as [|n] eqn:Hn.
  - apply lookup_lt_Some in Hd. lia.
  - rewrite striped_step, Hd. eauto.
Qed.

(** X15. For a positive replica count, [addUpdateHeaders] at a worker index
    below the number of listing devices sets the Host and Device headers of
    the prefix to the comma-separated entries of the listing devices at the
    positions index, index + replicas, index + 2 replicas and so on, without
    the trailing comma: the Device header is the device names of those
    devices joined by commas when no name is empty or ends with a comma.
    At an index that is not below the number of devices the headers are
    left as they are.  Every listing device is on the stripe of its position
    modulo the replica count. *)
Theorem listing_update_headers_stripe (prefix : string) (h : Header)
    (devices : list Device) (i replicas : nat) :
  (0 < replicas)%nat →
  CanonicalMIMEHeaderKey (prefix +:+ "-Host") ≠ CanonicalMIMEHeaderKey (prefix +:+ "-Device") →
  (∃ h', addUpdateHeaders prefix h devices i replicas = Some h'
         ∧ if (i <? length devices)%nat
           then Header_Get h' (prefix +:+ "-Host")
                = TrimRight (hostEntries (striped devices i replicas)) ","
                ∧ Header_Get h' (prefix +:+ "-Device")
                  = TrimRight (deviceEntries (striped devices i replicas)) ","
                ∧ (Forall cleanName devices →
                   Header_Get h' (prefix +:+ "-Device")
                   = Join (map DeviceName (striped devices i replicas)) ",")
           else h' = h)
  ∧ ∀ j d, devices !! j = Some d → d ∈ striped devices (j mod replicas) replicas.
Proof.
  intros Hpos Hkeys. split.
  - unfold addUpdateHeaders.
    destruct (Nat.ltb_spec i (length devices)) as [Hlt|Hge]; [|eauto].
    rewrite (stripe_spec devices replicas Hpos (length devices) i) by lia.
    rewrite !append_empty. fold (striped devices i replicas).
    eexists. split; [reflexivity|].
    assert (Hdev : Header_Get
                     (Header_Set (Header_Set h (prefix +:+ "-Host")
                                    (TrimRight (hostEntries (striped devices i replicas)) ","))
                        (prefix +:+ "-Device")
                        (TrimRight (deviceEntries (striped devices i replicas)) ","))
                     (prefix +:+ "-Device")
                   = TrimRight (deviceEntries (striped devices i replicas)) ",")
      by apply Header_Get_Set_eq.
    split; [|split; [exact Hdev|]].
    + rewrite Header_Get_Set_ne by (intros E; by apply Hkeys).
      apply Header_Get_Set_eq.
    + intros Hclean. rewrite Hdev. apply TrimRight_deviceEntries.
      * destruct (lookup_lt_is_Some_2 devices i Hlt) as [d Hd].
        destruct (striped_head devices i replicas d Hd) as [rest ->]. done.
      * apply Forall_forall. intros d Hd. rewrite Forall_forall in Hclean.
        by apply Hclean, (striped_elem devices i replicas).
  - intros j d Hd. unfold striped. apply list_elem_of_omap.
    exists (j / replicas)%nat. split.
    + apply elem_of_seq. pose proof (lookup_lt_Some _ _ _ Hd).
      pose proof (Nat.Div0.div_le_upper_bound j replicas j).
      assert (j / replicas ≤ j)%nat by (apply Nat.Div0.div_le_upper_bound; nia).
      lia.
    + rewrite <- Hd. f_equal. pose proof (Nat.div_mod_eq j replicas). lia.
Qed.

Lemma listing_update_headers_stripe_witness :
  ((0 < 3)%nat
   ∧ CanonicalMIMEHeaderKey ("X-Account" +:+ "-Host")
     ≠ CanonicalMIMEHeaderKey ("X-Account" +:+ "-Device"))
  ∧ (∃ h', addUpdateHeaders "X-Account" ∅ fourDevices 0 3 = Some h'
           ∧ if (0 <? length fourDevices)%nat
             then Header_Get h' ("X-Account" +:+ "-Host")
                  = TrimRight (hostEntries (striped fourDevices 0 3)) ","
                  ∧ Header_Get h' ("X-Account" +:+ "-Device")
                    = TrimRight (deviceEntries (striped fourDevices 0 3)) ","
                  ∧ (Forall cleanName fourDevices →
                     Header_Get h' ("X-Account" +:+ "-Device")
                     = Join (map DeviceName (striped fourDevices 0 3)) ",")
             else h' = ∅)
    ∧ ∀ j d, fourDevices !! j = Some d → d ∈ striped fourDevices (j mod 3) 3.
Proof.
  assert (H1 : (0 < 3)%nat) by lia.
  assert (H2 : CanonicalMIMEHeaderKey ("X-Account" +:+ "-Host")
               ≠ CanonicalMIMEHeaderKey ("X-Account" +:+ "-Device"))
    by (vm_compute; discriminate).
  exact (conj (conj H1 H2)
              (listing_update_headers_stripe "X-Account" ∅ fourDevices 0 3 H1 H2)).
Defined.

(** Four account devices and three container replicas: the first worker
    names the first and the fourth device. *)
Example listing_update_headers_first_worker :
  addUpdateHeaders "X-Account" ∅ fourDevices 0 3
  = Some {[ "X-Account-Host" := ["10.0.0.1:6002,10.0.0.4:6002"];
            "X-Account-Device" := ["sda,sdd"] ]}.
Proof. vm_compute. reflexivity. Qed.

Lemma copy_lookup (headers : Header) (keys : list string) :
  (∀ x, x ∈ keys → CanonicalMIMEHeaderKey x = x) →
  ∀ (acc : Header) k,
    foldl (λ h key, Header_Set h key (Header_Get headers key)) acc keys !! k
    = if decide (k ∈ keys) then Some [Header_Get headers k] else acc !! k.
Proof.
  induction keys as [|x keys IH]; intros Hcanon acc k.
  - cbn. by rewrite decide_False by apply not_elem_of_nil.
  - cbn [foldl]. rewrite IH by (intros y Hy; apply Hcanon; by right).
    destruct (decide (k ∈ keys)) as [Hin|Hnin].
    + by rewrite decide_True by (by right).
    + unfold Header_Set. rewrite (Hcanon x) by left.
      destruct (decide (x = k)) as [->|Hne].
      * rewrite lookup_insert_eq. by rewrite decide_True by left.
      * rewrite lookup_insert_ne by done.
        rewrite decide_False; [done|]. intros [->|?]%elem_of_cons; done.
Qed.

Lemma canon_byte_valid (up : bool) (c : ascii) :
  validHeaderFieldByte c = true →
  validHeaderFieldByte (if up then upper_byte c else lower_byte c) = true.
Proof.
  destruct up; destruct c as [[] [] [] [] [] [] [] []]; vm_compute; congruence.
Qed.

Lemma canon_byte_again (up : bool) (c : ascii) :
  let c' := if up then upper_byte c else lower_byte c in
  (if up then upper_byte c' else lower_byte c') = c'.
Proof.
  destruct up; destruct c as [[] [] [] [] [] [] [] []]; vm_compute; congruence.
Qed.

Lemma canon_bytes_valid (s : string) :
  ∀ up, all_bytes validHeaderFieldByte s = true →
        all_bytes validHeaderFieldByte (canon_bytes up s) = true.
Proof.
  induction s as [|c s IH]; intros up Hv; [done|].
  cbn [all_bytes canon_bytes] in *. apply andb_true_iff in Hv as [Hc Hs].
  apply andb_true_iff. split; [by apply canon_byte_valid|by apply IH].
Qed.

Lemma canon_bytes_again (s : string) :
  ∀ up, canon_bytes up (canon_bytes up s) = canon_bytes up s.
Proof.
  induction s as [|c s IH]; intros up; [done|].
  cbn [canon_bytes]. pose proof (canon_byte_again up c) as Hc. cbv zeta in Hc.
  rewrite Hc. f_equal. apply IH.
Qed.

(** The canonical form of a header name is its own canonical form. *)
Lemma CanonicalMIMEHeaderKey_idempotent (s : string) :
  CanonicalMIMEHeaderKey (CanonicalMIMEHeaderKey s) = CanonicalMIMEHeaderKey s.
Proof.
  unfold CanonicalMIMEHeaderKey.
  destruct (all_bytes validHeaderFieldByte s) eqn:Hv.
  - rewrite (canon_bytes_valid s true Hv). apply canon_bytes_again.
  - by rewrite Hv.
Qed.

Lemma Header_Get_canonical (h : Header) (k : string) :
  Header_Get h (CanonicalMIMEHeaderKey k) = Header_Get h k.
Proof. unfold Header_Get. by rewrite CanonicalMIMEHeaderKey_idempotent. Qed.

Lemma copy_lookup_any (headers : Header) (keys : list string) (K : string) :
  ∀ acc : Header,
    foldl (λ h key, Header_Set h key (Header_Get headers key)) acc keys !! K
    = if decide (Exists (λ x, CanonicalMIMEHeaderKey x = K) keys)
      then Some [Header_Get headers K] else acc !! K.
Proof.
  induction keys as [|x keys IH]; intros acc.
  - cbn. rewrite decide_False; [done|]. by intros ?%Exists_nil.
  - cbn [foldl]. rewrite IH.
    destruct (decide (Exists (λ y, CanonicalMIMEHeaderKey y = K) keys)) as [Hin|Hnin].
    + by rewrite decide_True by (by right).
    + unfold Header_Set.
      destruct (decide (CanonicalMIMEHeaderKey x = K)) as [Hx|Hx].
      * rewrite Hx, lookup_insert_eq.
        rewrite decide_True by (by left).
        by rewrite <- Hx, Header_Get_canonical.
      * rewrite lookup_insert_ne by done.
        rewrite decide_False; [done|]. by intros [?|?]%Exists_cons.
Qed.

(** What [Header.Get] reads from the headers of a request just built is
    what it reads from the caller's headers. *)
Lemma copy_Header_Get (headers : Header) (k : string) :
  Header_Get
    (foldl (λ h key, Header_Set h key (Header_Get headers key)) ∅ (map_to_list headers).*1) k
  = Header_Get headers k.
Proof.
  unfold Header_Get at 1. rewrite copy_lookup_any.
  destruct (decide (Exists _ _)) as [Hex|Hno].
  - apply Header_Get_canonical.
  - rewrite lookup_empty. unfold Header_Get.
    destruct (headers !! CanonicalMIMEHeaderKey k) as [vs|] eqn:Hk; [|done].
    exfalso. apply Hno, Exists_exists. exists (CanonicalMIMEHeaderKey k).
    split; [|apply CanonicalMIMEHeaderKey_idempotent].
    apply list_elem_of_fmap. exists (CanonicalMIMEHeaderKey k, vs).
    split; [done|]. by apply elem_of_map_to_list.
Qed.

Lemma copy_first_values (headers : Header) :
  (∀ k, is_Some (headers !! k) → CanonicalMIMEHeaderKey k = k) →
  foldl (λ h key, Header_Set h key (Header_Get headers key)) ∅ (map_to_list headers).*1
  = (λ vs, [default EmptyString (head vs)]) <$> headers.
Proof.
  intros Hcanon. apply map_eq. intros k.
  rewrite copy_lookup.
  - rewrite lookup_fmap. destruct (headers !! k) as [vs|] eqn:Hk.
    + rewrite decide_True.
      * cbn. unfold Header_Get. rewrite (Hcanon k) by eauto. rewrite Hk. by destruct vs.
      * apply list_elem_of_fmap. exists (k, vs). split; [done|]. by apply elem_of_map_to_list.
    + rewrite decide_False; [done|].
      intros ([k' vs] & -> & Hin)%list_elem_of_fmap.
      apply elem_of_map_to_list in Hin. cbn in Hk. congruence.
  - intros x ([k' vs] & -> & Hin)%list_elem_of_fmap.
    apply elem_of_map_to_list in Hin. apply Hcanon. eauto.
Qed.

(** X16. The header copy of a request factory forwards one value per
    header: for caller headers stored under canonical names, the request
    built carries, under each name, the first value of the caller's header
    alone (the empty string for a header without values), and no other
    header; no request is built for a target that is not accepted. *)
Theorem new_request_copies_first_values (validURL : string → bool)
    (method url : string) (headers : Header) :
  (∀ k, is_Some (headers !! k) → CanonicalMIMEHeaderKey k = k) →
  newRequest validURL method url headers
  = if validURL url
    then Some {| Method := method; URL := url;
                 ReqHeader := (λ vs, [default EmptyString (head vs)]) <$> headers |}
    else None.
Proof.
  intros Hcanon. unfold newRequest. destruct (validURL url); [|done].
  by rewrite copy_first_values.
Qed.

Lemma new_request_copies_first_values_witness :
  (∀ k, is_Some (repeatedHeaders !! k) → CanonicalMIMEHeaderKey k = k)
  ∧ newRequest anyURL "POST" "http://10.0.0.1:6001/sda/7/a/c" repeatedHeaders
    = Some {| Method := "POST"; URL := "http://10.0.0.1:6001/sda/7/a/c";
              ReqHeader := {[ "X-Container-Meta-Color" := ["red"];
                              "Content-Type" := ["text/plain"] ]} |}.
Proof.
  assert (H : ∀ k, is_Some (repeatedHeaders !! k) → CanonicalMIMEHeaderKey k = k).
  { intros k [vs Hk]. unfold repeatedHeaders in Hk.
    apply lookup_insert_Some in Hk as [[<- _]|[_ Hk]]; [by vm_compute|].
    apply lookup_singleton_Some in Hk as [<- _]. by vm_compute. }
  split; [exact H|].
  rewrite (new_request_copies_first_values anyURL "POST" _ repeatedHeaders H).
  vm_compute. reflexivity.
Defined.

Lemma findPolicy_spec (policies : list Policy) (policyName : string) :
  match findPolicy policies policyName with
  | Some p => p ∈ policies ∧ Name p = policyName
  | None => ∀ p, p ∈ policies → Name p ≠ policyName
  end.
Proof.
  unfold findPolicy.
  destruct (filter (λ v, Name v = policyName) policies) as [|p l] eqn:Hf; cbn.
  - intros p Hp Hn.
    assert (Hin : p ∈ filter (λ v, Name v = policyName) policies)
      by (by apply list_elem_of_filter).
    rewrite Hf in Hin. by apply elem_of_nil in Hin.
  - assert (Hin : p ∈ filter (λ v, Name v = policyName) policies) by (rewrite Hf; left).
    apply list_elem_of_filter in Hin as [? ?]. done.
Qed.

(** X17. A container PUT that names a storage policy: when no policy of
    the list has that name, or the first one that has it is deprecated, the
    call answers 400 without any dispatch, whatever the backends would say;
    otherwise it dispatches, and every request its factory builds carries
    the index of that policy in X-Backend-Storage-Policy-Index. *)
Theorem put_container_resolves_policy (Urlencode : string → string)
    (validURL : string → bool) (LoadPolicies : list Policy)
    (c : ProxyDirectClient) (account container : string) (headers : Header) :
  Header_Get headers "X-Storage-Policy" ≠ EmptyString →
  let policyName := Header_Get headers "X-Storage-Policy" in
  let policies := effectivePolicies LoadPolicies c in
  let plan := PutContainerPlan Urlencode validURL LoadPolicies c account container headers in
  ((∀ p, p ∈ policies → Name p ≠ policyName) →
   ∃ resp, plan = Reject resp ∧ StatusCode resp = 400
           ∧ ∀ sched, (PutContainer Urlencode validURL LoadPolicies c account container
                        headers sched).1 = Ok resp)
  ∧ (∀ p, findPolicy policies policyName = Some p →
       p ∈ policies ∧ Name p = policyName
       ∧ if Deprecated p
         then ∃ resp, plan = Reject resp ∧ StatusCode resp = 400
                      ∧ ∀ sched, (PutContainer Urlencode validURL LoadPolicies c account
                                    container headers sched).1 = Ok resp
         else ∃ factory,
                plan = Dispatch (ContainerRing c)
                         (GetPartition (ContainerRing c) account container EmptyString)
                         factory
                ∧ ∀ i dev req, factory i dev = Req req →
                    Header_Get (ReqHeader req) "X-Backend-Storage-Policy-Index"
                    = Itoa (Index p)).
Proof.
  intros Hne policyName policies plan. subst policyName policies plan.
  unfold PutContainer, PutContainerPlan. rewrite (is_empty_false _ Hne).
  pose proof (findPolicy_spec (effectivePolicies LoadPolicies c)
                (Header_Get headers "X-Storage-Policy")) as Hfind.
  split.
  - intros Hnone.
    destruct (findPolicy _ _) as [p|]; [destruct Hfind as [Hin Hn]; by apply Hnone in Hin|].
    eexists. split; [reflexivity|]. split; [done|]. done.
  - intros p Hp. rewrite Hp in Hfind |- *. destruct Hfind as [Hin Hn].
    split; [done|]. split; [done|].
    destruct (Deprecated p).
    + eexists. split; [reflexivity|]. split; [done|]. done.
    + eexists. split; [reflexivity|].
      intros i dev req Hreq.
      by apply putContainerRequest_policy_headers in Hreq as [? _].
Qed.

Lemma put_container_resolves_policy_witness :
  Header_Get (policyHeaders "old") "X-Storage-Policy" ≠ EmptyString
  ∧ (PutContainer noEscape anyURL [] threePolicyClient "AUTH_test" "photos"
       (policyHeaders "old") [Some (answered 201)]).1
    = Ok (ResponseStub 400
            ("Storage Policy " +:+ String dquote ("old" +:+ String dquote " is deprecated"))).
Proof.
  assert (H : Header_Get (policyHeaders "old") "X-Storage-Policy" ≠ EmptyString)
    by (vm_compute; discriminate).
  split; [exact H|].
  pose proof (put_container_resolves_policy noEscape anyURL [] threePolicyClient
                "AUTH_test" "photos" (policyHeaders "old") H) as Hthm.
  cbv zeta in Hthm. destruct Hthm as [_ Hsome].
  destruct (Hsome oldPolicy) as (_ & _ & Hdep); [vm_compute; reflexivity|].
  cbn [Deprecated oldPolicy] in Hdep. destruct Hdep as (resp & Hplan & _ & Hall).
  rewrite (Hall [Some (answered 201)]). f_equal.
  assert (Hr : Reject resp
               = Reject (ResponseStub 400
                   ("Storage Policy " +:+ String dquote ("old" +:+ String dquote " is deprecated")))).
  { rewrite <- Hplan. vm_compute. reflexivity. }
  by injection Hr.
Defined.

End ClientMoreFacts.


(** ** The container-info cache: hits, misses, errors *)

Section CacheMoreFacts.
Import Quorum FirstResponse Client Facade.

Lemma lookupTiers_filled (key : string) (cs : Caches) (ci : ContainerInfo)
    (seconds : Z) :
  lookupTiers key cs = Nil →
  is_Some (mc cs) →
  lookupTiers key
    (later seconds {| mc := (λ m, mc_Set m key ci 30) <$> mc cs; lc := lc cs |})
  = if seconds <? 30 then Ptr ci else Nil.
Proof.
  intros Hl [m Hm]. unfold lookupTiers in *. cbn [later lc mc]. rewrite Hm in *.
  assert (Hlc : match lc cs with
                | Some l => default Nil (l !! key)
                | None => Nil
                end = Nil).
  { destruct (match lc cs with Some l => _ | None => _ end); done. }
  rewrite Hlc. cbn [fmap option_fmap option_map].
  unfold mc_GetStructured, elapse, mc_Set.
  rewrite lookup_fmap, lookup_insert_eq. cbn [fmap option_fmap option_map entryTTL entryValue].
  destruct (Z.ltb_spec seconds 30), (Z.ltb_spec 0 (30 - seconds)); try done; lia.
Qed.

(** X18. A ContainerInfo filled from the backend is served from the shared
    cache until its thirty seconds have run out, and no longer.  When both
    tiers missed, a shared cache is present and the call succeeded, a call
    made fewer than 30 seconds later returns the same ContainerInfo
    whatever the backends do and leaves the tiers as they are; a call made
    30 seconds later or more does not find the entry and gives what a call
    without any tier gives. *)
Theorem container_info_cached_until_expiry (Urlencode : string → string)
    (validURL : string → bool)
    (c : ProxyDirectClient) (account container : string) (cs cs' : Caches)
    (rand : nat → nat) (sched : list SelectEvent) (ci : ContainerInfo) :
  lookupTiers (cacheKey account container) cs = Nil →
  is_Some (mc cs) →
  GetContainerInfo Urlencode validURL c account container cs rand sched = (inl ci, cs') →
  ∀ seconds rand' sched',
    if seconds <? 30
    then GetContainerInfo Urlencode validURL c account container (later seconds cs')
           rand' sched'
         = (inl ci, later seconds cs')
    else (GetContainerInfo Urlencode validURL c account container (later seconds cs')
            rand' sched').1
         = (GetContainerInfo Urlencode validURL c account container noTiers
              rand' sched').1.
Proof.
  intros Hl Hm Hget seconds rand' sched'.
  assert (Hcs : cs' = {| mc := (λ m, mc_Set m (cacheKey account container) ci 30) <$> mc cs;
                         lc := lc cs |}).
  { unfold GetContainerInfo in Hget. rewrite Hl in Hget.
    destruct (negb _); [done|].
    destruct (fillInfo _) as [ci1|e]; [|done]. by injection Hget as <- <-. }
  pose proof (lookupTiers_filled (cacheKey account container) cs ci seconds Hl Hm) as Hl'.
  rewrite <- Hcs in Hl'. unfold GetContainerInfo. rewrite Hl'.
  destruct (seconds <? 30); [done|].
  change (lookupTiers (cacheKey account container) noTiers) with Nil.
  destruct (negb _); [done|]. by destruct (fillInfo _).
Qed.

Lemma container_info_cached_until_expiry_witness :
  (lookupTiers (cacheKey "AUTH_test" "photos") emptyTiers = Nil
   ∧ is_Some (mc emptyTiers)
   ∧ GetContainerInfo noEscape anyURL goldClient "AUTH_test" "photos" emptyTiers
       (λ _, 0%nat) [Received (Some headScenario)]
     = (inl headScenarioInfo,
        {| mc := Some {[ "container/AUTH_test/photos"
                         := {| entryValue := headScenarioInfo; entryTTL := 30 |} ]};
           lc := Some ∅ |}))
  ∧ GetContainerInfo noEscape anyURL goldClient "AUTH_test" "photos"
      (later 10 {| mc := Some {[ "container/AUTH_test/photos"
                                 := {| entryValue := headScenarioInfo; entryTTL := 30 |} ]};
                   lc := Some ∅ |})
      (λ _, 0%nat) []
    = (inl headScenarioInfo,
       later 10 {| mc := Some {[ "container/AUTH_test/photos"
                                 := {| entryValue := headScenarioInfo; entryTTL := 30 |} ]};
                   lc := Some ∅ |}).
Proof.
  assert (H1 : lookupTiers (cacheKey "AUTH_test" "photos") emptyTiers = Nil)
    by (vm_compute; reflexivity).
  assert (H2 : is_Some (mc emptyTiers)) by (by eexists).
  assert (H3 : GetContainerInfo noEscape anyURL goldClient "AUTH_test" "photos" emptyTiers
                 (λ _, 0%nat) [Received (Some headScenario)]
               = (inl headScenarioInfo,
                  {| mc := Some {[ "container/AUTH_test/photos"
                                   := {| entryValue := headScenarioInfo; entryTTL := 30 |} ]};
                     lc := Some ∅ |})) by (vm_compute; reflexivity).
  exact (conj (conj H1 (conj H2 H3))
              (container_info_cached_until_expiry noEscape anyURL goldClient
                 "AUTH_test" "photos" _ _ _ _ _ H1 H2 H3 10 (λ _, 0%nat) [])).
Defined.

(** The same entry thirty seconds after the fill: it has expired, and with
    backends that do not answer the call fails. *)
Example container_info_expired_scenario :
  (GetContainerInfo noEscape anyURL goldClient "AUTH_test" "photos"
     (later 30 {| mc := Some {[ "container/AUTH_test/photos"
                                := {| entryValue := headScenarioInfo; entryTTL := 30 |} ]};
                  lc := Some ∅ |})
     (λ _, 0%nat) []).1
  = inr (HeadFailed 404).
Proof. vm_compute. reflexivity. Qed.

Lemma GetContainerInfo_error_keeps (Urlencode : string → string)
    (validURL : string → bool) (c : ProxyDirectClient) (account container : string)
    (cs : Caches) (rand : nat → nat) (sched : list SelectEvent) (e : InfoError) :
  (GetContainerInfo Urlencode validURL c account container cs rand sched).1 = inr e →
  (GetContainerInfo Urlencode validURL c account container cs rand sched).2 = cs.
Proof.
  unfold GetContainerInfo. destruct (lookupTiers _ _); [|done..].
  destruct (negb _); [done|]. by destruct (fillInfo _).
Qed.

(** X19. The local map comes first and failures are not cached: an entry
    of the local map for the container is returned without a look at the
    shared cache or a backend request (the sentinel entry gives the
    no-info error); and whenever GetContainerInfo returns an error, both
    tiers are as they were. *)
Theorem local_map_shadows_and_errors_are_not_cached (Urlencode : string → string)
    (validURL : string → bool) (c : ProxyDirectClient) (account container : string)
    (cs : Caches) (rand : nat → nat) (sched : list SelectEvent) :
  let res := GetContainerInfo Urlencode validURL c account container cs rand sched in
  (∀ l ci, lc cs = Some l → l !! cacheKey account container = Some (Ptr ci) →
     res = (inl ci, cs))
  ∧ (∀ l, lc cs = Some l → l !! cacheKey account container = Some NilContainerInfo →
       res = (inr NoInfoForTesting, cs))
  ∧ (∀ e, res.1 = inr e → res.2 = cs).
Proof.
  intros res. subst res. unfold GetContainerInfo. split; [|split].
  - intros l ci Hl Hk. unfold lookupTiers. rewrite Hl, Hk. cbn. by destruct (mc cs).
  - intros l Hl Hk. unfold lookupTiers. rewrite Hl, Hk. cbn. by destruct (mc cs).
  - intros e. apply GetContainerInfo_error_keeps.
Qed.

Lemma lookupTiers_evicted (c : proxyClient) (account container : string) :
  evicted account container c →
  lookupTiers (cacheKey account container) (caches c) = Nil.
Proof.
  intros [Hl Hm]. unfold lookupTiers.
  destruct (lc (caches c)) as [l|] eqn:El.
  - rewrite (Hl l eq_refl). cbn.
    destruct (mc (caches c)) as [m|] eqn:Em; [|done].
    unfold mc_GetStructured. by rewrite (Hm m eq_refl).
  - destruct (mc (caches c)) as [m|] eqn:Em; [|done].
    unfold mc_GetStructured. by rewrite (Hm m eq_refl).
Qed.

Lemma GetContainerInfo_rings (Urlencode : string → string) (validURL : string → bool)
    (c c' : ProxyDirectClient) (account container : string) (cs : Caches)
    (rand : nat → nat) (sched : list SelectEvent) :
  ContainerRing c = ContainerRing c' →
  GetContainerInfo Urlencode validURL c account container cs rand sched
  = GetContainerInfo Urlencode validURL c' account container cs rand sched.
Proof.
  intros Hr. unfold GetContainerInfo, HeadContainer. by rewrite Hr.
Qed.

(** X20. A container write through the facade sends the next
    GetContainerInfo for that container to the backend: after PutContainer,
    PostContainer or DeleteContainer, the call gives what it gives on a
    facade without any cache tier, whatever the tiers held before. *)
Theorem container_write_forces_refetch (Urlencode : string → string)
    (validURL : string → bool) (LoadPolicies : list Policy)
    (c : proxyClient) (account container : string) (headers : Header) (w w' : World) :
  Forall (λ c',
      (GetContainerInfoCall Urlencode validURL c' account container w').1
      = (GetContainerInfoCall Urlencode validURL (uncached c) account container w').1)
    [ (PutContainer Urlencode validURL LoadPolicies c account container headers w).2;
      (PostContainer Urlencode validURL c account container headers w).2;
      (DeleteContainer Urlencode validURL c account container headers w).2 ].
Proof.
  assert (Hgen : ∀ c', ContainerRing (pdc c') = ContainerRing (pdc c) →
            evicted account container c' →
            (GetContainerInfoCall Urlencode validURL c' account container w').1
            = (GetContainerInfoCall Urlencode validURL (uncached c) account container w').1).
  { intros c' Hr Hev. unfold GetContainerInfoCall.
    rewrite (GetContainerInfo_rings Urlencode validURL (pdc (uncached c)) (pdc c')) by done.
    unfold GetContainerInfo.
    rewrite (lookupTiers_evicted c' account container Hev).
    change (lookupTiers (cacheKey account container) (caches (uncached c))) with Nil.
    destruct (negb _); [done|]. by destruct (fillInfo _). }
  unfold PutContainer, PostContainer, DeleteContainer, Client.PutContainer. cbn [fst snd].
  repeat constructor; apply Hgen; try done; apply invalidate_evicted.
Qed.

Lemma HasPrefix_split (s p : string) :
  HasPrefix s p = true → s = p +:+ drop_bytes (String.length p) s.
Proof.
  revert s. induction p as [|a p IH]; intros s Hp; [by rewrite append_empty|].
  destruct s as [|b s]; [done|]. cbn [HasPrefix] in Hp.
  apply andb_true_iff in Hp as [Hab Hp]. apply Ascii.eqb_eq in Hab as ->.
  rewrite append_cons. cbn [String.length drop_bytes]. f_equal. by apply IH.
Qed.

Lemma collect_counts (h : Header) (ci : ContainerInfo) (k : string) :
  ObjectCount (collect h ci k) = ObjectCount ci
  ∧ ObjectBytes (collect h ci k) = ObjectBytes ci
  ∧ StoragePolicyIndex (collect h ci k) = StoragePolicyIndex ci.
Proof.
  unfold collect.
  repeat match goal with |- context [if ?b then _ else _] => destruct b end; done.
Qed.

Lemma collect_metadata (h : Header) (ci : ContainerInfo) (k name : string) :
  Metadata (collect h ci k) !! name
  = if decide (k = "X-Container-Meta-" +:+ name)
    then Some (Header_Get h k) else Metadata ci !! name.
Proof.
  unfold collect.
  destruct (HasPrefix k "X-Container-Meta-") eqn:Hp.
  - apply HasPrefix_split in Hp. cbn [Metadata].
    change (String.length "X-Container-Meta-") with 17%nat in Hp.
    destruct (decide (k = "X-Container-Meta-" +:+ name)) as [Hk|Hk].
    + assert (drop_bytes 17 k = name) as ->
        by (rewrite Hk; apply (drop_bytes_append "X-Container-Meta-" name)).
      by rewrite lookup_insert_eq.
    + rewrite lookup_insert_ne; [done|]. intros Hn. apply Hk. by rewrite <- Hn.
  - rewrite decide_False.
    + repeat match goal with |- context [if ?b then _ else _] => destruct b end; done.
    + intros ->. by rewrite HasPrefix_append in Hp.
Qed.

Lemma foldl_collect (h : Header) (keys : list string) :
  ∀ ci name,
    (ObjectCount (foldl (collect h) ci keys) = ObjectCount ci
     ∧ ObjectBytes (foldl (collect h) ci keys) = ObjectBytes ci
     ∧ StoragePolicyIndex (foldl (collect h) ci keys) = StoragePolicyIndex ci)
    ∧ Metadata (foldl (collect h) ci keys) !! name
      = if decide (("X-Container-Meta-" +:+ name) ∈ keys)
        then Some (Header_Get h ("X-Container-Meta-" +:+ name))
        else Metadata ci !! name.
Proof.
  induction keys as [|k keys IH]; intros ci name.
  - split; [done|]. by rewrite decide_False by apply not_elem_of_nil.
  - cbn [foldl]. destruct (IH (collect h ci k) name) as [(H1 & H2 & H3) Hm].
    destruct (collect_counts h ci k) as (C1 & C2 & C3).
    split; [split; [|split]; congruence|].
    rewrite Hm, collect_metadata.
    destruct (decide (("X-Container-Meta-" +:+ name) ∈ keys)) as [Hin|Hnin].
    + by rewrite decide_True by (by right).
    + destruct (decide (k = "X-Container-Meta-" +:+ name)) as [->|Hne].
      * by rewrite decide_True by left.
      * rewrite decide_False; [done|]. intros [?|?]%elem_of_cons; done.
Qed.

(** X21. The ContainerInfo filled from a HEAD response: the fill fails
    exactly when one of X-Container-Object-Count, X-Container-Bytes-Used and
    X-Backend-Storage-Policy-Index is not a decimal integer of 64 bits; when
    it succeeds the three numbers are the values of these headers, and the
    metadata has an entry for a name exactly when the response has a header
    X-Container-Meta- followed by that name, holding the value read for
    that header. *)
Theorem fill_info_reads_headers (h : Header) :
  match fillInfo h with
  | inl ci =>
      ParseInt (Header_Get h "X-Container-Object-Count") = Some (ObjectCount ci)
      ∧ ParseInt (Header_Get h "X-Container-Bytes-Used") = Some (ObjectBytes ci)
      ∧ ParseInt (Header_Get h "X-Backend-Storage-Policy-Index")
        = Some (StoragePolicyIndex ci)
      ∧ ∀ name,
          Metadata ci !! name
          = (λ _, Header_Get h ("X-Container-Meta-" +:+ name))
              <$> h !! ("X-Container-Meta-" +:+ name)
  | inr _ =>
      ParseInt (Header_Get h "X-Container-Object-Count") = None
      ∨ ParseInt (Header_Get h "X-Container-Bytes-Used") = None
      ∨ ParseInt (Header_Get h "X-Backend-Storage-Policy-Index") = None
  end.
Proof.
  unfold fillInfo.
  destruct (ParseInt (Header_Get h "X-Container-Object-Count")) as [oc|]; [|by left].
  destruct (ParseInt (Header_Get h "X-Container-Bytes-Used")) as [ob|]; [|by right; left].
  destruct (ParseInt (Header_Get h "X-Backend-Storage-Policy-Index")) as [pi|];
    [|by right; right].
  set (ci0 := {| ObjectCount := oc; ObjectBytes := ob; StoragePolicyIndex := pi;
                 Metadata := ∅; SysMetadata := ∅; ReadACL := EmptyString;
                 WriteACL := EmptyString; SyncKey := EmptyString |}).
  destruct (foldl_collect h (map_to_list h).*1 ci0 EmptyString) as [(H1 & H2 & H3) _].
  split; [by rewrite H1|]. split; [by rewrite H2|]. split; [by rewrite H3|].
  intros name. destruct (foldl_collect h (map_to_list h).*1 ci0 name) as [_ ->].
  destruct (h !! ("X-Container-Meta-" +:+ name)) as [vs|] eqn:Hk.
  - rewrite decide_True; [done|].
    apply list_elem_of_fmap. exists ("X-Container-Meta-" +:+ name, vs).
    split; [done|]. by apply elem_of_map_to_list.
  - rewrite decide_False; [done|].
    intros ([k' vs] & Heq & Hin)%list_elem_of_fmap. cbn in Heq. subst k'.
    apply elem_of_map_to_list in Hin. congruence.
Qed.

(** A count that is not a number makes the fill fail. *)
Example fill_info_bad_count :
  fillInfo (<["X-Container-Object-Count" := ["five"]]> (RespHeader headScenario))
  = inr (BadHeader "X-Container-Object-Count").
Proof. vm_compute. reflexivity. Qed.

End CacheMoreFacts.

(** ** The object client *)

Section ObjectFacts.
Import Quorum FirstResponse Client Facade Objects.

Lemma addUpdateHeaders_frame (prefix : string) (h h' : Header) (devices : list Device)
    (i replicas : nat) (k : string) :
  addUpdateHeaders prefix h devices i replicas = Some h' →
  CanonicalMIMEHeaderKey (prefix +:+ "-Host") ≠ CanonicalMIMEHeaderKey k →
  CanonicalMIMEHeaderKey (prefix +:+ "-Device") ≠ CanonicalMIMEHeaderKey k →
  Header_Get h' k = Header_Get h k.
Proof.
  unfold addUpdateHeaders. intros Hh Hhost Hdev.
  destruct (_ <? _)%nat; [|congruence].
  destruct (stripe _ _ _ _ _ _) as [[host device]|]; [|done].
  injection Hh as <-. by rewrite !Header_Get_Set_ne.
Qed.

(** X22. When the container information cannot be had, no object call
    reaches a backend: each of the object calls of the facade answers the
    stub of a 500 with the body "Could not retrieve container information."
    whatever the backends would answer to the call itself. *)
Theorem object_calls_fail_without_container_info (Urlencode : string → string)
    (validURL : string → bool) (GetHashPrefixAndSuffix : option (string * string))
    (GetRing : string → string → string → Z → option Ring)
    (c : proxyClient) (account container : string) (wInfo : World) (e : InfoError) :
  (GetContainerInfo Urlencode validURL (pdc c) account container (caches c)
     (rand wInfo) (reads wInfo)).1 = inr e →
  ∀ call w,
    facadeObjectCall Urlencode validURL GetHashPrefixAndSuffix GetRing
      c account container call wInfo w
    = (Ok (ResponseStub 500 "Could not retrieve container information."), c).
Proof.
  intros Herr call w. unfold facadeObjectCall, newObjectClient.
  pose proof (GetContainerInfo_error_keeps Urlencode validURL (pdc c)
                account container (caches c) (rand wInfo) (reads wInfo) e Herr) as Hsame.
  destruct (GetContainerInfo _ _ _ _ _ _ _ _) as [info cs]. cbn [fst snd] in *.
  subst info cs. cbn. by destruct c.
Qed.

Lemma object_calls_fail_without_container_info_witness :
  (GetContainerInfo noEscape anyURL (pdc sentinelFacade) "AUTH_test" "photos"
     (caches sentinelFacade) (rand quietWorld) (reads quietWorld)).1 = inr NoInfoForTesting
  ∧ facadeObjectCall noEscape anyURL None (λ _ _ _ _, None) sentinelFacade
      "AUTH_test" "photos" (getObject "cat.jpg" ∅) quietWorld quietWorld
    = (Ok (ResponseStub 500 "Could not retrieve container information."), sentinelFacade).
Proof.
  assert (H : (GetContainerInfo noEscape anyURL (pdc sentinelFacade) "AUTH_test" "photos"
                 (caches sentinelFacade) (rand quietWorld) (reads quietWorld)).1
              = inr NoInfoForTesting) by (vm_compute; reflexivity).
  exact (conj H (object_calls_fail_without_container_info noEscape anyURL None
                   (λ _ _ _ _, None) sentinelFacade "AUTH_test" "photos" quietWorld
                   NoInfoForTesting H (getObject "cat.jpg" ∅) quietWorld)).
Defined.

Lemma newRequest_spec (validURL : string → bool) (method url : string) (headers : Header) :
  match newRequest validURL method url headers with
  | Some req =>
      validURL url = true ∧ Method req = method ∧ URL req = url
      ∧ ∀ k, Header_Get (ReqHeader req) k = Header_Get headers k
  | None => validURL url = false
  end.
Proof.
  unfold newRequest. destruct (validURL url); [|done].
  cbn [Method URL ReqHeader]. repeat split. intros k. apply copy_Header_Get.
Qed.

(** X23. A request just built reads like the caller's headers: for any
    caller headers, however their names are spelt, [Header.Get] gives on the
    request built by the header copy what it gives on the caller's headers,
    for every name; method and target are those asked for, and a request is
    built exactly when the target is accepted. *)
Theorem new_request_preserves_get (validURL : string → bool)
    (method url : string) (headers : Header) :
  match newRequest validURL method url headers with
  | Some req =>
      validURL url = true ∧ Method req = method ∧ URL req = url
      ∧ ∀ k, Header_Get (ReqHeader req) k = Header_Get headers k
  | None => validURL url = false
  end.
Proof. apply newRequest_spec. Qed.

Lemma setHeader_get (req : Request) (key value k : string) :
  Header_Get (ReqHeader (setHeader req key value)) k
  = if decide (CanonicalMIMEHeaderKey key = CanonicalMIMEHeaderKey k)
    then value else Header_Get (ReqHeader req) k.
Proof.
  unfold setHeader, Header_Get, Header_Set. cbn [ReqHeader].
  case_decide as Hk.
  - by rewrite Hk, lookup_insert_eq.
  - by rewrite lookup_insert_ne.
Qed.

Lemma readRequest_policy (Urlencode : string → string) (validURL : string → bool)
    (account container : string) (policy : Z) (objectRing : Ring)
    (call : ObjectCall) (dev : Device) (req : Request) :
  readRequest Urlencode validURL account container policy objectRing call dev = Some req →
  Header_Get (ReqHeader req) "X-Backend-Storage-Policy-Index" = Itoa policy.
Proof.
  destruct call; cbn [readRequest]; try done;
    (destruct (newRequest _ _ _ _) as [req0|]; [|done]; intros [= <-];
     by rewrite setHeader_get, decide_True).
Qed.

Lemma writeRequest_headers (Urlencode : string → string) (validURL : string → bool)
    (c : ProxyDirectClient) (account container : string) (policy : Z) (objectRing : Ring)
    (call : ObjectCall) (i : nat) (dev : Device) (req : Request) :
  writeRequest Urlencode validURL c account container policy objectRing call i dev = Req req →
  Header_Get (ReqHeader req) "X-Backend-Storage-Policy-Index" = Itoa policy
  ∧ Header_Get (ReqHeader req) "X-Container-Partition"
    = Itoa (GetPartition (ContainerRing c) account container EmptyString)
  ∧ ∃ headers,
      ((∃ obj, call = postObject obj headers)
       ∧ Header_Get (ReqHeader req) "Content-Type" = Header_Get headers "Content-Type"
       ∨ (∃ obj, call = deleteObject obj headers)
         ∧ Header_Get (ReqHeader req) "Content-Type"
           = if is_empty (Header_Get headers "Content-Type")
             then "application/octet-stream"
             else Header_Get headers "Content-Type").
Proof.
  unfold writeRequest. cbv zeta.
  destruct call as [| | |obj headers|obj headers]; try done.
  - pose proof (newRequest_spec validURL "POST"
                  (deviceURL dev (GetPartition objectRing account container obj)
                     (objectPath Urlencode account container obj)) headers) as Hnew.
    destruct (newRequest _ _ _ _) as [req0|]; [|done].
    destruct Hnew as (_ & _ & _ & Hget).
    destruct (addUpdateHeaders _ _ _ _ _) as [h|] eqn:Hadd; [|done].
    intros [= <-]. cbn [ReqHeader].
    rewrite !(addUpdateHeaders_frame _ _ _ _ _ _ _ Hadd) by (by vm_compute).
    rewrite !setHeader_get.
    split; [by rewrite decide_False, decide_True by (by vm_compute)|].
    split; [by rewrite decide_True|].
    exists headers. left. split; [eauto|].
    by rewrite !decide_False by (by vm_compute).
  - pose proof (newRequest_spec validURL "DELETE"
                  (deviceURL dev (GetPartition objectRing account container obj)
                     (objectPath Urlencode account container obj)) headers) as Hnew.
    destruct (newRequest _ _ _ _) as [req0|]; [|done].
    destruct Hnew as (_ & _ & _ & Hget).
    destruct (addUpdateHeaders _ _ _ _ _) as [h|] eqn:Hadd; [|done].
    intros [= <-]. cbn [ReqHeader].
    rewrite !(addUpdateHeaders_frame _ _ _ _ _ _ _ Hadd) by (by vm_compute).
    rewrite !setHeader_get.
    split; [by rewrite decide_False, decide_True by (by vm_compute)|].
    split; [by rewrite decide_True|].
    exists headers. right. split; [eauto|].
    rewrite !decide_False by (by vm_compute).
    rewrite (Hget "Content-Type").
    destruct (is_empty (Header_Get headers "Content-Type")) eqn:He.
    + by rewrite setHeader_get, decide_True.
    + apply Hget.
Qed.

(** X24. Object requests carry the container's storage policy: the
    standard object client is bound to the policy index of the
    ContainerInfo that GetContainerInfo returned and to the object ring
    loaded for that index, and every request built for one of its calls has
    that index in X-Backend-Storage-Policy-Index, whatever the caller's
    headers say for that name. *)
Theorem object_requests_carry_container_policy (Urlencode : string → string)
    (validURL : string → bool) (GetHashPrefixAndSuffix : option (string * string))
    (GetRing : string → string → string → Z → option Ring)
    (c : ProxyDirectClient) (account container : string) (cs : Caches)
    (rand : nat → nat) (sched : list SelectEvent) :
  match (newObjectClient Urlencode validURL GetHashPrefixAndSuffix GetRing
           c account container cs rand sched).1 with
  | standardObjectClient c0 account0 container0 policy objectRing =>
      c0 = c ∧ account0 = account ∧ container0 = container
      ∧ (∃ ci hashPathPrefix hashPathSuffix,
           (GetContainerInfo Urlencode validURL c account container cs rand sched).1 = inl ci
           ∧ policy = StoragePolicyIndex ci
           ∧ GetHashPrefixAndSuffix = Some (hashPathPrefix, hashPathSuffix)
           ∧ GetRing "object" hashPathPrefix hashPathSuffix policy = Some objectRing)
      ∧ ∀ call dev req,
          (readRequest Urlencode validURL account container policy objectRing call dev
             = Some req
           ∨ ∃ i, writeRequest Urlencode validURL c account container policy objectRing
                    call i dev = Req req) →
          Header_Get (ReqHeader req) "X-Backend-Storage-Policy-Index" = Itoa policy
  | erroringObjectClient body =>
      body = "Could not retrieve container information."
      ∨ body = "Could not retrieve hash path prefix and suffix."
      ∨ ∃ ci, (GetContainerInfo Urlencode validURL c account container cs rand sched).1
                = inl ci
              ∧ body = "Could not load object ring for policy "
                         +:+ Itoa (StoragePolicyIndex ci) +:+ "."
  end.
Proof.
  unfold newObjectClient.
  destruct (GetContainerInfo _ _ _ _ _ _ _ _) as [[ci|e] cs']; cbn [fst snd]; [|by left].
  destruct GetHashPrefixAndSuffix as [[p s]|]; cbn [fst]; [|by right; left].
  destruct (GetRing "object" p s (StoragePolicyIndex ci)) as [ring|] eqn:Hring;
    cbn [fst]; [|right; right; eauto].
  split; [done|]. split; [done|]. split; [done|].
  split; [exists ci, p, s; done|].
  intros call dev req [Hread|[i Hwrite]].
  - by apply readRequest_policy in Hread.
  - by apply writeRequest_headers in Hwrite as [? _].
Qed.

(** X25. An object DELETE without a Content-Type is sent as
    application/octet-stream, one with a Content-Type keeps it, and an
    object POST is given no default; both carry the partition of the
    container in X-Container-Partition. *)
Theorem object_write_content_type (Urlencode : string → string)
    (validURL : string → bool) (c : ProxyDirectClient) (account container : string)
    (policy : Z) (objectRing : Ring) (obj : string) (headers : Header)
    (i : nat) (dev : Device) (req : Request) :
  (writeRequest Urlencode validURL c account container policy objectRing
     (deleteObject obj headers) i dev = Req req →
   Header_Get (ReqHeader req) "Content-Type"
   = (if is_empty (Header_Get headers "Content-Type")
      then "application/octet-stream" else Header_Get headers "Content-Type")
   ∧ Header_Get (ReqHeader req) "X-Container-Partition"
     = Itoa (GetPartition (ContainerRing c) account container EmptyString))
  ∧ (writeRequest Urlencode validURL c account container policy objectRing
       (postObject obj headers) i dev = Req req →
     Header_Get (ReqHeader req) "Content-Type" = Header_Get headers "Content-Type"
     ∧ Header_Get (ReqHeader req) "X-Container-Partition"
       = Itoa (GetPartition (ContainerRing c) account container EmptyString)).
Proof.
  split; intros Hreq;
    apply writeRequest_headers in Hreq
      as (_ & Hpart & headers' & [[[obj' Hcall] Hct]|[[obj' Hcall] Hct]]);
    try discriminate Hcall; injection Hcall as _ <-; done.
Qed.

(** A DELETE whose caller spelt content-type in lower case beside a
    canonical Content-Type with two values: the first canonical value goes
    out. *)
Example object_delete_request_built :
  writeRequest noEscape anyURL goldClient "AUTH_test" "photos" 1 ring1
    (deleteObject "cat.jpg" lowerCaseHeaders) 0 objectDevice
  = Req {| Method := "DELETE";
           URL := "http://10.0.0.9:6000/sdz/7/AUTH_test/photos/cat.jpg";
           ReqHeader := {[ "Content-Type" := ["image/png"];
                           "X-Backend-Storage-Policy-Index" := ["1"];
                           "X-Container-Partition" := ["7"];
                           "X-Container-Host" := ["10.0.0.1:6000"];
                           "X-Container-Device" := ["sda"] ]} |}.
Proof. vm_compute. reflexivity. Qed.

End ObjectFacts.

(** ** The account-bound client: what a listing call hands back *)

Section DirectMoreFacts.
Import Quorum FirstResponse Client Facade Direct.

Lemma decodeListing_cases {A : Type} (decode : string → string + option (list A))
    (resp : Response) :
  let l := decodeListing decode resp in
  (StatusCode resp ÷ 100 ≠ 2 →
   records l = None ∧ response l = resp ∧ backend l = resp)
  ∧ (∀ listing, StatusCode resp ÷ 100 = 2 → decode (Body resp) = inr listing →
       records l = listing ∧ response l = Close resp ∧ backend l = Close resp)
  ∧ (is_Some (records l) →
     StatusCode (response l) ÷ 100 = 2 ∧ BodyClosed (response l) = true).
Proof.
  intros l. subst l. unfold decodeListing.
  destruct (Z.eqb_spec (StatusCode resp ÷ 100) 2) as [H2|H2]; cbn [negb].
  - destruct (decode (Body resp)) as [err|listing] eqn:Hd; cbn [records response backend].
    + split; [done|]. split; [done|]. by intros [? ?].
    + split; [done|]. split; [by intros ? _ [= <-]|]. done.
  - cbn [records response backend]. split; [done|]. split; [done|]. by intros [? ?].
Qed.

(** X26. A listing call of the direct client passes a response that is not
    a 2xx through as it is, with a nil record list and its body left open
    for the caller; on a 2xx whose body decodes it returns the decoded
    records with that response, body closed.  So records are only ever
    returned together with a 2xx response whose body has been closed. *)
Theorem listing_passes_through_or_decodes (Urlencode QueryEscape : string → string)
    (validURL : string → bool) (Map2Headers : gmap string string → Header)
    (ContainerRecord ObjectRecord : Type)
    (decodeContainerRecords : string → string + option (list ContainerRecord))
    (decodeObjectRecords : string → string + option (list ObjectRecord))
    (c : directClient) (container marker endMarker : string) (limit : Z)
    (prefix delimiter : string) (reverse : bool) (headers : gmap string string)
    (w : World) :
  let options := listingOptions marker endMarker limit prefix delimiter reverse in
  let accountResp :=
    Facade.GetAccount Urlencode QueryEscape validURL (pc c) (account c) options
      (Map2Headers headers) w in
  let containerResp :=
    Facade.GetContainer Urlencode QueryEscape validURL (pc c) (account c) container
      options (Map2Headers headers) w in
  let la := GetAccount Urlencode QueryEscape validURL Map2Headers ContainerRecord
              decodeContainerRecords c marker endMarker limit prefix delimiter
              reverse headers w in
  let lc := GetContainer Urlencode QueryEscape validURL Map2Headers ObjectRecord
              decodeObjectRecords c container marker endMarker limit prefix
              delimiter reverse headers w in
  ((StatusCode accountResp ÷ 100 ≠ 2 →
    records la = None ∧ response la = accountResp ∧ backend la = accountResp)
   ∧ (∀ listing, StatusCode accountResp ÷ 100 = 2 →
        decodeContainerRecords (Body accountResp) = inr listing →
        records la = listing ∧ response la = Close accountResp)
   ∧ (is_Some (records la) →
      StatusCode (response la) ÷ 100 = 2 ∧ BodyClosed (response la) = true))
  ∧ ((StatusCode containerResp ÷ 100 ≠ 2 →
      records lc = None ∧ response lc = containerResp ∧ backend lc = containerResp)
     ∧ (∀ listing, StatusCode containerResp ÷ 100 = 2 →
          decodeObjectRecords (Body containerResp) = inr listing →
          records lc = listing ∧ response lc = Close containerResp)
     ∧ (is_Some (records lc) →
        StatusCode (response lc) ÷ 100 = 2 ∧ BodyClosed (response lc) = true)).
Proof.
  intros options accountResp containerResp la lc.
  split.
  - destruct (decodeListing_cases decodeContainerRecords accountResp) as (H1 & H2 & H3).
    split; [exact H1|]. split; [|exact H3].
    intros listing Hs Hd. by destruct (H2 listing Hs Hd) as (? & ? & _).
  - destruct (decodeListing_cases decodeObjectRecords containerResp) as (H1 & H2 & H3).
    split; [exact H1|]. split; [|exact H3].
    intros listing Hs Hd. by destruct (H2 listing Hs Hd) as (? & ? & _).
Qed.

End DirectMoreFacts.
